(** * vulsim_codegen: the VulSim C++ code generator

    A shallow embedding of [vulsim_codegen.py].  The script is one
    top-level sequence of statements over module-level variables, so the
    embedding is a state-and-error monad over a record of those globals,
    with the script's loops as monadic iterations.  The bundle dependency
    resolver (Kahn's algorithm) and the function-body extractor are pure
    functions called from it.

    Python [str] values are modelled by [string], read as sequences of
    code points below 256. *)

From Stdlib Require Import ZArith List String Ascii Lia Bool Permutation.
From stdpp Require Import base option list gmap strings relations pretty.
Import ListNotations.

Local Open Scope string_scope.
Local Open Scope Z_scope.
Local Open Scope list_scope.

(** ** Python strings *)

Module PyStr.

Definition nl : ascii := ascii_of_nat 10.
Definition dquote : ascii := ascii_of_nat 34.
Definition squote : ascii := ascii_of_nat 39.
Definition backslash : ascii := ascii_of_nat 92.

Definition chr (c : ascii) : string := String c EmptyString.

(** [str.isspace] on one code point below 256. *)
Definition is_space (c : ascii) : bool :=
  let n := N_of_ascii c in
  ((9 <=? n) && (n <=? 13) || (28 <=? n) && (n <=? 32)
   || (n =? 133) || (n =? 160))%N.

Fixpoint lstrip (s : string) : string :=
  match s with
  | EmptyString => EmptyString
  | String c r => if is_space c then lstrip r else s
  end.

Fixpoint rstrip (s : string) : string :=
  match s with
  | EmptyString => EmptyString
  | String c r =>
      match rstrip r with
      | EmptyString => if is_space c then EmptyString else chr c
      | r' => String c r'
      end
  end.

(** [s.strip()] *)
Definition strip (s : string) : string := rstrip (lstrip s).

(** [sep.join(l)] *)
Fixpoint join (sep : string) (l : list string) : string :=
  match l with
  | [] => EmptyString
  | [x] => x
  | x :: r => x +:+ sep +:+ join sep r
  end.

(** ["".join(l)] *)
Fixpoint concat (l : list string) : string :=
  match l with
  | [] => EmptyString
  | x :: r => x +:+ concat r
  end.

(** Position of the first / last occurrence of a character. *)
Fixpoint index_of (c : ascii) (s : string) : option nat :=
  match s with
  | EmptyString => None
  | String d r =>
      if Ascii.eqb c d then Some O
      else match index_of c r with Some i => Some (S i) | None => None end
  end.

Fixpoint rindex_of (c : ascii) (s : string) : option nat :=
  match s with
  | EmptyString => None
  | String d r =>
      match rindex_of c r with
      | Some i => Some (S i)
      | None => if Ascii.eqb c d then Some O else None
      end
  end.

(** [s.find(c)] and [s.rfind(c)] for a one-character needle: the index,
    or [-1]. *)
Definition find (c : ascii) (s : string) : Z :=
  match index_of c s with Some i => Z.of_nat i | None => -1 end.

Definition rfind (c : ascii) (s : string) : Z :=
  match rindex_of c s with Some i => Z.of_nat i | None => -1 end.

(** A slice bound as Python normalises it: negative bounds count from
    the end, and every bound is clamped to [0, len]. *)
Definition slice_bound (len i : Z) : Z :=
  if i <? 0 then Z.max 0 (i + len) else Z.min i len.

(** [s[i:j]] *)
Definition slice (s : string) (i j : Z) : string :=
  let len := Z.of_nat (String.length s) in
  let a := slice_bound len i in
  let b := slice_bound len j in
  substring (Z.to_nat a) (Z.to_nat (b - a)) s.

(** [l[i:j]] on a list *)
Definition list_slice {A} (l : list A) (i j : Z) : list A :=
  let len := Z.of_nat (List.length l) in
  let a := slice_bound len i in
  let b := slice_bound len j in
  firstn (Z.to_nat (b - a)) (skipn (Z.to_nat a) l).

(** [s.split("\n")] *)
Fixpoint split_nl (s : string) : list string :=
  match s with
  | EmptyString => [EmptyString]
  | String c r =>
      if Ascii.eqb c nl then EmptyString :: split_nl r
      else match split_nl r with
           | [] => [chr c]
           | h :: t => String c h :: t
           end
  end.

(** [s.endswith(suf)] *)
Definition endswith (s suf : string) : bool :=
  let n := String.length s in
  let k := String.length suf in
  (k <=? n)%nat && String.eqb (substring (n - k) k s) suf.

Definition hex_digit (n : N) : ascii :=
  ascii_of_N (if (n <? 10)%N then 48 + n else 87 + n)%N.

Definition hex2 (n : N) : string :=
  String (hex_digit (n / 16)) (chr (hex_digit (n mod 16))).

Fixpoint contains (c : ascii) (s : string) : bool :=
  match s with
  | EmptyString => false
  | String d r => Ascii.eqb c d || contains c r
  end.

(** [repr(s)] for a [str]: how a string prints inside a tuple. *)
Definition repr_char (q c : ascii) : string :=
  let n := N_of_ascii c in
  if Ascii.eqb c q || Ascii.eqb c backslash then String backslash (chr c)
  else if (n =? 9)%N then String backslash "t"
  else if (n =? 10)%N then String backslash "n"
  else if (n =? 13)%N then String backslash "r"
  else if ((n <? 32) || (n =? 127))%N then String backslash ("x" +:+ hex2 n)
  else if (n <? 127)%N then chr c
  else if ((n <=? 160) || (n =? 173))%N then String backslash ("x" +:+ hex2 n)
  else chr c.

Fixpoint repr_body (q : ascii) (s : string) : string :=
  match s with
  | EmptyString => EmptyString
  | String c r => repr_char q c +:+ repr_body q r
  end.

Definition repr (s : string) : string :=
  let q := if contains squote s && negb (contains dquote s)
           then dquote else squote in
  chr q +:+ repr_body q s +:+ chr q.

(** [str((a, b))] for a pair of strings *)
Definition str_pair (p : string * string) : string :=
  "(" +:+ repr (fst p) +:+ ", " +:+ repr (snd p) +:+ ")".

End PyStr.

(** ** ElementTree elements *)

#[local] Set Warnings "-register-all".

Inductive Element : Type :=
  Elem (tag : string) (text : option string) (children : list Element).

Definition tag (e : Element) : string :=
  match e with Elem t _ _ => t end.
Definition text (e : Element) : option string :=
  match e with Elem _ x _ => x end.
Definition children (e : Element) : list Element :=
  match e with Elem _ _ c => c end.

(** [e.findall(t)]: the direct children with tag [t], in document order. *)
Definition findall (t : string) (e : Element) : list Element :=
  List.filter (fun c => String.eqb (tag c) t) (children e).

(** [e.find(t)]: the first such child, or [None]. *)
Definition find (t : string) (e : Element) : option Element :=
  head (findall t e).

(** Truth value of what [find] returned: [None] is false, and an element
    is true exactly when it has child elements. *)
Definition truthy (o : option Element) : bool :=
  match o with
  | Some (Elem _ _ (_ :: _)) => true
  | _ => false
  end.

Definition is_not_None {A} (o : option A) : bool :=
  match o with Some _ => true | None => false end.

(** ** Outcomes and the script monad *)

Inductive exn : Type :=
  | AttributeError
  | NameError (var : string)
  | KeyError (key : string)
  | AssertionError
  | ParseError (path : string)
  | FileNotFoundError (path : string)
  | TranslationUnitLoadError (path : string).

(** How a computation ends: with a value, with an uncaught exception, or
    with [sys.exit(code)]. *)
Inductive outcome (A : Type) : Type :=
  | Ok (a : A)
  | Raise (e : exn)
  | SysExit (code : Z).
Arguments Ok {A} a.
Arguments Raise {A} e.
Arguments SysExit {A} code.

Definition obind {A B} (o : outcome A) (k : A -> outcome B) : outcome B :=
  match o with
  | Ok a => k a
  | Raise e => Raise e
  | SysExit c => SysExit c
  end.

Notation "'let?' x ':=' o 'in' k" := (obind o (fun x => k))
  (at level 10, x pattern, o at level 100, k at level 200).

Fixpoint omap {A B} (f : A -> outcome B) (l : list A) : outcome (list B) :=
  match l with
  | [] => Ok []
  | x :: r => let? y := f x in let? ys := omap f r in Ok (y :: ys)
  end.

(** [o.text.strip()] where [o] is what [find] returned. *)
Definition text_strip (o : option Element) : outcome string :=
  match o with
  | None => Raise AttributeError
  | Some e =>
      match text e with
      | None => Raise AttributeError
      | Some t => Ok (PyStr.strip t)
      end
  end.

(** [e.find(t).text.strip() if e.find(t) is not None else dflt] *)
Definition text_strip_or (t : string) (e : Element) (dflt : string)
  : outcome string :=
  match find t e with
  | Some c => text_strip (Some c)
  | None => Ok dflt
  end.

Definition basic_data_type : list string :=
  ["bool"; "int8"; "int16"; "int32"; "int64"; "int128";
   "uint8"; "uint16"; "uint32"; "uint64"; "uint128"].

Definition is_basic (t : string) : bool :=
  existsb (String.eqb t) basic_data_type.

Definition codetab : string := "    ".

(** ** Insertion-ordered dictionaries *)

(** [d[k] = v]: an existing key keeps its position. *)
Fixpoint dict_set {V} (k : string) (v : V) (d : list (string * V))
  : list (string * V) :=
  match d with
  | [] => [(k, v)]
  | (k', v') :: r =>
      if String.eqb k' k then (k, v) :: r else (k', v') :: dict_set k v r
  end.

Definition dict_keys {V} (d : list (string * V)) : list string := map fst d.

Fixpoint dict_get {V} (k : string) (d : list (string * V)) : option V :=
  match d with
  | [] => None
  | (k', v) :: r => if String.eqb k' k then Some v else dict_get k r
  end.

Definition in_keys (k : string) (ks : list string) : bool :=
  existsb (String.eqb k) ks.

(** ** The data classes *)

Record BundleMember := mkBundleMember
  { bm_name : string; bm_type : string; bm_value : string }.

Record Argument := mkArgument { a_type : string; a_name : string }.

Record Function := mkFunction
  { fn_name : string; fn_arg : list Argument; fn_ret : list Argument }.

Record Combine := mkCombine
  { c_name : string;
    c_request : list (string * Function);
    c_service : list (string * Function);
    c_function : list (string * Function);
    c_pipein : list (string * string);
    c_pipeout : list (string * string);
    c_stallable : bool }.

(** ** The libclang view of a source file *)

Inductive CursorKind := FUNCTION_DECL | VAR_DECL | STRUCT_DECL | OTHER_KIND.

Definition is_function_decl (k : CursorKind) : bool :=
  match k with FUNCTION_DECL => true | _ => false end.

(** A child of the translation unit's cursor: the attributes the
    extractor reads. *)
Record Cursor := mkCursor
  { kind : CursorKind;
    spelling : string;
    extent_start_file : option string;
    extent_start_line : Z;
    extent_end_line : Z }.

(** What [index.parse] and [readlines] give for one file. *)
Record CppFile := mkCppFile
  { tu_children : list Cursor;
    file_lines : list string }.

(** The body of the loop over [tu.cursor.get_children()]. *)
Fixpoint extract_from (lines : list string) (func_name : string)
    (nodes : list Cursor) : string :=
  match nodes with
  | [] => EmptyString
  | node :: rest =>
      if is_function_decl (kind node) && String.eqb (spelling node) func_name
      then
        match extent_start_file node with
        | None => extract_from lines func_name rest
        | Some _ =>
            let func_code :=
              PyStr.concat
                (PyStr.list_slice lines (extent_start_line node - 1)
                                        (extent_end_line node)) in
            let brace_start := PyStr.find "{" func_code in
            let brace_end := PyStr.rfind "}" func_code in
            if negb (brace_start =? -1) && negb (brace_end =? -1)
            then PyStr.strip (PyStr.slice func_code (brace_start + 1) brace_end)
            else extract_from lines func_name rest
        end
      else extract_from lines func_name rest
  end.

Definition extract_cpp_function_body (cpp_dir : string -> option CppFile)
    (filename func_name : string) : outcome string :=
  match cpp_dir filename with
  | None => Raise (TranslationUnitLoadError filename)
  | Some f => Ok (extract_from (file_lines f) func_name (tu_children f))
  end.

(** The block that the script repeats for [service], [init], [tick] and
    [applytick]: the lines of the element's [cppfunc]. *)
Definition cppfunc_lines (cpp_dir : string -> option CppFile)
    (owner : Element) : outcome (list string) :=
  match find "cppfunc" owner with
  | None => Raise AttributeError
  | Some cppfunc =>
      let? cppfunclines :=
        match find "file" cppfunc with
        | Some _ =>
            let? cppfuncfile := text_strip (find "file" cppfunc) in
            let? cppfuncname := text_strip (find "name" cppfunc) in
            let? cppfuncline :=
              extract_cpp_function_body cpp_dir cppfuncfile cppfuncname in
            Ok (PyStr.split_nl cppfuncline)
        | None => Ok []
        end in
      let? codes :=
        omap (fun code => text_strip (Some code)) (findall "code" cppfunc) in
      Ok (cppfunclines ++ codes)
  end.

(** ** The module-level variables *)

(** The nine line buffers that are reset for every combine. *)
Inductive field_id :=
  | constructor_arguments_field | constructor_field | deconstructor_field
  | member_field | function_field | tick_field | applytick_field
  | user_tick_field | user_applytick_field.

(** The buffers themselves. *)
Record Buffers := mkBuffers
  { b_constructor_arguments : list string;
    b_constructor : list string;
    b_deconstructor : list string;
    b_member : list string;
    b_function : list string;
    b_tick : list string;
    b_applytick : list string;
    b_user_tick : list string;
    b_user_applytick : list string }.

Definition empty_buffers : Buffers := mkBuffers [] [] [] [] [] [] [] [] [].

Definition get_field (f : field_id) (b : Buffers) : list string :=
  match f with
  | constructor_arguments_field => b_constructor_arguments b
  | constructor_field => b_constructor b
  | deconstructor_field => b_deconstructor b
  | member_field => b_member b
  | function_field => b_function b
  | tick_field => b_tick b
  | applytick_field => b_applytick b
  | user_tick_field => b_user_tick b
  | user_applytick_field => b_user_applytick b
  end.

(** [f.append(line)] *)
Definition add_line (f : field_id) (line : string) (b : Buffers) : Buffers :=
  match f with
  | constructor_arguments_field =>
      mkBuffers (b_constructor_arguments b ++ [line]) (b_constructor b)
        (b_deconstructor b) (b_member b) (b_function b) (b_tick b)
        (b_applytick b) (b_user_tick b) (b_user_applytick b)
  | constructor_field =>
      mkBuffers (b_constructor_arguments b) (b_constructor b ++ [line])
        (b_deconstructor b) (b_member b) (b_function b) (b_tick b)
        (b_applytick b) (b_user_tick b) (b_user_applytick b)
  | deconstructor_field =>
      mkBuffers (b_constructor_arguments b) (b_constructor b)
        (b_deconstructor b ++ [line]) (b_member b) (b_function b) (b_tick b)
        (b_applytick b) (b_user_tick b) (b_user_applytick b)
  | member_field =>
      mkBuffers (b_constructor_arguments b) (b_constructor b)
        (b_deconstructor b) (b_member b ++ [line]) (b_function b) (b_tick b)
        (b_applytick b) (b_user_tick b) (b_user_applytick b)
  | function_field =>
      mkBuffers (b_constructor_arguments b) (b_constructor b)
        (b_deconstructor b) (b_member b) (b_function b ++ [line]) (b_tick b)
        (b_applytick b) (b_user_tick b) (b_user_applytick b)
  | tick_field =>
      mkBuffers (b_constructor_arguments b) (b_constructor b)
        (b_deconstructor b) (b_member b) (b_function b) (b_tick b ++ [line])
        (b_applytick b) (b_user_tick b) (b_user_applytick b)
  | applytick_field =>
      mkBuffers (b_constructor_arguments b) (b_constructor b)
        (b_deconstructor b) (b_member b) (b_function b) (b_tick b)
        (b_applytick b ++ [line]) (b_user_tick b) (b_user_applytick b)
  | user_tick_field =>
      mkBuffers (b_constructor_arguments b) (b_constructor b)
        (b_deconstructor b) (b_member b) (b_function b) (b_tick b)
        (b_applytick b) (b_user_tick b ++ [line]) (b_user_applytick b)
  | user_applytick_field =>
      mkBuffers (b_constructor_arguments b) (b_constructor b)
        (b_deconstructor b) (b_member b) (b_function b) (b_tick b)
        (b_applytick b) (b_user_tick b) (b_user_applytick b ++ [line])
  end.

(** What the run leaves in the output directory, in order. *)
Inductive output :=
  | Written (path : string) (lines : list string)
  | Copied (src : string) (dst : string)
  | MadeDir (path : string).

(** The globals of the script, with what it prints and writes.
    [stdout] holds the printed lines except the fixed banners that
    announce each stage (lines 24, 48, 55, 95, 124, 149, 165, 540).
    [v_storage], [v_arg_type] and [v_arg_name] are the loop variables
    [storage], [arg_type] and [arg_name], which are read outside the
    loops that bind them; [None] is a name that has not been assigned
    yet. *)
Record State := mkState
  { stdout : list string;
    outputs : list output;
    warnings : list string;
    bundles : list (string * list BundleMember);
    bundle_depend_former : list (string * string);
    combines : list (string * Combine);
    info : Combine;
    buffers : Buffers;
    v_storage : option Element;
    v_arg_type : option string;
    v_arg_name : option string }.

Definition set_stdout (v : list string) (s : State) : State :=
  mkState v (outputs s) (warnings s) (bundles s) (bundle_depend_former s)
    (combines s) (info s) (buffers s) (v_storage s) (v_arg_type s)
    (v_arg_name s).
Definition set_outputs (v : list output) (s : State) : State :=
  mkState (stdout s) v (warnings s) (bundles s) (bundle_depend_former s)
    (combines s) (info s) (buffers s) (v_storage s) (v_arg_type s)
    (v_arg_name s).
Definition set_warnings (v : list string) (s : State) : State :=
  mkState (stdout s) (outputs s) v (bundles s) (bundle_depend_former s)
    (combines s) (info s) (buffers s) (v_storage s) (v_arg_type s)
    (v_arg_name s).
Definition set_bundles (v : list (string * list BundleMember)) (s : State)
  : State :=
  mkState (stdout s) (outputs s) (warnings s) v (bundle_depend_former s)
    (combines s) (info s) (buffers s) (v_storage s) (v_arg_type s)
    (v_arg_name s).
Definition set_bundle_depend_former (v : list (string * string)) (s : State)
  : State :=
  mkState (stdout s) (outputs s) (warnings s) (bundles s) v
    (combines s) (info s) (buffers s) (v_storage s) (v_arg_type s)
    (v_arg_name s).
Definition set_combines (v : list (string * Combine)) (s : State) : State :=
  mkState (stdout s) (outputs s) (warnings s) (bundles s)
    (bundle_depend_former s) v (info s) (buffers s) (v_storage s)
    (v_arg_type s) (v_arg_name s).
Definition set_info (v : Combine) (s : State) : State :=
  mkState (stdout s) (outputs s) (warnings s) (bundles s)
    (bundle_depend_former s) (combines s) v (buffers s) (v_storage s)
    (v_arg_type s) (v_arg_name s).
Definition set_buffers (v : Buffers) (s : State) : State :=
  mkState (stdout s) (outputs s) (warnings s) (bundles s)
    (bundle_depend_former s) (combines s) (info s) v (v_storage s)
    (v_arg_type s) (v_arg_name s).
Definition set_v_storage (v : option Element) (s : State) : State :=
  mkState (stdout s) (outputs s) (warnings s) (bundles s)
    (bundle_depend_former s) (combines s) (info s) (buffers s) v
    (v_arg_type s) (v_arg_name s).
Definition set_v_arg_type (v : option string) (s : State) : State :=
  mkState (stdout s) (outputs s) (warnings s) (bundles s)
    (bundle_depend_former s) (combines s) (info s) (buffers s) (v_storage s)
    v (v_arg_name s).
Definition set_v_arg_name (v : option string) (s : State) : State :=
  mkState (stdout s) (outputs s) (warnings s) (bundles s)
    (bundle_depend_former s) (combines s) (info s) (buffers s) (v_storage s)
    (v_arg_type s) v.

(** The lines of one buffer. *)
Definition fields (s : State) (f : field_id) : list string :=
  get_field f (buffers s).

Definition empty_combine (cname : string) : Combine :=
  mkCombine cname [] [] [] [] [] false.

(** The state when the script starts. *)
Definition initial_state : State :=
  mkState [] [] [] [] [] [] (empty_combine "") empty_buffers None None None.

(** ** The monad *)

(** Besides the three ways a Python run ends, [OutOfFuel] marks a
    [while] loop that did not finish within the bound the model gives
    it. *)
Inductive status (A : Type) : Type :=
  | Done (o : outcome A)
  | OutOfFuel.
Arguments Done {A} o.
Arguments OutOfFuel {A}.

Definition M (A : Type) : Type := State -> status A * State.

Definition ret {A} (a : A) : M A := fun s => (Done (Ok a), s).

Definition bind {A B} (m : M A) (k : A -> M B) : M B :=
  fun s =>
    match m s with
    | (Done (Ok a), s') => k a s'
    | (Done (Raise e), s') => (Done (Raise e), s')
    | (Done (SysExit c), s') => (Done (SysExit c), s')
    | (OutOfFuel, s') => (OutOfFuel, s')
    end.

Notation "'let*' x ':=' m 'in' k" := (bind m (fun x => k))
  (at level 10, x pattern, m at level 100, k at level 200).
Notation "m '>>' k" := (bind m (fun _ => k))
  (at level 90, right associativity).

Definition lift {A} (o : outcome A) : M A := fun s => (Done o, s).
Definition raise {A} (e : exn) : M A := lift (Raise e).
Definition sys_exit {A} (code : Z) : M A := lift (SysExit code).
Definition get : M State := fun s => (Done (Ok s), s).
Definition modify (f : State -> State) : M unit :=
  fun s => (Done (Ok tt), f s).

(** [for x in l: body] *)
Fixpoint for_each {A} (l : list A) (body : A -> M unit) : M unit :=
  match l with
  | [] => ret tt
  | x :: r => body x >> for_each r body
  end.

(** A [for] loop that also carries local variables [acc]. *)
Fixpoint fold_each {A B} (l : list A) (body : B -> A -> M B) (acc : B)
  : M B :=
  match l with
  | [] => ret acc
  | x :: r => let* acc' := body acc x in fold_each r body acc'
  end.

Definition when (b : bool) (m : M unit) : M unit :=
  if b then m else ret tt.

Definition print (line : string) : M unit :=
  modify (fun s => set_stdout (stdout s ++ [line]) s).

(** [f.append(line)] for one of the line buffers. *)
Definition emit (f : field_id) (line : string) : M unit :=
  modify (fun s => set_buffers (add_line f line (buffers s)) s).

Definition emit_all (f : field_id) (lines : list string) : M unit :=
  for_each lines (emit f).

Definition warn (w : string) : M unit :=
  modify (fun s => set_warnings (warnings s ++ [w]) s).

(** [with open(path, "w") as ofile: ...]; opening and writing are taken
    to succeed. *)
Definition write_file (path : string) (lines : list string) : M unit :=
  modify (fun s => set_outputs (outputs s ++ [Written path lines]) s).

Definition copy_file (src dst : string) : M unit :=
  modify (fun s => set_outputs (outputs s ++ [Copied src dst]) s).

Definition make_dir (path : string) : M unit :=
  modify (fun s => set_outputs (outputs s ++ [MadeDir path]) s).

(** Reading a global that may not be assigned yet. *)
Definition read_var {A} (name : string) (proj : State -> option A) : M A :=
  fun s => match proj s with
           | Some v => (Done (Ok v), s)
           | None => (Done (Raise (NameError name)), s)
           end.

Definition quoted (s : string) : string :=
  PyStr.chr PyStr.dquote +:+ s +:+ PyStr.chr PyStr.dquote.

(** ** What the run reads *)

(** The project and the working directory as the script sees them.
    [proj_dirs_ok] is the outcome of the four [isdir] tests of lines
    31-34, [output_listing] is [os.listdir(output_dir)].  The listings
    of the descriptor directories are in [os.listdir] order; each entry
    comes with the root element [ET.parse] returns for it, or [None]
    when the file is not well-formed XML.  [cpp_dir] gives, for a file
    name under the cpp directory, what libclang and [readlines] return.
    The three [has_] flags say whether the headers copied at lines
    151-155 exist, and [lib_listing] is [os.listdir("lib")], or [None]
    without that directory. *)
Record Env := mkEnv
  { proj_dirs_ok : bool;
    output_dir : string;
    output_listing : list string;
    bundle_dir : list (string * option Element);
    combine_dir : list (string * option Element);
    cpp_dir : string -> option CppFile;
    has_global_h : bool;
    has_common_h : bool;
    has_vulsimlib_h : bool;
    lib_listing : option (list string) }.

Definition xml_files (dir : list (string * option Element))
  : list (string * option Element) :=
  List.filter (fun f => PyStr.endswith (fst f) ".xml") dir.

(** ** Loading the bundles (lines 54-92) *)

Definition load_member (name : string) (members : list BundleMember)
    (member : Element) : M (list BundleMember) :=
  let* m_name := lift (text_strip (find "name" member)) in
  let* m_type := lift (text_strip (find "type" member)) in
  let* m_value :=
    if is_basic m_type && truthy (find "value" member)
    then lift (text_strip (find "value" member))
    else ret "0" in
  when (negb (is_basic m_type))
    (modify (fun s =>
       set_bundle_depend_former (bundle_depend_former s ++ [(m_type, name)]) s))
  >> ret (members ++ [mkBundleMember m_name m_type m_value]).

Definition load_bundle (entry : string * option Element) : M unit :=
  match snd entry with
  | None => raise (ParseError (fst entry))
  | Some root =>
      if negb (String.eqb (tag root) "bundle")
      then
        print ("Wrong Format: bundle/" +:+ fst entry +:+
               " does not start with tag " +:+ quoted "bundle")
        >> sys_exit 1
      else
        let* name := lift (text_strip (find "name" root)) in
        print ("Loading Bundle " +:+ name +:+ " From bundle/" +:+ fst entry)
        >> let* members :=
             fold_each (findall "member" root) (load_member name) [] in
        modify (fun s => set_bundles (dict_set name members (bundles s)) s)
  end.

Definition load_bundles (env : Env) : M unit :=
  for_each (xml_files (bundle_dir env)) load_bundle.

(** ** The bundle dependency resolver (lines 94-120) *)

Module Resolver.

Definition at_key {V} (d : gmap string V) (k : string) : outcome V :=
  match d !! k with
  | Some v => Ok v
  | None => Raise (KeyError k)
  end.

(** [{e : list[str]() for e in keys}] and [{e : 0 for e in keys}] *)
Definition empty_graph (keys : list string) : gmap string (list string) :=
  foldr (fun e m => <[e := []]> m) ∅ keys.
Definition zero_indegree (keys : list string) : gmap string Z :=
  foldr (fun e m => <[e := 0]> m) ∅ keys.

(** One turn of the loop over [bundle_depend_former]. *)
Definition add_depend (keys : list string)
    (acc : gmap string (list string) * gmap string Z)
    (ab : string * string)
  : M (gmap string (list string) * gmap string Z) :=
  let '(bundle_graph, indegree) := acc in
  let '(a, b) := ab in
  if negb (in_keys a keys)
  then
    print ("WARNING: Unknown Type String " +:+ a +:+ " in Bundle " +:+ b)
    >> ret acc
  else
    let* succs := lift (at_key bundle_graph a) in
    let* n := lift (at_key indegree b) in
    ret (<[a := succs ++ [b]]> bundle_graph, <[b := n + 1]> indegree).

(** [for nei in bundle_graph[node]] of the [while] loop. *)
Fixpoint relax (neis : list string) (indegree : gmap string Z)
    (bundle_queue : list string) : outcome (gmap string Z * list string) :=
  match neis with
  | [] => Ok (indegree, bundle_queue)
  | nei :: rest =>
      let? n := at_key indegree nei in
      let indegree' := <[nei := n - 1]> indegree in
      relax rest indegree'
        (if n - 1 =? 0 then bundle_queue ++ [nei] else bundle_queue)
  end.

(** [while bundle_queue: ...], at most [fuel] turns. *)
Fixpoint kahn (fuel : nat) (bundle_graph : gmap string (list string))
    (bundle_queue bundle_sequence : list string) (indegree : gmap string Z)
  : status (list string * gmap string Z) :=
  match bundle_queue with
  | [] => Done (Ok (bundle_sequence, indegree))
  | node :: queue =>
      match fuel with
      | O => OutOfFuel
      | S fuel' =>
          match at_key bundle_graph node with
          | Ok neis =>
              match relax neis indegree queue with
              | Ok (indegree', queue') =>
                  kahn fuel' bundle_graph queue' (bundle_sequence ++ [node])
                       indegree'
              | Raise e => Done (Raise e)
              | SysExit c => Done (SysExit c)
              end
          | Raise e => Done (Raise e)
          | SysExit c => Done (SysExit c)
          end
      end
  end.

(** [[e for e in keys if p(indegree[e])]] *)
Fixpoint select (p : Z -> bool) (indegree : gmap string Z)
    (keys : list string) : outcome (list string) :=
  match keys with
  | [] => Ok []
  | e :: rest =>
      let? n := at_key indegree e in
      let? r := select p indegree rest in
      Ok (if p n then e :: r else r)
  end.

(** Lines 97-116: the graph, the in-degrees and the [while] loop; the
    result is [bundle_sequence] with the in-degrees the loop leaves. *)
Definition resolve : M (list string * gmap string Z) :=
  let* s := get in
  let keys := dict_keys (bundles s) in
  let* (bundle_graph, indegree) :=
    fold_each (bundle_depend_former s) (add_depend keys)
              (empty_graph keys, zero_indegree keys) in
  let* bundle_queue := lift (select (fun n => n =? 0) indegree keys) in
  fun st => (kahn (S (List.length keys)) bundle_graph bundle_queue []
                  indegree, st).

Definition loop_message (looped : list string) : string :=
  "Bundle Check Failed: Loop Dependency in " +:+ PyStr.join ", " looped.

(** Lines 118-120: the emission order of the bundles, or exit 1 on a
    dependency loop. *)
Definition bundle_order : M (list string) :=
  let* (bundle_sequence, indegree) := resolve in
  let* s := get in
  let keys := dict_keys (bundles s) in
  if negb (Nat.eqb (List.length bundle_sequence) (List.length keys))
  then
    let* looped := lift (select (fun n => negb (n =? 0)) indegree keys) in
    print (loop_message looped) >> sys_exit 1
  else ret bundle_sequence.

End Resolver.

(** ** bundle.h (lines 123-146) *)

Definition member_line (mem : BundleMember) : string :=
  if is_basic (bm_type mem)
  then "    " +:+ bm_type mem +:+ " " +:+ bm_name mem +:+ " = " +:+
       bm_value mem +:+ ";"
  else "    " +:+ bm_type mem +:+ " " +:+ bm_name mem +:+ ";".

Definition bundle_struct (bundles : list (string * list BundleMember))
    (bundle : string) : outcome (list string) :=
  match dict_get bundle bundles with
  | None => Raise (KeyError bundle)
  | Some members =>
      Ok (["typedef struct {"] ++ map member_line members ++
          ["} " +:+ bundle +:+ ";"; ""])
  end.

Definition bundle_h_lines (bundles : list (string * list BundleMember))
    (bundle_sequence : list string) : outcome (list string) :=
  let? structs := omap (bundle_struct bundles) bundle_sequence in
  Ok (["#pragma once"; "";
       "#include " +:+ quoted "common.h";
       "#include " +:+ quoted "global.h"; ""] ++ List.concat structs).

Definition write_bundle_h (bundle_sequence : list string) : M unit :=
  let* s := get in
  let* lines := lift (bundle_h_lines (bundles s) bundle_sequence) in
  write_file "bundle.h" lines.

(** ** Copying the support headers (lines 148-162) *)

Definition copy_or_fail (present : bool) (src dst : string) : M unit :=
  if present then copy_file src dst >> print ("copy " +:+ dst)
  else raise (FileNotFoundError src).

Definition copy_headers (env : Env) : M unit :=
  copy_or_fail (has_global_h env) "cpp/global.h" "global.h"
  >> copy_or_fail (has_common_h env) "common.h" "common.h"
  >> copy_or_fail (has_vulsimlib_h env) "vulsimlib.h" "vulsimlib.h"
  >> make_dir "lib"
  >> match lib_listing env with
     | None => raise (FileNotFoundError "lib")
     | Some listing =>
         for_each
           (List.filter (fun f => PyStr.endswith f ".h" || PyStr.endswith f ".hpp")
                        listing)
           (fun filename =>
              copy_file ("lib/" +:+ filename) ("lib/" +:+ filename)
              >> print ("copy lib/" +:+ filename))
     end.

(** ** Generating the combines (lines 164-534) *)

(** The locals of one [request] / [service] turn. *)
Record Signature := mkSignature
  { sg_arg : list Argument;
    sg_ret : list Argument;
    arg_statements : list string;
    arg_comments : list (string * string);
    arg_names : list string }.

Definition empty_signature : Signature := mkSignature [] [] [] [] [].

(** The [arg] loop (lines 273-281 and 308-316, the same text). *)
Definition parse_arg (sg : Signature) (arg : Element) : M Signature :=
  let* arg_type := lift (text_strip (find "type" arg)) in
  modify (set_v_arg_type (Some arg_type))
  >> let* arg_name := lift (text_strip (find "name" arg)) in
  modify (set_v_arg_name (Some arg_name))
  >> let arg_type' :=
       if is_basic arg_type then arg_type else arg_type +:+ " &" in
  modify (set_v_arg_type (Some arg_type'))
  >> let* comment := lift (text_strip_or "comment" arg "") in
  ret (mkSignature (sg_arg sg ++ [mkArgument arg_type arg_name])
         (sg_ret sg)
         (arg_statements sg ++ [arg_type' +:+ " " +:+ arg_name])
         (arg_comments sg ++ [(arg_name, comment)])
         (arg_names sg ++ [arg_name])).

(** The [return] loop (lines 282-288 and 317-323, the same text): the
    [Argument] it records is built from [arg_type] and [arg_name]. *)
Definition parse_return (sg : Signature) (r : Element) : M Signature :=
  let* ret_type := lift (text_strip (find "type" r)) in
  let* ret_name := lift (text_strip (find "name" r)) in
  let* arg_type := read_var "arg_type" v_arg_type in
  let* arg_name := read_var "arg_name" v_arg_name in
  let* comment := lift (text_strip_or "comment" r "") in
  ret (mkSignature (sg_arg sg)
         (sg_ret sg ++ [mkArgument arg_type arg_name])
         (arg_statements sg ++ [ret_type +:+ " * " +:+ ret_name])
         (arg_comments sg ++ [(ret_name, comment)])
         (arg_names sg ++ [ret_name])).

Definition parse_signature (e : Element) : M Signature :=
  let* sg := fold_each (findall "arg" e) parse_arg empty_signature in
  fold_each (findall "return" e) parse_return sg.

(** The doc comment lines of a request or service. *)
Definition emit_doc (e : Element) (dflt : string) (sg : Signature) : M unit :=
  emit member_field "/*"
  >> let* c := lift (text_strip_or "comment" e dflt) in
  emit member_field (" * " +:+ c)
  >> for_each (combine (arg_names sg) (arg_comments sg))
       (fun ac => emit member_field
          (" * @param " +:+ fst ac +:+ ": " +:+ PyStr.str_pair (snd ac)))
  >> emit member_field " */".

Definition set_info_with (f : Combine -> Combine) : M unit :=
  modify (fun s => set_info (f (info s)) s).

Definition do_pipein (pipein : Element) : M unit :=
  let* name := lift (text_strip (find "name" pipein)) in
  let* type := lift (text_strip (find "type" pipein)) in
  let argtype := if is_basic type then type else type +:+ " &" in
  let* comment := lift (text_strip_or "comment" pipein "") in
  emit member_field ("PipeInputPort<" +:+ type +:+ "> * _pipein_" +:+ name +:+ ";")
  >> emit member_field ("/* " +:+ comment +:+ " */")
  >> emit member_field ("bool " +:+ name +:+ "_can_pop() { return _pipein_" +:+
                        name +:+ "->can_pop(); };")
  >> emit member_field ("/* " +:+ comment +:+ " */")
  >> emit member_field (argtype +:+ " " +:+ name +:+ "_top() { return _pipein_" +:+
                        name +:+ "->top(); };")
  >> emit member_field ("/* " +:+ comment +:+ " */")
  >> emit member_field ("void " +:+ name +:+ "_pop() { _pipein_" +:+ name +:+
                        "->pop(); };")
  >> emit constructor_arguments_field
       ("PipeInputPort<" +:+ type +:+ "> * pipein_" +:+ name +:+ ";")
  >> emit constructor_field
       ("this->_pipein_" +:+ name +:+ " = arg.pipein_" +:+ name +:+ ";")
  >> print ("parsing pipein " +:+ name)
  >> set_info_with (fun i =>
       mkCombine (c_name i) (c_request i) (c_service i) (c_function i)
         (dict_set name type (c_pipein i)) (c_pipeout i) (c_stallable i)).

Definition do_pipeout (pipeout : Element) : M unit :=
  let* name := lift (text_strip (find "name" pipeout)) in
  let* type := lift (text_strip (find "type" pipeout)) in
  let argtype := if is_basic type then type else type +:+ " &" in
  let* comment := lift (text_strip_or "comment" pipeout "") in
  emit member_field ("PipeOutputPort<" +:+ type +:+ "> * _pipeout_" +:+ name +:+ ";")
  >> emit member_field ("/* " +:+ comment +:+ " */")
  >> emit member_field ("bool " +:+ name +:+ "_can_push() { return _pipeout_" +:+
                        name +:+ "->can_push(); };")
  >> emit member_field ("/* " +:+ comment +:+ " */")
  >> emit member_field ("void " +:+ name +:+ "_push(" +:+ argtype +:+
                        " value) { _pipeout_" +:+ name +:+ "->push(value); };")
  >> emit constructor_arguments_field
       ("PipeOutputPort<" +:+ type +:+ "> * pipeout_" +:+ name +:+ ";")
  >> emit constructor_field
       ("this->_pipeout_" +:+ name +:+ " = arg.pipeout_" +:+ name +:+ ";")
  >> print ("parsing pipeout " +:+ name)
  >> set_info_with (fun i =>
       mkCombine (c_name i) (c_request i) (c_service i) (c_function i)
         (c_pipein i) (dict_set name type (c_pipeout i)) (c_stallable i)).

Definition do_request (request : Element) : M unit :=
  let* name := lift (text_strip (find "name" request)) in
  let* sg := parse_signature request in
  let stmts := PyStr.join ", " (arg_statements sg) in
  emit member_field ("void (*_request_" +:+ name +:+ ")(" +:+ stmts +:+ ");")
  >> emit_doc request ("Request " +:+ name) sg
  >> emit member_field ("void " +:+ name +:+ "(" +:+ stmts +:+ ") { _request_" +:+
                        name +:+ "(" +:+ PyStr.join ", " (arg_names sg) +:+ "); };")
  >> emit constructor_arguments_field
       ("void (*request_" +:+ name +:+ ")(" +:+ stmts +:+ ");")
  >> emit constructor_field
       ("this->_request_" +:+ name +:+ " = arg.request_" +:+ name +:+ ";")
  >> print ("parsing request " +:+ name)
  >> set_info_with (fun i =>
       mkCombine (c_name i)
         (dict_set name (mkFunction name (sg_arg sg) (sg_ret sg)) (c_request i))
         (c_service i) (c_function i) (c_pipein i) (c_pipeout i)
         (c_stallable i)).

Definition do_service (env : Env) (cname : string) (service : Element)
  : M unit :=
  let* name := lift (text_strip (find "name" service)) in
  let* sg := parse_signature service in
  let stmts := PyStr.join ", " (arg_statements sg) in
  let func := mkFunction name (sg_arg sg) (sg_ret sg) in
  emit_doc service ("Service " +:+ name) sg
  >> emit member_field ("void " +:+ name +:+ "(" +:+ stmts +:+ ");")
  >> let* cppfunclines := lift (cppfunc_lines (cpp_dir env) service) in
  emit function_field
    ("void " +:+ cname +:+ "::" +:+ name +:+ "(" +:+ stmts +:+ ") {")
  >> emit_all function_field cppfunclines
  >> emit function_field "}"
  >> emit function_field ""
  >> if String.eqb (tag service) "service"
     then
       set_info_with (fun i =>
         mkCombine (c_name i) (c_request i)
           (dict_set name func (c_service i)) (c_function i) (c_pipein i)
           (c_pipeout i) (c_stallable i))
       >> print ("parsing service " +:+ name)
     else
       set_info_with (fun i =>
         mkCombine (c_name i) (c_request i) (c_service i)
           (dict_set name func (c_function i)) (c_pipein i) (c_pipeout i)
           (c_stallable i))
       >> print ("parsing function " +:+ name).

Definition do_storage (storage : Element) : M unit :=
  modify (set_v_storage (Some storage))
  >> let* name := lift (text_strip (find "name" storage)) in
  let* type := lift (text_strip (find "type" storage)) in
  let* comment := lift (text_strip_or "comment" storage "") in
  emit member_field ("/* " +:+ comment +:+ " */")
  >> (if truthy (find "value" storage)
      then
        let* value := lift (text_strip (find "value" storage)) in
        emit member_field (type +:+ " " +:+ name +:+ " = " +:+ value +:+ ";")
      else if is_basic type
      then emit member_field (type +:+ " " +:+ name +:+ " = 0;")
      else emit member_field (type +:+ " " +:+ name +:+ ";"))
  >> print ("parsing storage " +:+ name).

(** Lines 365-380.  The test of line 370 and the read of line 371 are on
    the variable [storage], not on [storagenext]. *)
Definition do_storagenext (storagenext : Element) : M unit :=
  let* name := lift (text_strip (find "name" storagenext)) in
  let* type := lift (text_strip (find "type" storagenext)) in
  let argtype := if is_basic type then type else type +:+ " &" in
  let* comment := lift (text_strip_or "comment" storagenext "") in
  let* storage := read_var "storage" v_storage in
  (if truthy (find "value" storage)
   then
     let* value := lift (text_strip (find "value" storage)) in
     emit member_field
       ("StorageNext<" +:+ type +:+ "> _storagenext_" +:+ name +:+
        " = StorageNext<" +:+ type +:+ ">(" +:+ value +:+ ");")
   else
     emit member_field
       ("StorageNext<" +:+ type +:+ "> _storagenext_" +:+ name +:+ ";"))
  >> emit member_field ("/* " +:+ comment +:+ " */")
  >> emit member_field (argtype +:+ " " +:+ name +:+
                        "_get() { return _storagenext_" +:+ name +:+ ".get(); };")
  >> emit member_field ("/* " +:+ comment +:+ " */")
  >> emit member_field ("void " +:+ name +:+ "_setnext(" +:+ argtype +:+
                        " value, uint8 priority) { _storagenext_" +:+ name +:+
                        ".setnext(value, priority); } ;")
  >> emit applytick_field ("_storagenext_" +:+ name +:+ ".apply_tick();")
  >> print ("parsing storagenext " +:+ name).

Definition do_storagetick (storagetick : Element) : M unit :=
  let* name := lift (text_strip (find "name" storagetick)) in
  let* type := lift (text_strip (find "type" storagetick)) in
  let* value := lift (text_strip_or "value" storagetick "0") in
  if negb (is_basic type) then raise AssertionError
  else
    let* comment := lift (text_strip_or "comment" storagetick "") in
    emit member_field (type +:+ " " +:+ name +:+ " = " +:+ value +:+ ";")
    >> emit applytick_field (name +:+ " = " +:+ value +:+ ";")
    >> print ("parsing storagetick " +:+ name).

Definition do_config (config : Element) : M unit :=
  let* name := lift (text_strip (find "name" config)) in
  let* value := lift (text_strip (find "value" config)) in
  let* comment := lift (text_strip_or "comment" config "") in
  emit member_field ("const int64 " +:+ name +:+ " = " +:+ value +:+ ";")
  >> print ("parsing config " +:+ name).

Definition do_init (env : Env) (init : Element) : M unit :=
  let* cppfunclines := lift (cppfunc_lines (cpp_dir env) init) in
  emit_all constructor_field cppfunclines
  >> print "parsing init".

(** Lines 414-430 *)
Definition do_ticks (env : Env) (cname : string) (root : Element) : M unit :=
  let ticks := findall "tick" root in
  when (1 <? List.length ticks)%nat
    (warn ("Combine " +:+ cname +:+
           " has multiple tick(), only the first one is used"))
  >> match ticks with
     | [] => ret tt
     | tick :: _ =>
         let* cppfunclines := lift (cppfunc_lines (cpp_dir env) tick) in
         emit_all user_tick_field cppfunclines
         >> print "parsing tick"
     end.

(** Lines 432-448 *)
Definition do_applyticks (env : Env) (cname : string) (root : Element)
  : M unit :=
  let applyticks := findall "applytick" root in
  when (1 <? List.length applyticks)%nat
    (warn ("Combine " +:+ cname +:+
           " has multiple applytick(), only the first one is used"))
  >> match applyticks with
     | [] => ret tt
     | applytick :: _ =>
         let* cppfunclines := lift (cppfunc_lines (cpp_dir env) applytick) in
         emit_all user_applytick_field cppfunclines
         >> print "parsing applytick"
     end.

(** Lines 450-458 *)
Definition do_stallable (root : Element) : M unit :=
  when (is_not_None (find "stallable" root))
    (emit member_field "bool stalled = false;"
     >> emit member_field "void (*_external_stall)();"
     >> emit member_field "void stall() { stalled = true; _external_stall(); }"
     >> emit constructor_arguments_field "void (*external_stall)();"
     >> emit constructor_field "this->_external_stall = arg.external_stall;"
     >> emit applytick_field "stalled = false;"
     >> print "parsing stallable"
     >> set_info_with (fun i =>
          mkCombine (c_name i) (c_request i) (c_service i) (c_function i)
            (c_pipein i) (c_pipeout i) true)).

Definition indent (n : nat) (line : string) : string :=
  PyStr.concat (repeat codetab n) +:+ line.

(** Lines 462-501 *)
Definition header_lines (cname comment : string)
    (f : field_id -> list string) : list string :=
  ["#pragma once"; "";
   "#include " +:+ quoted "common.h";
   "#include " +:+ quoted "global.h";
   "#include " +:+ quoted "bundle.h";
   "#include " +:+ quoted "vulsimlib.h"; "";
   "/* " +:+ comment +:+ " */";
   "class " +:+ cname +:+ " {";
   "public:";
   codetab +:+ "class ConstructorArguments {";
   codetab +:+ "public:"]
  ++ map (indent 2) (f constructor_arguments_field)
  ++ [indent 2 "int32 __dummy = 0;"; codetab +:+ "};"; "";
      codetab +:+ cname +:+ "(ConstructorArguments & arg) {"]
  ++ map (indent 2) (f constructor_field)
  ++ [codetab +:+ "}"; ""; codetab +:+ "~" +:+ cname +:+ "() {"]
  ++ map (indent 2) (f deconstructor_field)
  ++ [codetab +:+ "}"; "";
      codetab +:+ "void all_current_tick();";
      codetab +:+ "void all_current_applytick();";
      codetab +:+ "void user_current_tick();";
      codetab +:+ "void user_current_applytick();"; ""]
  ++ map (indent 1) (f member_field)
  ++ ["};"].

(** The four method definitions at the end of the .cpp file
    (lines 508-525). *)
Definition all_current_tick_lines (cname : string)
    (f : field_id -> list string) : list string :=
  ["void " +:+ cname +:+ "::all_current_tick() {"]
  ++ map (indent 1) (f tick_field)
  ++ [codetab +:+ "user_current_tick();"; "}"].

Definition all_current_applytick_lines (cname : string)
    (f : field_id -> list string) : list string :=
  ["void " +:+ cname +:+ "::all_current_applytick() {"]
  ++ map (indent 1) (f applytick_field)
  ++ [codetab +:+ "user_current_applytick();"; "}"].

Definition user_current_tick_lines (cname : string)
    (f : field_id -> list string) : list string :=
  ["void " +:+ cname +:+ "::user_current_tick() {"]
  ++ map (indent 1) (f user_tick_field) ++ ["}"].

Definition user_current_applytick_lines (cname : string)
    (f : field_id -> list string) : list string :=
  ["void " +:+ cname +:+ "::user_current_applytick() {"]
  ++ map (indent 1) (f user_applytick_field) ++ ["}"].

(** Lines 503-525 *)
Definition cpp_lines (cname : string) (f : field_id -> list string)
  : list string :=
  ["#include " +:+ quoted (cname +:+ ".h"); ""]
  ++ f function_field
  ++ all_current_tick_lines cname f
  ++ all_current_applytick_lines cname f
  ++ user_current_tick_lines cname f
  ++ user_current_applytick_lines cname f.

(** Lines 235-458: the passes over the children of a combine. *)
Definition combine_body (env : Env) (cname : string) (root : Element)
  : M unit :=
  for_each (findall "pipein" root) do_pipein
  >> for_each (findall "pipeout" root) do_pipeout
  >> for_each (findall "request" root) do_request
  >> for_each (findall "service" root ++ findall "function" root)
              (do_service env cname)
  >> for_each (findall "storage" root) do_storage
  >> for_each (findall "storagenext" root) do_storagenext
  >> for_each (findall "storagetick" root) do_storagetick
  >> for_each (findall "config" root) do_config
  >> for_each (findall "init" root) (do_init env)
  >> do_ticks env cname root
  >> do_applyticks env cname root
  >> do_stallable root.

(** One turn of the loop over the combine descriptors (lines 212-534). *)
Definition process_combine (env : Env) (entry : string * option Element)
  : M unit :=
  match snd entry with
  | None => raise (ParseError (fst entry))
  | Some root =>
      if negb (String.eqb (tag root) "combine")
      then
        print ("Wrong Format: combine/" +:+ fst entry +:+
               " does not start with tag " +:+ quoted "combine")
        >> sys_exit 1
      else
        let* cname := lift (text_strip (find "name" root)) in
        print ("Loading Combine " +:+ cname +:+ " From combine/" +:+ fst entry)
        >> modify (set_info (empty_combine cname))
        >> modify (set_buffers empty_buffers)
        >> combine_body env cname root
        >> modify (fun s => set_combines (dict_set cname (info s) (combines s)) s)
        >> let* comment :=
             lift (text_strip_or "comment" root ("Combine " +:+ cname)) in
        let* s := get in
        write_file (cname +:+ ".h") (header_lines cname comment (fields s))
        >> write_file (cname +:+ ".cpp") (cpp_lines cname (fields s))
  end.

(** ** The whole script *)

(** Lines 23-45: the directory checks. *)
Definition check_dirs (env : Env) : M unit :=
  if negb (proj_dirs_ok env)
  then print "Project Directory Error" >> sys_exit 1
  else
    match output_listing env with
    | _ :: _ =>
        print ("Output Directory " +:+ output_dir env +:+
               " is NOT EMPTY, Please Clear It")
        >> sys_exit 1
    | [] => ret tt
    end.

(** Lines 539-546 *)
Definition report (env : Env) : M unit :=
  let* s := get in
  for_each (combine (warnings s) (seq 0 (List.length (warnings s))))
    (fun wi => print ("WARN " +:+ pretty (snd wi) +:+ ": " +:+ fst wi))
  >> print "Finished"
  >> print ("Generated code in " +:+ output_dir env).

(** Everything up to the loop over the combine descriptors. *)
Definition load_phase (env : Env) : M unit :=
  check_dirs env >> load_bundles env.

Definition bundle_phase (env : Env) : M unit :=
  load_phase env
  >> let* bundle_sequence := Resolver.bundle_order in
  write_bundle_h bundle_sequence
  >> copy_headers env.

Definition combine_phase (env : Env) : M unit :=
  for_each (xml_files (combine_dir env)) (process_combine env).

Definition main (env : Env) : M unit :=
  bundle_phase env >> combine_phase env >> report env.

Definition run (env : Env) : status unit * State := main env initial_state.

(** * The vocabulary of the properties *)

(** A projection of the state that a computation never changes, however
    it ends. *)
Definition keeps {B A} (proj : State -> B) (m : M A) : Prop :=
  ∀ st, proj (snd (m st)) = proj st.

(** The successors of [a] and the number of edges into [v] in an edge
    list. *)
Definition succs_of (es : list (string * string)) (a : string) : list string :=
  map snd (filter (λ ab, ab.1 = a) es).

Definition indeg_of (es : list (string * string)) (v : string) : Z :=
  Z.of_nat (length (filter (λ ab, ab.2 = v) es)).

(** The edges that the loop of lines 100-105 does not skip. *)
Definition known (keys : list string) (es : list (string * string))
  : list (string * string) :=
  filter (λ ab, ab.1 ∈ keys) es.

Definition graph_ok (keys : list string) (g : gmap string (list string))
    (es : list (string * string)) : Prop :=
  ∀ a, g !! a = if in_keys a keys then Some (succs_of es a) else None.

Definition indeg_ok (keys : list string) (d : gmap string Z)
    (es : list (string * string)) : Prop :=
  ∀ v, d !! v = if in_keys v keys then Some (indeg_of es v) else None.

(** A state that differs from [st] in [stdout] at most. *)
Definition printed (st st' : State) : Prop :=
  ∃ out, st' = set_stdout out st.

(** How often [v] occurs in a list of neighbours. *)
Definition occ (v : string) (l : list string) : Z :=
  Z.of_nat (length (filter (λ x, x = v) l)).

(** [a] comes strictly before [b] in [l]. *)
Definition before (a b : string) (l : list string) : Prop :=
  ∃ i j : nat, l !! i = Some a ∧ l !! j = Some b ∧ (i < j)%nat.

(** The number of edges into [v] whose source is not yet in [seq]. *)
Definition pending (es : list (string * string)) (seq : list string)
    (v : string) : Z :=
  Z.of_nat (length (filter (λ ab, ab.2 = v ∧ ab.1 ∉ seq) es)).

(** The invariant of the [while] loop. *)
Record inv (keys : list string) (es : list (string * string))
    (q seq : list string) (d : gmap string Z) : Prop := mkInv
  { inv_nodup : NoDup (seq ++ q);
    inv_keys : ∀ v, v ∈ seq ++ q → v ∈ keys;
    inv_deg : ∀ v, v ∈ keys → d !! v = Some (pending es seq v);
    inv_zero : ∀ v, v ∈ keys → (v ∈ seq ++ q ↔ pending es seq v = 0);
    inv_order : ∀ a b, (a, b) ∈ es → b ∈ seq → before a b seq }.

(** The edge [a -> b] of the graph that lines 97-105 build: a pair
    recorded in [bundle_depend_former] whose first component is the name
    of a loaded bundle.  The pair was recorded when a descriptor of
    bundle [b] with a member of type [a] was read, and it stays when a
    later descriptor of the same name replaces that definition. *)
Definition depends (st : State) (a b : string) : Prop :=
  (a, b) ∈ known (dict_keys (bundles st)) (bundle_depend_former st).

(** The recorded dependencies have no cycle. *)
Definition acyclic (st : State) : Prop := Irreflexive (tc (depends st)).

(** The embeddings among the bundles as they are loaded, read off the
    dictionary [bundles]: the pair [(a, b)] for every member of the
    loaded bundle [b] whose type [a] is not primitive and is the name of
    a loaded bundle. *)
Definition embeddings (st : State) : list (string * string) :=
  flat_map
    (λ bm, map (λ m, (bm_type m, fst bm))
             (List.filter
                (λ m, negb (is_basic (bm_type m))
                      && in_keys (bm_type m) (dict_keys (bundles st)))
                (snd bm)))
    (bundles st).

Definition embeds (st : State) (a b : string) : Prop :=
  (a, b) ∈ embeddings st.

(** The bundle names that a listing of descriptors declares, in the
    order of the listing. *)
Definition declared_name (entry : string * option Element) : list string :=
  match snd entry with
  | Some root =>
      match text_strip (find "name" root) with
      | Ok name => [name]
      | _ => []
      end
  | None => []
  end.

Definition declared_names (files : list (string * option Element))
  : list string :=
  flat_map declared_name files.

(** Every recorded dependency comes from a member of a bundle as it is
    loaded. *)
Definition stale_free (st : State) : Prop :=
  ∀ a b, (a, b) ∈ bundle_depend_former st →
    ∃ ms m, (b, ms) ∈ bundles st ∧ m ∈ ms ∧ bm_type m = a
            ∧ is_basic a = false.

(** What the loader guarantees about the two globals it fills. *)
Definition well_loaded (st : State) : Prop :=
  NoDup (dict_keys (bundles st))
  ∧ ∀ a b, (a, b) ∈ bundle_depend_former st → b ∈ dict_keys (bundles st).

(** The embeddings that the loaded bundles declare are all recorded as
    dependencies. *)
Definition loaded (st : State) : Prop :=
  well_loaded st
  ∧ ∀ b ms m, (b, ms) ∈ bundles st → m ∈ ms → is_basic (bm_type m) = false →
      (bm_type m, b) ∈ bundle_depend_former st.

Definition composite (m : BundleMember) : bool := negb (is_basic (bm_type m)).












Definition multiple_tick_warning (cname : string) : string :=
  "Combine " +:+ cname +:+ " has multiple tick(), only the first one is used".

Definition multiple_applytick_warning (cname : string) : string :=
  "Combine " +:+ cname +:+
  " has multiple applytick(), only the first one is used".

(** The text of the lines of the file read that a cursor spans, by its
    line numbers. *)
Definition span (lines : list string) (n : Cursor) : string :=
  PyStr.concat
    (PyStr.list_slice lines (extent_start_line n - 1) (extent_end_line n)).

(** A cursor that cannot be taken for a definition of [func_name]: it is
    not a function declaration, or it has another name, or it has no
    file, or the lines of the file read at its line numbers hold no
    opening brace or no closing brace (a prototype on lines of its
    own). *)
Definition passed_over (lines : list string) (func_name : string)
    (n : Cursor) : Prop :=
  kind n ≠ FUNCTION_DECL
  ∨ spelling n ≠ func_name
  ∨ extent_start_file n = None
  ∨ PyStr.contains "{" (span lines n) = false
  ∨ PyStr.contains "}" (span lines n) = false.

Fixpoint all_space (s : string) : bool :=
  match s with
  | EmptyString => true
  | String c r => PyStr.is_space c && all_space r
  end.

(** Whether the loop of lines 194-209 returns at cursor [n]: a function
    declaration of that name, with a file, on whose lines both braces
    are found. *)
Definition yields (lines : list string) (func_name : string) (n : Cursor)
  : bool :=
  is_function_decl (kind n) && String.eqb (spelling n) func_name
  && is_not_None (extent_start_file n)
  && (let func_code :=
        PyStr.concat
          (PyStr.list_slice lines (extent_start_line n - 1)
                                  (extent_end_line n)) in
      negb (PyStr.find "{" func_code =? -1)
      && negb (PyStr.rfind "}" func_code =? -1)).

(** A computation that only ever appends to [outputs], however it
    ends. *)
Definition grows {A} (m : M A) : Prop :=
  ∀ st r st', m st = (r, st') → ∃ more, outputs st' = outputs st ++ more.

(** * Sample projects *)

(** [<t>x</t>] and [<t>c1 c2 ...</t>] *)
Definition leaf (t x : string) : Element := Elem t (Some x) [].

Definition node (t : string) (c : list Element) : Element := Elem t None c.

(** A project with everything in place and no descriptors. *)
Definition empty_project : Env :=
  mkEnv true "out" [] [] [] (fun _ => None) true true true (Some []).

Definition with_bundles (l : list (string * option Element)) : Env :=
  mkEnv true "out" [] l [] (fun _ => None) true true true (Some []).

Definition with_combines (l : list (string * option Element)) : Env :=
  mkEnv true "out" [] [] l (fun _ => None) true true true (Some []).

(** Bundle [BundleC] with one primitive member. *)
Definition bundle_C : Element :=
  node "bundle"
    [leaf "name" "BundleC";
     node "member" [leaf "name" "n"; leaf "type" "uint8"]].

(** Bundle [P] with members [x : int32 = 5] and [y : BundleC]. *)
Definition bundle_P : Element :=
  node "bundle"
    [leaf "name" "P";
     node "member" [leaf "name" "x"; leaf "type" "int32"; leaf "value" "5"];
     node "member" [leaf "name" "y"; leaf "type" "BundleC"]].

Definition project_P : Env :=
  with_bundles [("p.xml", Some bundle_P); ("c.xml", Some bundle_C)].

(** Bundles [A] and [B] that contain each other. *)
Definition bundle_A : Element :=
  node "bundle"
    [leaf "name" "A";
     node "member" [leaf "name" "b"; leaf "type" "B"]].

Definition bundle_B : Element :=
  node "bundle"
    [leaf "name" "B";
     node "member" [leaf "name" "a"; leaf "type" "A"]].

Definition project_AB : Env :=
  with_bundles [("a.xml", Some bundle_A); ("b.xml", Some bundle_B)].

(** A second descriptor of [A], without composite members, listed after
    the descriptors of [A] and [B]. *)
Definition bundle_A2 : Element :=
  node "bundle"
    [leaf "name" "A";
     node "member" [leaf "name" "k"; leaf "type" "int32"]].

Definition project_stale : Env :=
  with_bundles
    [("a1.xml", Some bundle_A); ("b.xml", Some bundle_B);
     ("a2.xml", Some bundle_A2)].

Definition loaded_stale : State :=
  snd (load_phase project_stale initial_state).

(** The same with a bundle [B] that has one primitive member. *)
Definition bundle_B0 : Element :=
  node "bundle"
    [leaf "name" "B";
     node "member" [leaf "name" "n"; leaf "type" "uint8"]].

Definition project_reordered : Env :=
  with_bundles
    [("a1.xml", Some bundle_A); ("b.xml", Some bundle_B0);
     ("a2.xml", Some bundle_A2)].

(** A stallable combine with a plain field, a buffered register, a tick
    register, two [tick] and two [applytick] elements. *)
Definition combine_Core : Element :=
  node "combine"
    [leaf "name" "Core";
     node "storage" [leaf "name" "s"; leaf "type" "int32"];
     node "storagenext"
       [leaf "name" "pc"; leaf "type" "uint32"; leaf "value" "5"];
     node "storagetick" [leaf "name" "hit"; leaf "type" "bool"];
     node "tick" [node "cppfunc" [leaf "code" " hit = 7; "]];
     node "tick" [node "cppfunc" [leaf "code" "hit = 9;"]];
     node "applytick" [node "cppfunc" [leaf "code" "s = s + 1;"]];
     node "applytick" [node "cppfunc" [leaf "code" "s = 0;"]];
     Elem "stallable" None []].

Definition core_entry : string * option Element :=
  ("core.xml", Some combine_Core).

Definition after_Core : State :=
  snd (process_combine empty_project core_entry initial_state).




(** A source line with its line break, as [readlines] returns it. *)
Definition line (s : string) : string := s +:+ PyStr.chr PyStr.nl.

(** [int f() { return 1; } int g() { return 2; }] on one line, as
    libclang reports it: two function declarations whose extents both
    start and end on line 1. *)
Definition two_on_a_line : CppFile :=
  mkCppFile
    [mkCursor FUNCTION_DECL "f" (Some "two.cpp") 1 1;
     mkCursor FUNCTION_DECL "g" (Some "two.cpp") 1 1]
    [line "int f() { return 1; } int g() { return 2; }"].

(** A definition whose parameter has a braced default argument. *)
Definition braced_default : CppFile :=
  mkCppFile
    [mkCursor FUNCTION_DECL "f" (Some "def.cpp") 1 1]
    [line "int f(int a = int{3}) { return a; }"].

(** A definition spread over four indented lines, after its prototype. *)
Definition indented_lines : list string :=
  [line "int g();";
   line "  int g() {";
   line "    int y = 1;";
   line "    return y;";
   line "  }"].

Definition indented_file : CppFile :=
  mkCppFile
    [mkCursor FUNCTION_DECL "g" (Some "ind.cpp") 1 1;
     mkCursor FUNCTION_DECL "g" (Some "ind.cpp") 2 5]
    indented_lines.

Definition only_file (f : CppFile) (name : string) : option CppFile := Some f.

(** Combines [X] and [Y] have the same [storagenext] element, without a
    [value]; their [storage] elements differ in whether [value] has a
    child element. *)
Definition storagenext_n : Element :=
  node "storagenext" [leaf "name" "n"; leaf "type" "int32"].

Definition combine_X : Element :=
  node "combine"
    [leaf "name" "X";
     node "storage"
       [leaf "name" "s"; leaf "type" "int32";
        Elem "value" (Some "7") [Elem "hex" None []]];
     storagenext_n].

Definition combine_Y : Element :=
  node "combine"
    [leaf "name" "Y";
     node "storage" [leaf "name" "s"; leaf "type" "int32"; leaf "value" "7"];
     storagenext_n].

(** Combine [Z] has a [storagenext] element with a value and no
    [storage] element. *)
Definition combine_Z : Element :=
  node "combine"
    [leaf "name" "Z";
     node "storagenext"
       [leaf "name" "n"; leaf "type" "int32"; leaf "value" "5"]].

Definition member_lines (root : Element) : list string :=
  fields (snd (process_combine empty_project ("x.xml", Some root)
                               initial_state)) member_field.

(** A request, and a service, with a [return] and no [arg]. *)
Definition combine_R : Element :=
  node "combine"
    [leaf "name" "R";
     node "request"
       [leaf "name" "read";
        node "return" [leaf "type" "uint32"; leaf "name" "data"]]].

Definition combine_S : Element :=
  node "combine"
    [leaf "name" "S";
     node "service"
       [leaf "name" "poll";
        node "return" [leaf "type" "bool"; leaf "name" "ready"];
        node "cppfunc" [leaf "code" "*ready = true;"]]].

(** A bundle descriptor filed among the combines. *)
Definition misfiled_project : Env :=
  with_combines [("core.xml", Some combine_Core); ("c.xml", Some bundle_C)].

(** A combine descriptor filed among the bundles. *)
Definition misfiled_bundle_project : Env :=
  with_bundles [("c.xml", Some bundle_C); ("core.xml", Some combine_Core)].

(** The line printed at line 102 for a dependency on an undefined
    type. *)
Definition unknown_type_warning (ab : string * string) : string :=
  "WARNING: Unknown Type String " +:+ fst ab +:+ " in Bundle " +:+ snd ab.

(** The dependencies that the loop of lines 100-105 skips. *)
Definition unknown (keys : list string) (es : list (string * string))
  : list (string * string) :=
  filter (λ ab, ab.1 ∉ keys) es.

(** Bundle [Q] has members of the primitive type [bool], of the bundle
    type [BundleC] and of the undefined type [Ghost]. *)
Definition bundle_Q : Element :=
  node "bundle"
    [leaf "name" "Q";
     node "member" [leaf "name" "f"; leaf "type" "bool"];
     node "member" [leaf "name" "c"; leaf "type" "BundleC"];
     node "member" [leaf "name" "g"; leaf "type" "Ghost"]].

Definition project_Q : Env :=
  with_bundles [("q.xml", Some bundle_Q); ("c.xml", Some bundle_C)].

Definition loaded_Q : State := snd (load_phase project_Q initial_state).

Definition loaded_AB : State := snd (load_phase project_AB initial_state).

(** Two bundles without composite members. *)
Definition bundle_D : Element :=
  node "bundle"
    [leaf "name" "D";
     node "member" [leaf "name" "k"; leaf "type" "int64"]].

Definition project_flat : Env :=
  with_bundles [("d.xml", Some bundle_D); ("c.xml", Some bundle_C)].

Definition loaded_flat : State := snd (load_phase project_flat initial_state).

(** The first lines of bundle.h and the lines of one struct. *)
Definition bundle_h_preamble : list string :=
  ["#pragma once"; "";
   "#include " +:+ quoted "common.h";
   "#include " +:+ quoted "global.h"; ""].

Definition struct_lines (b : string) (ms : list BundleMember) : list string :=
  ["typedef struct {"] ++ map member_line ms ++ ["} " +:+ b +:+ ";"; ""].

(** The files of [lib] that lines 159-162 copy. *)
Definition lib_headers (listing : list string) : list string :=
  List.filter (fun f => PyStr.endswith f ".h" || PyStr.endswith f ".hpp")
              listing.

(** What the bundle phase leaves in the output directory. *)
Definition support_files (bundle_lines : list string) (listing : list string)
  : list output :=
  [Written "bundle.h" bundle_lines;
   Copied "cpp/global.h" "global.h";
   Copied "common.h" "common.h";
   Copied "vulsimlib.h" "vulsimlib.h";
   MadeDir "lib"]
  ++ map (fun f => Copied ("lib/" +:+ f) ("lib/" +:+ f)) (lib_headers listing).

(** The two files written for the combine of descriptor [e]. *)
Definition combine_files (e : string * option Element) (fs : list output)
  : Prop :=
  ∃ root cname header source,
    snd e = Some root
    ∧ text_strip (find "name" root) = Ok cname
    ∧ fs = [Written (cname +:+ ".h") header;
            Written (cname +:+ ".cpp") source].

(** The warnings recorded for the combine of descriptor [e]. *)
Definition duplicate_warnings (cname : string) (root : Element)
  : list string :=
  (if (1 <? length (findall "tick" root))%nat
   then [multiple_tick_warning cname] else [])
  ++ (if (1 <? length (findall "applytick" root))%nat
      then [multiple_applytick_warning cname] else []).

Definition combine_warnings (e : string * option Element) (ws : list string)
  : Prop :=
  ∃ root cname,
    snd e = Some root
    ∧ text_strip (find "name" root) = Ok cname
    ∧ ws = duplicate_warnings cname root.

(** The line printed at line 543 for the warning [w] with index [i]. *)
Definition warn_line (i : nat) (w : string) : string :=
  "WARN " +:+ pretty i +:+ ": " +:+ w.

(** A computation that did not run to its end. *)
Definition stopped {A} (r : status A) : Prop := ∀ a, r ≠ Done (Ok a).

(** A computation that has written nothing when it stops before its
    end. *)
Definition all_or_nothing {A} (m : M A) : Prop :=
  ∀ st r st', m st = (r, st') → stopped r → outputs st' = outputs st.

(** How a parameter of type [t] is passed: primitive types by value,
    the others by reference. *)
Definition by_ref (t : string) : string :=
  if is_basic t then t else t +:+ " &".

(** The [type] and [name] children of an [arg] or [return] element. *)
Definition arg_of (e : Element) (a : Argument) : Prop :=
  text_strip (find "type" e) = Ok (a_type a)
  ∧ text_strip (find "name" e) = Ok (a_name a).

Definition named (e : Element) (n : string) : Prop :=
  text_strip (find "name" e) = Ok n.





(** What the loader records for a [member] element. *)
Definition member_of (e : Element) (m : BundleMember) : Prop :=
  text_strip (find "name" e) = Ok (bm_name m)
  ∧ text_strip (find "type" e) = Ok (bm_type m)
  ∧ (if is_basic (bm_type m) && truthy (find "value" e)
     then text_strip (find "value" e) = Ok (bm_value m)
     else bm_value m = "0").

(** A request with a composite argument and a returned value. *)
Definition request_rw : Element :=
  node "request"
    [leaf "name" "rw";
     node "arg" [leaf "type" "BundleC"; leaf "name" "addr"];
     node "return" [leaf "type" "int32"; leaf "name" "data"]].

(** A field with its default given as text. *)
Definition storage_v : Element :=
  node "storage"
    [leaf "name" "s"; leaf "type" "int32"; leaf "value" "5"].

(** A stallable combine with ports, a request and constructor code. *)
Definition combine_IO : Element :=
  node "combine"
    [leaf "name" "IO";
     node "pipein" [leaf "name" "in"; leaf "type" "int32"];
     node "pipeout" [leaf "name" "out"; leaf "type" "BundleC"];
     request_rw;
     node "init" [node "cppfunc" [leaf "code" "x = 1;"]];
     Elem "stallable" None []].

Definition io_entry : string * option Element := ("io.xml", Some combine_IO).

(** A [cppfunc] that names a function its file does not define. *)
Definition tick_missing : Element :=
  node "tick"
    [node "cppfunc"
       [leaf "file" "ind.cpp"; leaf "name" "absent"; leaf "code" "x = 2;"]].

(** * Properties *)

(** ** Reasoning about the monad *)

Lemma bind_ok {A B} (m : M A) (k : A -> M B) st b st' :
  bind m k st = (Done (Ok b), st') →
  ∃ a st1, m st = (Done (Ok a), st1) ∧ k a st1 = (Done (Ok b), st').
Proof.
  unfold bind. destruct (m st) as [[[a|e|c]|] st1]; try discriminate.
  intros H. by exists a, st1.
Qed.

Lemma bind_run {A B} (m : M A) (k : A -> M B) st a st1 :
  m st = (Done (Ok a), st1) → bind m k st = k a st1.
Proof. intros H. unfold bind. by rewrite H. Qed.

Lemma bind_stop {A B} (m : M A) (k : A -> M B) st c st1 :
  m st = (Done (SysExit c), st1) → bind m k st = (Done (SysExit c), st1).
Proof. intros H. unfold bind. by rewrite H. Qed.

Lemma lift_ok {A} (o : outcome A) st a st' :
  lift o st = (Done (Ok a), st') → o = Ok a ∧ st' = st.
Proof. unfold lift. intros H. by inversion H. Qed.

Lemma ret_ok {A} (x : A) st a st' :
  ret x st = (Done (Ok a), st') → a = x ∧ st' = st.
Proof. unfold ret. intros H. by inversion H. Qed.

Lemma modify_ok f st u st' :
  modify f st = (Done (Ok u), st') → st' = f st.
Proof. unfold modify. intros H. by inversion H. Qed.

Lemma get_ok st a st' :
  get st = (Done (Ok a), st') → a = st ∧ st' = st.
Proof. unfold get. intros H. by inversion H. Qed.

Lemma read_var_ok {A} name (proj : State -> option A) st a st' :
  read_var name proj st = (Done (Ok a), st') → proj st = Some a ∧ st' = st.
Proof.
  unfold read_var. destruct (proj st); intros H; by inversion H.
Qed.

(** Decompose a hypothesis that says a monadic computation succeeded. *)
Ltac ok_step H :=
  match type of H with
  | bind _ _ _ = (Done (Ok _), _) =>
      let a := fresh "a" in
      let s := fresh "s" in
      let H1 := fresh "Hrun" in
      apply bind_ok in H as (a & s & H1 & H); ok_step H1
  | lift _ _ = (Done (Ok _), _) =>
      let E := fresh "Hval" in apply lift_ok in H as [E ->]
  | ret _ _ = (Done (Ok _), _) =>
      let E := fresh "Hret" in
      apply ret_ok in H as [E ->]; try (rewrite E in *; clear E)
  | modify _ _ = (Done (Ok _), _) => apply modify_ok in H as ->
  | print _ _ = (Done (Ok _), _) => apply modify_ok in H as ->
  | emit _ _ _ = (Done (Ok _), _) => apply modify_ok in H as ->
  | warn _ _ = (Done (Ok _), _) => apply modify_ok in H as ->
  | write_file _ _ _ = (Done (Ok _), _) => apply modify_ok in H as ->
  | copy_file _ _ _ = (Done (Ok _), _) => apply modify_ok in H as ->
  | make_dir _ _ = (Done (Ok _), _) => apply modify_ok in H as ->
  | set_info_with _ _ = (Done (Ok _), _) => apply modify_ok in H as ->
  | get _ = (Done (Ok _), _) =>
      let E := fresh "Hget" in
      apply get_ok in H as [E ->]; try (rewrite E in *; clear E)
  | read_var _ _ _ = (Done (Ok _), _) =>
      let E := fresh "Hvar" in apply read_var_ok in H as [E ->]
  | _ => idtac
  end.

Ltac ok_inv H := repeat (progress ok_step H).

Lemma keeps_ret {B A} (proj : State -> B) (a : A) : keeps proj (ret a).
Proof. by intros st. Qed.

Lemma keeps_lift {B A} (proj : State -> B) (o : outcome A) :
  keeps proj (lift o).
Proof. by intros st. Qed.

Lemma keeps_raise {B A} (proj : State -> B) e : keeps proj (@raise A e).
Proof. by intros st. Qed.

Lemma keeps_sys_exit {B A} (proj : State -> B) c :
  keeps proj (@sys_exit A c).
Proof. by intros st. Qed.

Lemma keeps_get {B} (proj : State -> B) : keeps proj get.
Proof. by intros st. Qed.

Lemma keeps_read_var {B A} (proj : State -> B) name (p : State -> option A) :
  keeps proj (read_var name p).
Proof. intros st. unfold read_var. by destruct (p st). Qed.

Lemma keeps_modify {B} (proj : State -> B) f :
  (∀ st, proj (f st) = proj st) → keeps proj (modify f).
Proof. intros H st. apply H. Qed.

Lemma keeps_bind {B A C} (proj : State -> B) (m : M A) (k : A -> M C) :
  keeps proj m → (∀ a, keeps proj (k a)) → keeps proj (bind m k).
Proof.
  intros Hm Hk st. unfold bind. specialize (Hm st).
  destruct (m st) as [[[a|e|c]|] st1]; simpl in *; try done.
  by rewrite Hk.
Qed.

Lemma keeps_for_each {B A} (proj : State -> B) (l : list A) body :
  (∀ x, keeps proj (body x)) → keeps proj (for_each l body).
Proof.
  intros H. induction l as [|x l IH]; simpl.
  - apply keeps_ret.
  - apply keeps_bind; [apply H|by intros].
Qed.

Lemma keeps_fold_each {B A C} (proj : State -> B) (l : list A)
    (body : C -> A -> M C) :
  (∀ c x, keeps proj (body c x)) → ∀ c, keeps proj (fold_each l body c).
Proof.
  intros H. induction l as [|x l IH]; intros c; simpl.
  - apply keeps_ret.
  - apply keeps_bind; [apply H|by intros].
Qed.

Lemma keeps_when {B} (proj : State -> B) b m :
  keeps proj m → keeps proj (when b m).
Proof. intros H. destruct b; [done|apply keeps_ret]. Qed.

Lemma keeps_if {B A} (proj : State -> B) (b : bool) (m1 m2 : M A) :
  keeps proj m1 → keeps proj m2 → keeps proj (if b then m1 else m2).
Proof. by destruct b. Qed.

(** What a run, however it ends, says about a kept projection. *)
Lemma keeps_run {B A} (proj : State -> B) (m : M A) st r st' :
  keeps proj m → m st = (r, st') → proj st' = proj st.
Proof. intros H Hrun. specialize (H st). by rewrite Hrun in H. Qed.

Create HintDb keeps discriminated.
#[global] Hint Resolve keeps_ret keeps_lift keeps_raise keeps_sys_exit
  keeps_get keeps_read_var : keeps.

(** Break a computation into its primitive steps; what is left are the
    [modify] steps that have to be checked on the projection at hand. *)
Ltac keeps_steps :=
  repeat first
    [ solve [auto 1 with keeps]
    | apply keeps_bind; [|intros]
    | apply keeps_for_each; intros
    | apply keeps_fold_each; intros
    | apply keeps_when
    | apply keeps_if
    | apply keeps_modify; intros; reflexivity
    | match goal with
      | |- keeps _ (match ?x with _ => _ end) => destruct x
      end ].

(** ** The resolver *)

Module ResolverFacts.
Import Resolver.

Lemma in_keys_iff (k : string) (ks : list string) :
  in_keys k ks = true ↔ k ∈ ks.
Proof.
  unfold in_keys. rewrite existsb_exists. split.
  - intros (x & Hx & Heq). apply String.eqb_eq in Heq. subst.
    by apply list_elem_of_In.
  - intros H. exists k. split; [by apply list_elem_of_In|apply String.eqb_refl].
Qed.

Lemma in_keys_false (k : string) (ks : list string) :
  in_keys k ks = false ↔ k ∉ ks.
Proof.
  rewrite <- in_keys_iff. destruct (in_keys k ks); naive_solver.
Qed.

Lemma empty_graph_lookup (ks : list string) (a : string) :
  empty_graph ks !! a = if in_keys a ks then Some [] else None.
Proof.
  induction ks as [|k ks IH]; simpl; [done|].
  rewrite lookup_insert. case_decide as Hk.
  - subst. by rewrite String.eqb_refl.
  - rewrite IH. destruct (String.eqb a k) eqn:Heq; [|done].
    apply String.eqb_eq in Heq. congruence.
Qed.

Lemma zero_indegree_lookup (ks : list string) (a : string) :
  zero_indegree ks !! a = if in_keys a ks then Some 0 else None.
Proof.
  induction ks as [|k ks IH]; simpl; [done|].
  rewrite lookup_insert. case_decide as Hk.
  - subst. by rewrite String.eqb_refl.
  - rewrite IH. destruct (String.eqb a k) eqn:Heq; [|done].
    apply String.eqb_eq in Heq. congruence.
Qed.

Lemma succs_of_snoc es a b x :
  succs_of (es ++ [(a, b)]) x = if decide (a = x) then succs_of es x ++ [b]
                                else succs_of es x.
Proof.
  unfold succs_of. rewrite filter_app, map_app.
  case_decide as H.
  - rewrite filter_cons_True by done. done.
  - rewrite filter_cons_False by done. simpl. by rewrite app_nil_r.
Qed.

Lemma indeg_of_snoc es a b x :
  indeg_of (es ++ [(a, b)]) x = if decide (b = x) then indeg_of es x + 1
                                else indeg_of es x.
Proof.
  unfold indeg_of. rewrite filter_app, length_app.
  case_decide as H.
  - rewrite filter_cons_True by done. simpl. lia.
  - rewrite filter_cons_False by done. simpl. lia.
Qed.

Lemma printed_refl st : printed st st.
Proof. exists (stdout st). by destruct st. Qed.

(** The loop of lines 100-105 builds the graph of the known edges. *)
Lemma build_spec keys ds : ∀ es g d st,
  graph_ok keys g es → indeg_ok keys d es →
  (∀ a b, (a, b) ∈ ds → a ∈ keys → b ∈ keys) →
  ∃ g' d' st',
    fold_each ds (add_depend keys) (g, d) st = (Done (Ok (g', d')), st')
    ∧ graph_ok keys g' (es ++ known keys ds)
    ∧ indeg_ok keys d' (es ++ known keys ds)
    ∧ printed st st'.
Proof.
  induction ds as [|[a b] ds IH]; intros es g d st Hg Hd Hcl.
  - exists g, d, st. simpl. rewrite app_nil_r. eauto using printed_refl.
  - simpl. unfold bind at 1. unfold add_depend at 1.
    destruct (in_keys a keys) eqn:Ha; simpl.
    + apply in_keys_iff in Ha.
      assert (Hb : b ∈ keys) by (apply (Hcl a b); [left|done]).
      unfold bind, lift, at_key. rewrite (Hg a), (Hd b).
      apply in_keys_iff in Ha as Ha'. apply in_keys_iff in Hb as Hb'.
      rewrite Ha', Hb'. simpl.
      destruct (IH (es ++ [(a, b)])
                   (<[a:=succs_of es a ++ [b]]> g)
                   (<[b:=indeg_of es b + 1]> d) st)
        as (g' & d' & st' & Hrun & Hg' & Hd' & Hp).
      * intros x. rewrite succs_of_snoc, lookup_insert.
        case_decide; [subst; by rewrite Ha'|apply Hg].
      * intros x. rewrite indeg_of_snoc, lookup_insert.
        case_decide; [subst; by rewrite Hb'|apply Hd].
      * intros x y Hxy. apply Hcl. by right.
      * exists g', d', st'. unfold known in *.
        rewrite filter_cons_True by done.
        rewrite <- app_assoc in Hg', Hd'. simpl in *. done.
    + apply in_keys_false in Ha.
      unfold print, modify, ret. simpl.
      edestruct (IH es g d) as (g' & d' & st' & Hrun & Hg' & Hd' & Hp);
        [done..| |].
      * intros x y Hxy. apply Hcl. by right.
      * exists g', d', st'. rewrite Hrun. unfold known in *.
        rewrite filter_cons_False by done.
        split_and!; try done.
Qed.

(** [select] is a filter once every key has an in-degree. *)
Lemma select_spec (p : Z → bool) (d : gmap string Z) (f : string → Z) ks :
  (∀ k, k ∈ ks → d !! k = Some (f k)) →
  select p d ks = Ok (List.filter (λ k, p (f k)) ks).
Proof.
  induction ks as [|k ks IH]; intros H; simpl; [done|].
  unfold at_key. rewrite (H k) by left. simpl.
  rewrite IH by (intros; apply H; by right). simpl. done.
Qed.

Lemma occ_nonneg v l : 0 <= occ v l.
Proof. unfold occ. lia. Qed.

Lemma occ_cons v x l :
  occ v (x :: l) = if decide (x = v) then 1 + occ v l else occ v l.
Proof.
  unfold occ. case_decide.
  - rewrite filter_cons_True by done. simpl length. lia.
  - by rewrite filter_cons_False.
Qed.

Lemma occ_pos v l : 0 < occ v l ↔ v ∈ l.
Proof.
  induction l as [|x l IH].
  - unfold occ. simpl. rewrite elem_of_nil. lia.
  - rewrite occ_cons, elem_of_cons. pose proof (occ_nonneg v l) as H0.
    case_decide as Hx; subst.
    + split; [auto|lia].
    + rewrite IH. split; [auto|]. intros [Heq|Hin]; [congruence|done].
Qed.

(** The inner loop: every in-degree drops by the number of occurrences,
    and the nodes whose in-degree reaches zero join the queue once. *)
Lemma relax_spec neis : ∀ (d : gmap string Z) (q : list string),
  (∀ v, v ∈ neis → ∃ n, d !! v = Some n ∧ occ v neis <= n) →
  ∃ d' new,
    relax neis d q = Ok (d', q ++ new)
    ∧ (∀ v, d' !! v = (λ n, n - occ v neis) <$> d !! v)
    ∧ NoDup new
    ∧ (∀ v, v ∈ new ↔ v ∈ neis ∧ d !! v = Some (occ v neis)).
Proof.
  induction neis as [|x neis IH]; intros d q Hpre.
  - exists d, []. simpl. rewrite app_nil_r. split_and!; try done.
    + intros v. unfold occ. simpl. destruct (d !! v); simpl; f_equal; lia.
    + constructor.
    + intros v. rewrite !elem_of_nil. tauto.
  - destruct (Hpre x) as (n & Hn & Hle); [left|].
    rewrite occ_cons in Hle. rewrite decide_True in Hle by done.
    simpl. unfold at_key. rewrite Hn. simpl.
    pose proof (occ_nonneg x neis) as Hx0.
    destruct (IH (<[x:=n - 1]> d)
                 (if n - 1 =? 0 then q ++ [x] else q))
      as (d' & new & Hrun & Hd' & Hnd & Hnew).
    { intros v Hv. rewrite lookup_insert. case_decide.
      - subst. exists (n - 1). split; [done|lia].
      - destruct (Hpre v) as (m & Hm & Hlem); [by right|].
        rewrite occ_cons, decide_False in Hlem by done. eauto. }
    rewrite Hrun.
    exists d', ((if n - 1 =? 0 then [x] else []) ++ new).
    split_and!.
    + f_equal. f_equal. destruct (n - 1 =? 0); simpl;
        by rewrite <- ?app_assoc.
    + intros v. rewrite Hd', lookup_insert, occ_cons.
      case_decide; subst.
      * rewrite Hn. simpl. f_equal. lia.
      * done.
    + destruct (n - 1 =? 0) eqn:Hz; simpl; [|done].
      apply NoDup_cons. split; [|done].
      rewrite Hnew. intros [Hin _]. apply occ_pos in Hin. lia.
    + intros v. rewrite elem_of_app, Hnew, lookup_insert, occ_cons, elem_of_cons.
      destruct (decide (x = v)) as [->|Hne].
      * rewrite Hn. split.
        -- intros [Hv|[Hv Heq]].
           ++ destruct (n - 1 =? 0) eqn:Hz; [|by apply elem_of_nil in Hv].
              split; [by left|]. f_equal. lia.
           ++ split; [by left|]. inversion Heq. f_equal. lia.
        -- intros [_ Heq]. inversion Heq as [Heq'].
           destruct (decide (occ v neis = 0)) as [H0|H0].
           ++ left. replace (1 + occ v neis - 1 =? 0) with true by lia.
              by left.
           ++ right. split; [apply occ_pos; lia|f_equal; lia].
      * split.
        -- intros [Hv|[Hv Heq]].
           ++ destruct (n - 1 =? 0); [|by apply elem_of_nil in Hv].
              apply list_elem_of_singleton in Hv. congruence.
           ++ split; [by right|done].
        -- intros [[?|Hv] Heq]; [congruence|]. right. done.
Qed.

Lemma before_app a b l k : before a b l → before a b (l ++ k).
Proof.
  intros (i & j & Hi & Hj & Hlt). exists i, j.
  split_and!; [by apply lookup_app_l_Some..|done].
Qed.

Lemma before_snoc a b l : a ∈ l → before a b (l ++ [b]).
Proof.
  intros (i & Hi)%list_elem_of_lookup. exists i, (length l).
  split_and!.
  - by apply lookup_app_l_Some.
  - rewrite lookup_app_r by done. by rewrite Nat.sub_diag.
  - by eapply lookup_lt_Some.
Qed.


Lemma pending_nonneg es seq v : 0 <= pending es seq v.
Proof. unfold pending. lia. Qed.

Lemma pending_nil es v : pending es [] v = indeg_of es v.
Proof.
  unfold pending, indeg_of. f_equal. f_equal.
  apply list_filter_iff. intros [a b]. simpl.
  rewrite elem_of_nil. tauto.
Qed.

Lemma pending_split es seq u v :
  u ∉ seq →
  pending es seq v = pending es (seq ++ [u]) v + occ v (succs_of es u).
Proof.
  intros Hu. unfold pending, occ, succs_of.
  induction es as [|[a b] es IH]; [done|].
  rewrite !filter_cons. simpl fst. simpl snd.
  assert (Hiff : (a ∉ seq ++ [u]) ↔ ((a ∉ seq) ∧ (a ≠ u)))
    by (rewrite elem_of_app, list_elem_of_singleton; tauto).
  destruct (decide (a = u)) as [Hau|Hau]; simpl map; rewrite ?filter_cons;
    destruct (decide (b = v)) as [Hbv|Hbv];
    destruct (decide (a ∈ seq)) as [Has|Has];
    repeat (case_decide; try tauto); simpl length; try lia;
    subst; tauto.
Qed.

Lemma pending_zero es seq v :
  pending es seq v = 0 ↔ ∀ a, (a, v) ∈ es → a ∈ seq.
Proof.
  unfold pending. split.
  - intros H a Ha. destruct (decide (a ∈ seq)) as [|Hn]; [done|].
    assert (Hl : length (filter (λ ab, ab.2 = v ∧ ab.1 ∉ seq) es) = O) by lia.
    apply length_zero_iff_nil in Hl.
    exfalso. eapply (filter_nil_not_elem_of _ _ (a, v)); [exact Hl| |done].
    done.
  - intros H. replace (filter _ es) with (@nil (string * string)); [done|].
    symmetry. apply elem_of_nil_inv. intros [a b].
    rewrite list_elem_of_filter. simpl. intros [[-> Hn] Hin]. eauto.
Qed.

Section Kahn.
Variable keys : list string.
Variable es : list (string * string).
Variable g : gmap string (list string).
Hypothesis es_closed : ∀ a b, (a, b) ∈ es → a ∈ keys ∧ b ∈ keys.
Hypothesis g_ok : graph_ok keys g es.

Lemma elem_of_succs u v : v ∈ succs_of es u ↔ (u, v) ∈ es.
Proof.
  unfold succs_of. rewrite list_elem_of_In, in_map_iff. split.
  - intros ([a b] & <- & Hin). apply list_elem_of_In in Hin.
    apply list_elem_of_filter in Hin as [Ha Hin]. simpl in *. by subst.
  - intros H. exists (u, v). split; [done|].
    apply list_elem_of_In, list_elem_of_filter. done.
Qed.

(** One turn of the loop keeps the invariant. *)
Lemma inv_step u q seq d :
  inv keys es (u :: q) seq d →
  ∃ d' new,
    relax (succs_of es u) d q = Ok (d', q ++ new)
    ∧ inv keys es (q ++ new) (seq ++ [u]) d'.
Proof.
  intros [Hnd Hk Hdeg Hzero Hord].
  assert (Husq : (u ∉ seq) ∧ (u ∉ q) ∧ NoDup seq ∧ NoDup q
                 ∧ ∀ x, x ∈ seq → x ∉ q).
  { apply NoDup_app in Hnd as (H1 & H2 & H3).
    apply NoDup_cons in H3 as [H3 H4]. split_and!; try done.
    - intros Hin. apply (H2 u Hin). left.
    - intros x Hx Hq. apply (H2 x Hx). by right. }
  destruct Husq as (Hus & Huq & Hnds & Hndq & Hdis).
  destruct (relax_spec (succs_of es u) d q) as (d' & new & Hrun & Hd' & Hndn & Hnew).
  { intros v Hv. apply elem_of_succs in Hv.
    destruct (es_closed _ _ Hv) as [_ Hvk].
    exists (pending es seq v). split; [by apply Hdeg|].
    rewrite (pending_split es seq u v Hus).
    pose proof (pending_nonneg es (seq ++ [u]) v). lia. }
  exists d', new. split; [done|].
  assert (Hnew' : ∀ v, v ∈ new ↔
            (u, v) ∈ es ∧ pending es (seq ++ [u]) v = 0).
  { intros v. rewrite Hnew, elem_of_succs. split.
    - intros [Hin Hd]. split; [done|].
      destruct (es_closed _ _ Hin) as [_ Hvk].
      rewrite (Hdeg v Hvk) in Hd. inversion Hd as [Hd1].
      rewrite (pending_split es seq u v Hus) in Hd1. lia.
    - intros [Hin Hz]. split; [done|].
      destruct (es_closed _ _ Hin) as [_ Hvk].
      rewrite (Hdeg v Hvk). f_equal.
      rewrite (pending_split es seq u v Hus). lia. }
  assert (Hfresh : ∀ v, v ∈ new → v ∉ seq ++ u :: q).
  { intros v Hv Hin. pose proof Hv as Hv'. apply Hnew in Hv' as [Hs Hd].
    apply elem_of_succs in Hs.
    destruct (es_closed _ _ Hs) as [_ Hvk].
    apply (Hzero v Hvk) in Hin.
    rewrite (Hdeg v Hvk), Hin in Hd. inversion Hd as [Hd1].
    apply elem_of_succs, occ_pos in Hs. lia. }
  constructor.
  - rewrite <- app_assoc. simpl.
    rewrite app_comm_cons, app_assoc.
    apply NoDup_app. split_and!; [done| |done].
    intros x Hx Hxn. by apply (Hfresh x).
  - intros v. rewrite <- app_assoc. simpl.
    rewrite app_comm_cons, app_assoc, elem_of_app.
    intros [Hv|Hv]; [by apply Hk|].
    apply Hnew' in Hv as [Hv _]. by apply es_closed in Hv as [_ ?].
  - intros v Hvk. rewrite Hd', (Hdeg v Hvk). simpl. f_equal.
    rewrite (pending_split es seq u v Hus). lia.
  - intros v Hvk. rewrite <- app_assoc. simpl.
    rewrite app_comm_cons, app_assoc, elem_of_app.
    pose proof (pending_split es seq u v Hus) as Hsp.
    pose proof (pending_nonneg es (seq ++ [u]) v).
    pose proof (occ_nonneg v (succs_of es u)).
    split.
    + intros [Hv|Hv].
      * apply (Hzero v Hvk) in Hv. lia.
      * by apply Hnew' in Hv as [_ ?].
    + intros Hz. destruct (decide ((u, v) ∈ es)) as [He|He].
      * right. by apply Hnew'.
      * left. apply (Hzero v Hvk).
        assert (occ v (succs_of es u) = 0); [|lia].
        destruct (decide (occ v (succs_of es u) = 0)) as [|Hn]; [done|].
        exfalso. apply He, elem_of_succs, occ_pos. lia.
  - intros a b Hab. rewrite elem_of_app, list_elem_of_singleton.
    intros [Hb|Hb].
    + apply before_app. by apply Hord.
    + subst b. apply before_snoc.
      assert (Huk : u ∈ keys) by (apply Hk; rewrite elem_of_app; right; left).
      assert (Hpz : pending es seq u = 0).
      { apply (Hzero u Huk). rewrite elem_of_app. right. left. }
      by apply (proj1 (pending_zero es seq u) Hpz).
Qed.

(** The loop ends within [length keys] turns, with the invariant. *)
Lemma kahn_total fuel : ∀ q seq d,
  inv keys es q seq d →
  (length keys < fuel + length seq)%nat →
  ∃ seq' d',
    kahn fuel g q seq d = Done (Ok (seq', d'))
    ∧ inv keys es [] seq' d'.
Proof.
  induction fuel as [|fuel IH]; intros q seq d Hinv Hfuel.
  - exfalso.
    assert (length seq ≤ length keys)%nat; [|lia].
    apply submseteq_length, NoDup_submseteq.
    + destruct Hinv as [Hnd _ _ _ _]. by apply NoDup_app in Hnd as [? _].
    + intros x Hx. apply (inv_keys _ _ _ _ _ Hinv). rewrite elem_of_app; auto.
  - destruct q as [|u q]; [by exists seq, d|].
    simpl. unfold at_key.
    assert (Huk : u ∈ keys).
    { apply (inv_keys _ _ _ _ _ Hinv). rewrite elem_of_app. right. left. }
    rewrite (g_ok u). apply in_keys_iff in Huk as ->.
    destruct (inv_step u q seq d Hinv) as (d' & new & -> & Hinv').
    apply IH; [done|]. rewrite length_app. simpl. lia.
Qed.

End Kahn.

Lemma known_closed keys ds :
  (∀ a b, (a, b) ∈ ds → b ∈ keys) →
  ∀ a b, (a, b) ∈ known keys ds → a ∈ keys ∧ b ∈ keys.
Proof.
  intros H a b Hab. apply list_elem_of_filter in Hab as [Ha Hin].
  split; [done|by apply (H a b)].
Qed.

Lemma elem_of_List_filter {A} (p : A → bool) (l : list A) x :
  x ∈ List.filter p l ↔ p x = true ∧ x ∈ l.
Proof. rewrite !list_elem_of_In, filter_In. tauto. Qed.

Lemma NoDup_List_filter {A} (p : A → bool) (l : list A) :
  NoDup l → NoDup (List.filter p l).
Proof. rewrite !NoDup_ListNoDup. apply List.NoDup_filter. Qed.

(** [resolve] always returns, and what it returns satisfies the loop
    invariant with an empty queue. *)
Lemma resolve_spec st :
  well_loaded st →
  ∃ seq d st',
    resolve st = (Done (Ok (seq, d)), st')
    ∧ printed st st'
    ∧ inv (dict_keys (bundles st))
          (known (dict_keys (bundles st)) (bundle_depend_former st))
          [] seq d.
Proof.
  intros [Hnd Hcl]. unfold resolve.
  set (keys := dict_keys (bundles st)) in *.
  set (ds := bundle_depend_former st) in *.
  destruct (build_spec keys ds [] (empty_graph keys) (zero_indegree keys) st)
    as (g & d & st1 & Hbuild & Hg & Hd & Hp).
  { intros a. rewrite empty_graph_lookup. by destruct (in_keys a keys). }
  { intros a. rewrite zero_indegree_lookup. by destruct (in_keys a keys). }
  { intros a b Hab _. by apply (Hcl a b). }
  simpl in Hg, Hd.
  rewrite (bind_run _ _ _ _ _ (eq_refl : get st = (Done (Ok st), st))).
  fold keys ds. rewrite (bind_run _ _ _ _ _ Hbuild).
  set (es := known keys ds) in *.
  assert (Hdk : ∀ k, k ∈ keys → d !! k = Some (indeg_of es k)).
  { intros k Hk. rewrite (Hd k). by apply in_keys_iff in Hk as ->. }
  unfold bind, lift. rewrite (select_spec _ d (indeg_of es) keys Hdk).
  pose proof (known_closed keys ds Hcl) as Hes. fold es in Hes.
  destruct (kahn_total keys es g Hes Hg (S (length keys))
              (List.filter (λ k, indeg_of es k =? 0) keys) [] d)
    as (seq & d' & Hk & Hinv).
  - constructor; simpl.
    + by apply NoDup_List_filter.
    + intros v Hv. by apply elem_of_List_filter in Hv as [_ ?].
    + intros v Hv. rewrite pending_nil. by apply Hdk.
    + intros v Hv. rewrite pending_nil, elem_of_List_filter. split.
      * intros [Hz _]. lia.
      * intros Hz. split; [lia|done].
    + intros a b _ Hb. by apply elem_of_nil in Hb.
  - simpl. lia.
  - exists seq, d', st1. by rewrite Hk.
Qed.

Lemma tc_flip {A} (R : relation A) x y : tc (flip R) x y → tc R y x.
Proof.
  induction 1 as [x y H|x y z H _ IH].
  - by apply tc_once.
  - eapply tc_r; [exact IH|exact H].
Qed.

(** Without a dependency cycle the loop reaches every bundle. *)
Lemma inv_complete keys es seq d :
  (∀ a b, (a, b) ∈ es → a ∈ keys ∧ b ∈ keys) →
  inv keys es [] seq d →
  Irreflexive (tc (λ a b, (a, b) ∈ es)) →
  ∀ v, v ∈ keys → v ∈ seq.
Proof.
  intros Hes Hinv Hirr.
  set (R := λ a b : string, (a, b) ∈ es) in *.
  assert (Hacc : ∀ v, Acc R v).
  { intros v. apply (tc_finite_sn (R := flip R) v).
    - intros x Hx. apply tc_flip in Hx. by apply (Hirr x).
    - exists keys. intros y Hy. apply tc_flip in Hy.
      (* the first edge of a path out of [y] has [y] as its source *)
      inversion Hy as [? ? H|? z ? H _]; subst; by apply Hes in H as [? _]. }
  intros v. induction (Hacc v) as [v _ IH]. intros Hv.
  pose proof (inv_zero _ _ _ _ _ Hinv v Hv) as Hz.
  rewrite app_nil_r in Hz. apply Hz, pending_zero.
  intros a Ha. apply IH; [done|by apply Hes in Ha as [? _]].
Qed.

Lemma inv_length keys es seq d :
  NoDup keys → inv keys es [] seq d →
  (length seq = length keys ↔ ∀ v, v ∈ keys → v ∈ seq).
Proof.
  intros Hndk Hinv.
  pose proof (inv_nodup _ _ _ _ _ Hinv) as Hnd. rewrite app_nil_r in Hnd.
  assert (Hsub : ∀ v, v ∈ seq → v ∈ keys).
  { intros v Hv. apply (inv_keys _ _ _ _ _ Hinv). by rewrite app_nil_r. }
  split.
  - intros Hlen v Hv.
    assert (Hperm : seq ≡ₚ keys).
    { apply submseteq_length_Permutation; [by apply NoDup_submseteq|lia]. }
    by rewrite Hperm.
  - intros Hall. apply Permutation_length, NoDup_Permutation; [done..|].
    intros x. split; auto.
Qed.

End ResolverFacts.

(** ** The loader *)

Module LoaderFacts.
Import ResolverFacts.

Lemma dict_keys_set {V} k (v : V) d x :
  x ∈ dict_keys (dict_set k v d) ↔ x = k ∨ x ∈ dict_keys d.
Proof.
  induction d as [|[k' v'] d IH]; simpl.
  - rewrite list_elem_of_singleton, elem_of_nil. tauto.
  - destruct (String.eqb k' k) eqn:E; simpl.
    + apply String.eqb_eq in E. subst. rewrite !elem_of_cons. tauto.
    + rewrite !elem_of_cons, IH. tauto.
Qed.

Lemma dict_set_nodup {V} k (v : V) d :
  NoDup (dict_keys d) → NoDup (dict_keys (dict_set k v d)).
Proof.
  induction d as [|[k' v'] d IH]; simpl; intros Hnd.
  - apply NoDup_cons. split; [apply not_elem_of_nil|constructor].
  - apply NoDup_cons in Hnd as [Hnin Hnd].
    destruct (String.eqb k' k) eqn:E; simpl.
    + apply String.eqb_eq in E. subst. by apply NoDup_cons.
    + apply NoDup_cons. split; [|by apply IH].
      rewrite dict_keys_set. intros [->|?]; [|done].
      by rewrite String.eqb_refl in E.
Qed.

Lemma elem_of_dict_set {V} k (v : V) d x w :
  (x, w) ∈ dict_set k v d → (x = k ∧ w = v) ∨ (x, w) ∈ d.
Proof.
  induction d as [|[k' v'] d IH]; simpl.
  - rewrite list_elem_of_singleton. intros [= -> ->]. by left.
  - destruct (String.eqb k' k) eqn:E.
    + rewrite !elem_of_cons. intros [[= -> ->]|?]; auto.
    + rewrite !elem_of_cons. intros [?|H]; [auto|].
      destruct (IH H); auto.
Qed.

Lemma load_members_spec name ms : ∀ acc st acc' st',
  fold_each ms (load_member name) acc st = (Done (Ok acc'), st') →
  ∃ new,
    acc' = acc ++ new
    ∧ st' = set_bundle_depend_former
              (bundle_depend_former st ++
               map (λ m, (bm_type m, name)) (List.filter composite new)) st.
Proof.
  induction ms as [|m ms IH]; intros acc st acc' st' H; simpl in H.
  - ok_inv H. exists []. rewrite !app_nil_r. by destruct st.
  - apply bind_ok in H as (acc1 & st1 & Hm & H).
    apply IH in H as (new & -> & ->).
    unfold load_member in Hm. ok_inv Hm.
    pose (mem := mkBundleMember a a0 a1).
    exists (mem :: new). split; [by rewrite <- app_assoc|].
    assert (s = st).
    { destruct (is_basic a0 && truthy (find "value" m)); by ok_inv Hrun. }
    subst s. simpl List.filter. unfold composite at 2. simpl bm_type.
    destruct (is_basic a0); simpl in Hrun0 |- *.
    + by ok_inv Hrun0.
    + ok_inv Hrun0. simpl. by rewrite <- app_assoc.
Qed.

Lemma load_bundle_loaded entry st st' :
  loaded st → load_bundle entry st = (Done (Ok tt), st') → loaded st'.
Proof.
  intros [[Hnd Hcl] Hemb] H. unfold load_bundle in H.
  destruct (snd entry) as [root|]; [|discriminate].
  destruct (negb (tag root =? "bundle")%string).
  { apply bind_ok in H as (? & ? & _ & H). discriminate. }
  cbv beta iota in H. ok_inv H.
  apply load_members_spec in Hrun as (new & -> & ->).
  simpl in *. split; [split|]; simpl.
  - by apply dict_set_nodup.
  - intros x y. rewrite elem_of_app, dict_keys_set. intros [Hin|Hin].
    + right. by apply (Hcl x y).
    + left. apply list_elem_of_In, in_map_iff in Hin as (m & [= <- <-] & _).
      done.
  - intros b ms m Hb Hm Hbasic. rewrite elem_of_app.
    apply elem_of_dict_set in Hb as [[-> ->]|Hb].
    + right. apply list_elem_of_In, in_map_iff. exists m. split; [done|].
      apply filter_In. split; [by apply list_elem_of_In|].
      unfold composite. by rewrite Hbasic.
    + left. by apply (Hemb b ms m).
Qed.

Lemma load_bundles_loaded files : ∀ st st',
  loaded st → for_each files load_bundle st = (Done (Ok tt), st') →
  loaded st'.
Proof.
  induction files as [|f files IH]; intros st st' Hl H; simpl in H.
  - by ok_inv H.
  - apply bind_ok in H as ([] & st1 & Hf & H).
    eapply IH; [|exact H]. by eapply load_bundle_loaded.
Qed.

Lemma initial_loaded : loaded initial_state.
Proof.
  split; [split|]; simpl.
  - constructor.
  - intros a b H. by apply elem_of_nil in H.
  - intros b ms m H. by apply elem_of_nil in H.
Qed.

Lemma check_dirs_ok env st st' :
  check_dirs env st = (Done (Ok tt), st') → st' = st.
Proof.
  unfold check_dirs. destruct (negb (proj_dirs_ok env)).
  { intros H. apply bind_ok in H as (? & ? & _ & H). discriminate. }
  destruct (output_listing env).
  - intros H. by ok_inv H.
  - intros H. apply bind_ok in H as (? & ? & _ & H). discriminate.
Qed.

(** After a successful load phase the globals are well formed. *)
Lemma load_phase_loaded env st :
  load_phase env initial_state = (Done (Ok tt), st) → loaded st.
Proof.
  intros H. unfold load_phase in H.
  apply bind_ok in H as ([] & st1 & Hc & H).
  apply check_dirs_ok in Hc as ->.
  eapply load_bundles_loaded; [apply initial_loaded|exact H].
Qed.

End LoaderFacts.

Import ResolverFacts LoaderFacts.

(** ** The emission order of the bundles *)

Lemma printed_bundles st st' : printed st st' → bundles st' = bundles st.
Proof. by intros [out ->]. Qed.

(** [bundle_order] returns the sequence of [resolve] when it has every
    bundle. *)
Lemma bundle_order_complete st seq d st1 :
  Resolver.resolve st = (Done (Ok (seq, d)), st1) →
  printed st st1 →
  length seq = length (dict_keys (bundles st)) →
  Resolver.bundle_order st = (Done (Ok seq), st1).
Proof.
  intros Hres Hp Hlen. unfold Resolver.bundle_order.
  rewrite (bind_run _ _ _ _ _ Hres).
  rewrite (bind_run _ _ _ _ _ (eq_refl : get st1 = (Done (Ok st1), st1))).
  rewrite (printed_bundles _ _ Hp), Hlen, Nat.eqb_refl. done.
Qed.

(** ... and exits with the loop message otherwise. *)
Lemma bundle_order_loop st seq d st1 f :
  Resolver.resolve st = (Done (Ok (seq, d)), st1) →
  printed st st1 →
  length seq ≠ length (dict_keys (bundles st)) →
  (∀ k, k ∈ dict_keys (bundles st) → d !! k = Some (f k)) →
  Resolver.bundle_order st =
    (Done (SysExit 1),
     set_stdout
       (stdout st1 ++
        [Resolver.loop_message
           (List.filter (λ k, negb (f k =? 0)) (dict_keys (bundles st)))])
       st1).
Proof.
  intros Hres Hp Hlen Hd. unfold Resolver.bundle_order.
  rewrite (bind_run _ _ _ _ _ Hres).
  rewrite (bind_run _ _ _ _ _ (eq_refl : get st1 = (Done (Ok st1), st1))).
  rewrite (printed_bundles _ _ Hp).
  apply Nat.eqb_neq in Hlen. rewrite Hlen. simpl negb. cbv iota.
  unfold bind at 1. unfold lift at 1.
  rewrite (select_spec _ d f _ Hd). done.
Qed.

(** *** Recorded dependencies and loaded members *)

Lemma embeds_iff st a b :
  embeds st a b ↔
  ∃ ms m, (b, ms) ∈ bundles st ∧ m ∈ ms ∧ bm_type m = a
          ∧ is_basic a = false ∧ a ∈ dict_keys (bundles st).
Proof.
  unfold embeds, embeddings. rewrite list_elem_of_In, in_flat_map. split.
  - intros ([b' ms] & Hb & Hin).
    apply in_map_iff in Hin as (m & [= <- <-] & Hm).
    apply filter_In in Hm as [Hm Hc].
    apply andb_true_iff in Hc as [Hc Hk].
    apply negb_true_iff in Hc. apply in_keys_iff in Hk.
    exists ms, m. simpl in Hm. apply list_elem_of_In in Hb, Hm. done.
  - intros (ms & m & Hb & Hm & <- & Hc & Hk).
    exists (b, ms). split; [by apply list_elem_of_In|].
    apply in_map_iff. exists m. split; [done|].
    apply filter_In. split; [by apply list_elem_of_In|].
    rewrite Hc. simpl. by apply in_keys_iff.
Qed.

(** Every embedding among the loaded bundles is a recorded
    dependency. *)
Lemma embeds_depends st a b : loaded st → embeds st a b → depends st a b.
Proof.
  intros [_ Hemb] (ms & m & Hb & Hm & <- & Hc & Hk)%embeds_iff.
  apply list_elem_of_filter. split; [done|]. by apply (Hemb b ms m).
Qed.

Lemma dict_set_fresh {V} k (v : V) (d : list (string * V)) :
  k ∉ dict_keys d → dict_set k v d = d ++ [(k, v)].
Proof.
  induction d as [|[k' v'] d IH]; simpl; [done|]. intros Hk.
  apply not_elem_of_cons in Hk as [Hne Hk].
  destruct (String.eqb k' k) eqn:E.
  - apply String.eqb_eq in E. by subst.
  - by rewrite IH.
Qed.

Lemma load_bundle_spec e st st' :
  load_bundle e st = (Done (Ok tt), st') →
  ∃ name ms,
    declared_name e = [name]
    ∧ bundles st' = dict_set name ms (bundles st)
    ∧ bundle_depend_former st' =
        bundle_depend_former st
        ++ map (λ m, (bm_type m, name)) (List.filter composite ms).
Proof.
  intros H. unfold load_bundle in H. unfold declared_name.
  destruct (snd e) as [root|]; [|discriminate].
  destruct (tag root =? "bundle")%string; unfold negb in H; cbv iota in H.
  2: { apply bind_ok in H as (? & ? & _ & H). discriminate. }
  apply bind_ok in H as (name & s & Hname & H). ok_inv Hname.
  apply bind_ok in H as ([] & s & Hp & H). ok_inv Hp.
  apply bind_ok in H as (ms & s & Hms & H). ok_inv H.
  apply load_members_spec in Hms as (new & -> & ->).
  exists name, new. by rewrite Hval.
Qed.

(** When the descriptors declare names that are new and pairwise
    different, no definition is replaced: the dictionary grows in the
    order of the listing and no dependency goes stale. *)
Lemma load_bundles_fresh files : ∀ st st',
  for_each files load_bundle st = (Done (Ok tt), st') →
  NoDup (dict_keys (bundles st) ++ declared_names files) →
  stale_free st →
  stale_free st'
  ∧ dict_keys (bundles st') = dict_keys (bundles st) ++ declared_names files.
Proof.
  induction files as [|e files IH]; intros st st' H Hnd Hsf; simpl in H.
  - ok_inv H. unfold declared_names. simpl. by rewrite app_nil_r.
  - apply bind_ok in H as ([] & s1 & He & H).
    apply load_bundle_spec in He as (name & ms & Hname & Hb & Hd).
    unfold declared_names in *. simpl in Hnd |- *.
    rewrite Hname in Hnd |- *. simpl in Hnd |- *.
    assert (Hfresh : name ∉ dict_keys (bundles st)).
    { apply NoDup_app in Hnd as (_ & Hdis & _).
      intros Hin. apply (Hdis name Hin). left. }
    rewrite (dict_set_fresh _ _ _ Hfresh) in Hb.
    assert (Hk : dict_keys (bundles s1) = dict_keys (bundles st) ++ [name]).
    { rewrite Hb. unfold dict_keys. by rewrite map_app. }
    destruct (IH s1 st' H) as [Hsf' Hkeys].
    + by rewrite Hk, <- app_assoc.
    + intros a b Hab. rewrite Hd in Hab. rewrite Hb.
      apply elem_of_app in Hab as [Hab|Hab].
      * destruct (Hsf a b Hab) as (ms' & m & H1 & H2 & H3 & H4).
        exists ms', m. rewrite elem_of_app. auto.
      * apply list_elem_of_In, in_map_iff in Hab as (m & [= <- <-] & Hm).
        apply filter_In in Hm as [Hm Hc].
        exists ms, m. split_and!; [|by apply list_elem_of_In|done|].
        -- rewrite elem_of_app. right. left.
        -- unfold composite in Hc. by apply negb_true_iff in Hc.
    + split; [done|]. by rewrite Hkeys, Hk, <- app_assoc.
Qed.

Lemma load_phase_fresh env st :
  load_phase env initial_state = (Done (Ok tt), st) →
  NoDup (declared_names (xml_files (bundle_dir env))) →
  stale_free st
  ∧ dict_keys (bundles st) = declared_names (xml_files (bundle_dir env)).
Proof.
  intros H Hnd. unfold load_phase in H.
  apply bind_ok in H as ([] & st1 & Hc & H).
  apply check_dirs_ok in Hc as ->.
  apply (load_bundles_fresh _ _ _ H); [done|].
  intros a b Hab. by apply elem_of_nil in Hab.
Qed.

(** With pairwise different names the recorded dependencies are the
    embeddings among the loaded bundles. *)
Lemma depends_embeds env st :
  load_phase env initial_state = (Done (Ok tt), st) →
  NoDup (declared_names (xml_files (bundle_dir env))) →
  ∀ a b, depends st a b ↔ embeds st a b.
Proof.
  intros Hload Hnd a b. split.
  - intros [Ha Hab]%list_elem_of_filter. simpl in Ha.
    destruct (load_phase_fresh env st Hload Hnd) as [Hsf _].
    destruct (Hsf a b Hab) as (ms & m & H1 & H2 & H3 & H4).
    apply embeds_iff. by exists ms, m.
  - apply embeds_depends. by eapply load_phase_loaded.
Qed.

Lemma tc_impl {A} (R S : relation A) :
  (∀ a b, R a b → S a b) → ∀ a b, tc R a b → tc S a b.
Proof.
  intros HRS a b. induction 1 as [a b H|a b c H _ IH].
  - apply tc_once. by apply HRS.
  - eapply tc_l; [by apply HRS|done].
Qed.

Lemma ranked_irreflexive {A} (R : relation A) (rank : A → nat) :
  (∀ a b, R a b → (rank a < rank b)%nat) → Irreflexive (tc R).
Proof.
  intros Hrank x Hx.
  assert (H : ∀ a b, tc R a b → (rank a < rank b)%nat).
  { induction 1 as [a b H|a b c H _ IH]; [by apply Hrank|].
    apply Hrank in H. lia. }
  apply H in Hx. lia.
Qed.

(** C1, as the code has it.  When the descriptors declare pairwise
    different bundle names and no loaded bundle embeds itself, directly
    or through other bundles, the resolver returns a sequence that holds
    every bundle exactly once, and in which every bundle named by the
    type of a composite member of a bundle [b] comes strictly before
    [b]. *)
Theorem kahn_order_respects_embedding (env : Env) (st : State) :
  load_phase env initial_state = (Done (Ok tt), st) →
  NoDup (declared_names (xml_files (bundle_dir env))) →
  Irreflexive (tc (embeds st)) →
  ∃ seq st',
    Resolver.bundle_order st = (Done (Ok seq), st')
    ∧ seq ≡ₚ dict_keys (bundles st)
    ∧ NoDup seq
    ∧ ∀ b ms m,
        (b, ms) ∈ bundles st → m ∈ ms →
        is_basic (bm_type m) = false →
        bm_type m ∈ dict_keys (bundles st) →
        before (bm_type m) b seq.
Proof.
  intros Hload Hnames Hirr.
  assert (Hacyc : acyclic st).
  { intros x Hx. apply (Hirr x). eapply tc_impl; [|exact Hx].
    intros a b. by apply (depends_embeds env st Hload Hnames). }
  destruct (load_phase_loaded env st Hload) as [Hwl Hemb].
  destruct (resolve_spec st Hwl) as (seq & d & st1 & Hres & Hp & Hinv).
  pose proof Hwl as [Hnd Hcl].
  pose proof (known_closed _ _ Hcl) as Hes.
  assert (Hall : ∀ v, v ∈ dict_keys (bundles st) → v ∈ seq)
    by (by eapply inv_complete).
  assert (Hlen : length seq = length (dict_keys (bundles st)))
    by (by eapply inv_length).
  pose proof (inv_nodup _ _ _ _ _ Hinv) as Hnds. rewrite app_nil_r in Hnds.
  exists seq, st1. split_and!.
  - by eapply bundle_order_complete.
  - apply NoDup_Permutation; [done..|]. intros x. split; [|auto].
    intros Hx. apply (inv_keys _ _ _ _ _ Hinv). by rewrite app_nil_r.
  - done.
  - intros b ms m Hb Hm Hbasic Hknown.
    apply (inv_order _ _ _ _ _ Hinv).
    + apply list_elem_of_filter. split; [done|]. by apply (Hemb b ms m).
    + apply Hall. apply (Hcl (bm_type m) b). by apply (Hemb b ms m).
Qed.

Lemma ranked_acyclic (st : State) (rank : string → nat) :
  (∀ a b, depends st a b → (rank a < rank b)%nat) → acyclic st.
Proof. apply ranked_irreflexive. Qed.

Lemma project_P_embeds_acyclic :
  Irreflexive (tc (embeds (snd (load_phase project_P initial_state)))).
Proof.
  apply (ranked_irreflexive _
           (λ s, if String.eqb s "BundleC" then 0 else 1)%nat).
  intros a b. unfold embeds.
  replace (embeddings _) with [("BundleC", "P")] by (by vm_compute).
  intros [= -> ->]%list_elem_of_singleton. simpl. lia.
Qed.

Lemma NoDup_two (a b : string) : a ≠ b → NoDup [a; b].
Proof.
  intros Hne. apply NoDup_cons. split.
  - by intros ->%list_elem_of_singleton.
  - apply NoDup_singleton.
Qed.

Lemma kahn_order_respects_embedding_witness :
  ∃ seq st',
    Resolver.bundle_order (snd (load_phase project_P initial_state))
      = (Done (Ok seq), st')
    ∧ seq ≡ₚ ["P"; "BundleC"]
    ∧ NoDup seq
    ∧ ∀ b ms m,
        (b, ms) ∈ bundles (snd (load_phase project_P initial_state)) →
        m ∈ ms →
        is_basic (bm_type m) = false →
        bm_type m ∈ ["P"; "BundleC"] →
        before (bm_type m) b seq.
Proof.
  apply (kahn_order_respects_embedding project_P
           (snd (load_phase project_P initial_state))).
  - reflexivity.
  - by apply (NoDup_two "P" "BundleC").
  - exact project_P_embeds_acyclic.
Defined.

(** C1 as the claim states it fails when a bundle is declared twice:
    [A] is first declared with a member of type [B], [B] with a member
    of type [A], and then [A] again with one primitive member.  As
    loaded, [A] embeds nothing and only [B] embeds [A], so the graph of
    the loaded bundles has no cycle; but the dependency of the first
    definition of [A] is still recorded (line 90 appends, line 92
    replaces), and the run ends with the loop message and exit code
    1. *)
Lemma replaced_definition_counterexample :
  bundles loaded_stale =
    [("A", [mkBundleMember "k" "int32" "0"]);
     ("B", [mkBundleMember "a" "A" "0"])]
  ∧ embeddings loaded_stale = [("A", "B")]
  ∧ Irreflexive (tc (embeds loaded_stale))
  ∧ bundle_depend_former loaded_stale = [("B", "A"); ("A", "B")]
  ∧ fst (run project_stale) = Done (SysExit 1)
  ∧ last (stdout (snd (run project_stale)))
    = Some "Bundle Check Failed: Loop Dependency in A, B"
  ∧ outputs (snd (run project_stale)) = [].
Proof.
  split_and!; try by vm_compute.
  apply (ranked_irreflexive _ (λ s, if String.eqb s "A" then 0 else 1)%nat).
  intros a b. unfold embeds.
  replace (embeddings _) with [("A", "B")] by (by vm_compute).
  intros [= -> ->]%list_elem_of_singleton. simpl. lia.
Qed.

(** ** The cycle error *)





(** ** The line buffers of a combine *)

(** Unfold the passes down to the primitive steps. *)
Ltac keeps_passes :=
  unfold combine_body, do_pipein, do_pipeout, do_request, do_service,
    do_storage, do_storagenext, do_storagetick, do_config, do_init,
    do_ticks, do_applyticks, do_stallable, parse_signature, parse_arg,
    parse_return, emit_doc, emit_all, set_info_with, emit, print, warn;
  cbv zeta; keeps_steps.

(** Nothing is ever appended to [tick_field]. *)
Lemma combine_body_keeps_tick_field env cname root :
  keeps (λ st, fields st tick_field) (combine_body env cname root).
Proof. keeps_passes. Qed.

(** A successful turn of the combine loop, taken apart: the name, the
    state [s0] after the line buffers are reset, the state [s1] after the
    passes over the children, and the two files written from the line
    buffers of [s1]. *)
Lemma process_combine_ok env entry root st st' :
  snd entry = Some root →
  process_combine env entry st = (Done (Ok tt), st') →
  ∃ cname comment s0 s1,
    tag root = "combine"
    ∧ text_strip (find "name" root) = Ok cname
    ∧ (∀ f, fields s0 f = [])
    ∧ warnings s0 = warnings st
    ∧ outputs s0 = outputs st
    ∧ combine_body env cname root s0 = (Done (Ok tt), s1)
    ∧ outputs st' =
        outputs s1 ++
        [Written (cname +:+ ".h") (header_lines cname comment (fields s1));
         Written (cname +:+ ".cpp") (cpp_lines cname (fields s1))]
    ∧ warnings st' = warnings s1.
Proof.
  intros Hroot H. unfold process_combine in H. rewrite Hroot in H.
  destruct (tag root =? "combine")%string eqn:Htag;
    unfold negb in H; cbv iota in H.
  2: { apply bind_ok in H as (? & ? & _ & H). discriminate. }
  apply String.eqb_eq in Htag.
  apply bind_ok in H as (cname & s & Hname & H). ok_inv Hname.
  apply bind_ok in H as ([] & s & Hp & H). ok_inv Hp.
  apply bind_ok in H as ([] & s & Hi & H). ok_inv Hi.
  apply bind_ok in H as ([] & s0 & Hf & H). ok_inv Hf.
  apply bind_ok in H as ([] & s1 & Hbody & H).
  apply bind_ok in H as ([] & s2 & Hc & H). ok_inv Hc.
  apply bind_ok in H as (comment & s3 & Hcm & H). ok_inv Hcm.
  ok_inv H.
  match type of Hbody with
  | combine_body _ _ _ ?s0 = _ => exists cname, comment, s0, s1
  end.
  split_and!; try done.
  - intros f. by destruct f.
  - simpl. by rewrite <- app_assoc.
Qed.






Lemma combine_body_keeps_outputs env cname root :
  keeps outputs (combine_body env cname root).
Proof. keeps_passes. Qed.

(** C10.  Whatever the children of a combine are, the
    [all_current_tick] method written to its .cpp file has one statement,
    the call of [user_current_tick]. *)
Theorem all_current_tick_only_calls_user_tick
    (env : Env) (entry : string * option Element) (root : Element)
    (st st' : State) :
  snd entry = Some root →
  process_combine env entry st = (Done (Ok tt), st') →
  ∃ cname header pre post,
    text_strip (find "name" root) = Ok cname
    ∧ outputs st' =
        outputs st ++
        [Written (cname +:+ ".h") header;
         Written (cname +:+ ".cpp")
           (pre
            ++ ["void " +:+ cname +:+ "::all_current_tick() {";
                "    user_current_tick();";
                "}"]
            ++ ("void " +:+ cname +:+ "::all_current_applytick() {")
               :: post)].
Proof.
  intros Hroot H.
  apply (process_combine_ok _ _ _ _ _ Hroot) in H
    as (cname & comment & s0 & s1 & _ & Hname & Hf & _ & Hout & Hbody & -> & _).
  pose proof (keeps_run _ _ _ _ _ (combine_body_keeps_tick_field _ _ _) Hbody)
    as Htick.
  pose proof (keeps_run _ _ _ _ _ (combine_body_keeps_outputs _ _ _) Hbody)
    as Hout1.
  cbv beta in Htick. rewrite Hf in Htick.
  exists cname, (header_lines cname comment (fields s1)),
    (["#include " +:+ quoted (cname +:+ ".h"); ""] ++ fields s1 function_field),
    (map (indent 1) (fields s1 applytick_field)
     ++ [codetab +:+ "user_current_applytick();"; "}"]
     ++ user_current_tick_lines cname (fields s1)
     ++ user_current_applytick_lines cname (fields s1)).
  split; [done|]. rewrite Hout1, Hout. do 3 f_equal.
  unfold cpp_lines, all_current_tick_lines, all_current_applytick_lines.
  rewrite Htick. simpl. rewrite <- !app_assoc. simpl. done.
Qed.





(** ** Duplicate [tick] and [applytick] elements *)

(** Split the next pass off a successful sequence and record that it
    keeps the projection [P]. *)
Ltac kept P H Hi :=
  apply bind_ok in H as ([] & ? & Hi & H);
  match type of Hi with
  | ?m _ = _ =>
      let K := fresh "K" in
      assert (K : keeps P m) by keeps_passes;
      apply (keeps_run P _ _ _ _ K) in Hi; clear K
  end;
  cbv beta in Hi.

Lemma emit_all_spec f lines : ∀ st r st',
  emit_all f lines st = (r, st') →
  r = Done (Ok tt)
  ∧ fields st' f = fields st f ++ lines
  ∧ (∀ g, g ≠ f → fields st' g = fields st g)
  ∧ warnings st' = warnings st.
Proof.
  unfold emit_all.
  induction lines as [|l lines IH]; intros st r st' H; simpl in H.
  - inversion H; subst. rewrite app_nil_r. done.
  - unfold bind, emit at 1, modify in H.
    apply IH in H as (-> & Hf & Hg & Hw). simpl in *.
    split_and!; [done| |intros g Hne|done].
    + rewrite Hf. unfold fields. simpl.
      destruct f; simpl; by rewrite <- app_assoc.
    + rewrite (Hg g Hne). unfold fields. simpl.
      destruct g, f; try done; by destruct Hne.
Qed.

(** The [tick] pass: the warning when there are several elements, and
    the lines of the first element only. *)
Lemma do_ticks_spec env cname root st st' :
  do_ticks env cname root st = (Done (Ok tt), st') →
  warnings st' =
    warnings st ++
    (if (1 <? length (findall "tick" root))%nat
     then [multiple_tick_warning cname] else [])
  ∧ ∀ t rest, findall "tick" root = t :: rest →
      ∃ lines, cppfunc_lines (cpp_dir env) t = Ok lines
               ∧ fields st' user_tick_field =
                   fields st user_tick_field ++ lines.
Proof.
  unfold do_ticks. cbv zeta. intros H.
  apply bind_ok in H as ([] & s & Hw & H).
  assert (Hs : warnings s =
               warnings st ++
               (if (1 <? length (findall "tick" root))%nat
                then [multiple_tick_warning cname] else [])
               ∧ buffers s = buffers st).
  { destruct (1 <? length (findall "tick" root))%nat; simpl in Hw.
    - by ok_inv Hw.
    - ok_inv Hw. by rewrite app_nil_r. }
  destruct Hs as [Hsw Hsf].
  destruct (findall "tick" root) as [|t rest].
  - ok_inv H. split; [done|]. intros ? ? [=].
  - apply bind_ok in H as (lines & s1 & Hl & H). ok_inv Hl.
    apply bind_ok in H as ([] & s2 & He & H). ok_inv H.
    apply emit_all_spec in He as (_ & Hf & _ & Hw2).
    change (warnings s2 = warnings st ++
              (if (1 <? length (t :: rest))%nat
               then [multiple_tick_warning cname] else [])
            ∧ ∀ t0 rest0, t :: rest = t0 :: rest0 →
                ∃ lines0, cppfunc_lines (cpp_dir env) t0 = Ok lines0
                          ∧ fields s2 user_tick_field
                            = fields st user_tick_field ++ lines0).
    split; [by rewrite Hw2|].
    intros t' rest' [= <- <-]. exists lines. split; [done|].
    rewrite Hf. unfold fields. by rewrite Hsf.
Qed.

Lemma do_applyticks_spec env cname root st st' :
  do_applyticks env cname root st = (Done (Ok tt), st') →
  warnings st' =
    warnings st ++
    (if (1 <? length (findall "applytick" root))%nat
     then [multiple_applytick_warning cname] else [])
  ∧ fields st' user_tick_field = fields st user_tick_field
  ∧ ∀ t rest, findall "applytick" root = t :: rest →
      ∃ lines, cppfunc_lines (cpp_dir env) t = Ok lines
               ∧ fields st' user_applytick_field =
                   fields st user_applytick_field ++ lines.
Proof.
  unfold do_applyticks. cbv zeta. intros H.
  apply bind_ok in H as ([] & s & Hw & H).
  assert (Hs : warnings s =
               warnings st ++
               (if (1 <? length (findall "applytick" root))%nat
                then [multiple_applytick_warning cname] else [])
               ∧ buffers s = buffers st).
  { destruct (1 <? length (findall "applytick" root))%nat; simpl in Hw.
    - by ok_inv Hw.
    - ok_inv Hw. by rewrite app_nil_r. }
  destruct Hs as [Hsw Hsf].
  destruct (findall "applytick" root) as [|t rest].
  - ok_inv H. split_and!; [done|unfold fields; by rewrite Hsf|].
    intros ? ? [=].
  - apply bind_ok in H as (lines & s1 & Hl & H). ok_inv Hl.
    apply bind_ok in H as ([] & s2 & He & H). ok_inv H.
    apply emit_all_spec in He as (_ & Hf & Hg & Hw2).
    change (warnings s2 = warnings st ++
              (if (1 <? length (t :: rest))%nat
               then [multiple_applytick_warning cname] else [])
            ∧ fields s2 user_tick_field = fields st user_tick_field
            ∧ ∀ t0 rest0, t :: rest = t0 :: rest0 →
                ∃ lines0, cppfunc_lines (cpp_dir env) t0 = Ok lines0
                          ∧ fields s2 user_applytick_field
                            = fields st user_applytick_field ++ lines0).
    split_and!; [by rewrite Hw2|rewrite Hg by done; unfold fields;
                                 by rewrite Hsf|].
    intros t' rest' [= <- <-]. exists lines. split; [done|].
    rewrite Hf. unfold fields. by rewrite Hsf.
Qed.

(** The warnings and the two user line buffers after the passes. *)
Lemma combine_body_lifecycle env cname root s0 s1 :
  combine_body env cname root s0 = (Done (Ok tt), s1) →
  (∀ f, fields s0 f = []) →
  warnings s1 =
    warnings s0
    ++ (if (1 <? length (findall "tick" root))%nat
        then [multiple_tick_warning cname] else [])
    ++ (if (1 <? length (findall "applytick" root))%nat
        then [multiple_applytick_warning cname] else [])
  ∧ (∀ t rest, findall "tick" root = t :: rest →
       ∃ lines, cppfunc_lines (cpp_dir env) t = Ok lines
                ∧ fields s1 user_tick_field = lines)
  ∧ (∀ t rest, findall "applytick" root = t :: rest →
       ∃ lines, cppfunc_lines (cpp_dir env) t = Ok lines
                ∧ fields s1 user_applytick_field = lines).
Proof.
  intros H Hf0. unfold combine_body in H.
  pose (P := λ st : State,
          (warnings st, fields st user_tick_field,
           fields st user_applytick_field)).
  kept P H H1. kept P H H2. kept P H H3. kept P H H4. kept P H H5.
  kept P H H6. kept P H H7. kept P H H8. kept P H H9.
  apply bind_ok in H as ([] & st & Ht & H).
  apply bind_ok in H as ([] & sa & Ha & H).
  assert (Hs : P s1 = P sa).
  { eapply (keeps_run P); [|exact H]. keeps_passes. }
  assert (Hpre : P x7 = P s0) by congruence.
  pose proof (f_equal (λ p, fst (fst p)) Hs) as Hw1.
  pose proof (f_equal (λ p, snd (fst p)) Hs) as Hut1.
  pose proof (f_equal snd Hs) as Hua1.
  pose proof (f_equal (λ p, fst (fst p)) Hpre) as Hw0.
  pose proof (f_equal (λ p, snd (fst p)) Hpre) as Hut0.
  pose proof (f_equal snd Hpre) as Hua0.
  unfold P in Hw1, Hut1, Hua1, Hw0, Hut0, Hua0.
  cbn [fst snd] in Hw1, Hut1, Hua1, Hw0, Hut0, Hua0.
  assert (Hua : fields st user_applytick_field = fields x7 user_applytick_field).
  { eapply (keeps_run (λ st, fields st user_applytick_field)); [|exact Ht].
    keeps_passes. }
  apply do_ticks_spec in Ht as [Htw Htl].
  apply do_applyticks_spec in Ha as (Haw & Hat & Hal).
  split_and!.
  - rewrite Hw1, Haw, Htw, Hw0. by rewrite <- app_assoc.
  - intros t rest Hfind. destruct (Htl t rest Hfind) as (lines & Hl & Hlines).
    exists lines. split; [done|].
    rewrite Hut1, Hat, Hlines, Hut0, Hf0. done.
  - intros t rest Hfind. destruct (Hal t rest Hfind) as (lines & Hl & Hlines).
    exists lines. split; [done|].
    rewrite Hua1, Hlines, Hua, Hua0, Hf0. done.
Qed.



Lemma all_current_tick_only_calls_user_tick_witness :
  ∃ cname header pre post,
    text_strip (find "name" combine_Core) = Ok cname
    ∧ outputs after_Core =
        outputs initial_state ++
        [Written (cname +:+ ".h") header;
         Written (cname +:+ ".cpp")
           (pre
            ++ ["void " +:+ cname +:+ "::all_current_tick() {";
                "    user_current_tick();";
                "}"]
            ++ ("void " +:+ cname +:+ "::all_current_applytick() {")
               :: post)].
Proof.
  apply (all_current_tick_only_calls_user_tick empty_project core_entry
           combine_Core initial_state after_Core).
  - reflexivity.
  - by vm_compute.
Defined.




(** The files written for [Core], as a check of the model on a whole
    descriptor. *)
Example Core_cpp :
  last (outputs after_Core) =
  Some (Written "Core.cpp"
    ["#include " +:+ quoted "Core.h"; "";
     "void Core::all_current_tick() {";
     "    user_current_tick();";
     "}";
     "void Core::all_current_applytick() {";
     "    _storagenext_pc.apply_tick();";
     "    hit = 0;";
     "    stalled = false;";
     "    user_current_applytick();";
     "}";
     "void Core::user_current_tick() {";
     "    hit = 7;";
     "}";
     "void Core::user_current_applytick() {";
     "    s = s + 1;";
     "}"]).
Proof. by vm_compute. Qed.

Example Core_warnings :
  warnings after_Core =
  ["Combine Core has multiple tick(), only the first one is used";
   "Combine Core has multiple applytick(), only the first one is used"].
Proof. by vm_compute. Qed.

(** ** The function-body extractor *)

Module PyStrFacts.
Import PyStr.

Lemma app_empty (s : string) : EmptyString +:+ s = s.
Proof. reflexivity. Qed.

Lemma app_String (c : ascii) (p s : string) :
  String c p +:+ s = String c (p +:+ s).
Proof. reflexivity. Qed.

Lemma index_of_lt c s i : index_of c s = Some i → (i < String.length s)%nat.
Proof.
  revert i. induction s as [|d s IH]; intros i; simpl; [done|].
  destruct (Ascii.eqb c d).
  - intros [= <-]. lia.
  - destruct (index_of c s) as [k|]; [|done].
    intros [= <-]. specialize (IH k eq_refl). lia.
Qed.

Lemma rindex_of_lt c s i : rindex_of c s = Some i → (i < String.length s)%nat.
Proof.
  revert i. induction s as [|d s IH]; intros i; simpl; [done|].
  destruct (rindex_of c s) as [k|].
  - intros [= <-]. specialize (IH k eq_refl). lia.
  - destruct (Ascii.eqb c d); [|done]. intros [= <-]. lia.
Qed.

Lemma contains_index_of c s : contains c s = true ↔ is_Some (index_of c s).
Proof.
  induction s as [|d s IH]; simpl.
  - split; [done|]. by intros [? ?].
  - destruct (Ascii.eqb c d); simpl; [by split; eauto|].
    rewrite IH. destruct (index_of c s); split; eauto;
      intros [? ?]; done.
Qed.

Lemma contains_rindex_of c s : contains c s = true ↔ is_Some (rindex_of c s).
Proof.
  induction s as [|d s IH]; simpl.
  - split; [done|]. by intros [? ?].
  - destruct (rindex_of c s) as [k|].
    + rewrite orb_true_iff, IH. split; eauto.
    + destruct (Ascii.eqb c d); simpl; [by split; eauto|].
      rewrite IH. split; intros [? ?]; done.
Qed.

Lemma index_of_app_l c p s :
  contains c p = false →
  index_of c (p +:+ s) = (λ i, String.length p + i)%nat <$> index_of c s.
Proof.
  induction p as [|d p IH]; rewrite ?app_empty, ?app_String; simpl.
  - intros _. by destruct (index_of c s).
  - intros H. apply orb_false_iff in H as [-> H]. rewrite (IH H).
    by destruct (index_of c s).
Qed.

Lemma index_of_app_r c s q i :
  index_of c s = Some i → index_of c (s +:+ q) = Some i.
Proof.
  revert i. induction s as [|d s IH]; intros i; [done|].
  rewrite app_String. simpl.
  destruct (Ascii.eqb c d); [done|].
  destruct (index_of c s) as [k|]; [|done].
  intros [= <-]. by rewrite (IH k eq_refl).
Qed.

Lemma rindex_of_app_r c s q :
  contains c q = false → rindex_of c (s +:+ q) = rindex_of c s.
Proof.
  intros Hq. induction s as [|d s IH]; rewrite ?app_empty, ?app_String; simpl.
  - destruct (rindex_of c q) eqn:E; [|done].
    assert (contains c q = true)
      by (apply contains_rindex_of; rewrite E; eauto).
    congruence.
  - by rewrite IH.
Qed.

Lemma rindex_of_app_l c p s j :
  rindex_of c s = Some j →
  rindex_of c (p +:+ s) = Some (String.length p + j)%nat.
Proof.
  intros H. induction p as [|d p IH]; rewrite ?app_empty, ?app_String; simpl;
    [done|]. by rewrite IH.
Qed.

Lemma substring_zero n s : substring n 0 s = EmptyString.
Proof.
  revert n. induction s as [|d s IH]; intros [|n]; simpl; auto.
Qed.

Lemma substring_app_l p a n s :
  substring (String.length p + a) n (p +:+ s) = substring a n s.
Proof.
  induction p as [|d p IH]; rewrite ?app_empty, ?app_String; simpl;
    [done|apply IH].
Qed.

Lemma substring_app_r s q : ∀ a n,
  (a + n ≤ String.length s)%nat →
  substring a n (s +:+ q) = substring a n s.
Proof.
  induction s as [|d s IH]; intros a n H;
    rewrite ?app_empty, ?app_String; simpl in *.
  - assert (a = O) by lia. assert (n = O) by lia. subst.
    by rewrite substring_zero.
  - destruct a as [|a].
    + destruct n as [|n]; [done|]. f_equal. apply (IH O n). lia.
    + apply IH. lia.
Qed.

Lemma length_app_string (s t : string) :
  String.length (s +:+ t) = (String.length s + String.length t)%nat.
Proof.
  induction s as [|d s IH]; rewrite ?app_empty, ?app_String; simpl;
    [done|by rewrite IH].
Qed.

Lemma slice_bound_id len x : 0 <= x <= len → slice_bound len x = x.
Proof.
  intros H. unfold slice_bound.
  destruct (x <? 0) eqn:E; [lia|]. lia.
Qed.

(** A slice of the middle part of [p ++ d ++ q], taken in the whole. *)
Lemma slice_middle p d q a b :
  0 <= a <= Z.of_nat (String.length d) →
  0 <= b <= Z.of_nat (String.length d) →
  slice (p +:+ d +:+ q)
        (Z.of_nat (String.length p) + a) (Z.of_nat (String.length p) + b)
  = slice d a b.
Proof.
  intros Ha Hb. unfold slice.
  rewrite !length_app_string, !Nat2Z.inj_add.
  rewrite !slice_bound_id by lia.
  replace (Z.to_nat (Z.of_nat (String.length p) + a))
    with (String.length p + Z.to_nat a)%nat by lia.
  replace (Z.of_nat (String.length p) + b - (Z.of_nat (String.length p) + a))
    with (b - a) by lia.
  rewrite substring_app_l. apply substring_app_r. lia.
Qed.

Lemma is_space_not_brace c : is_space c = true → Ascii.eqb "{" c = false.
Proof.
  intros H. destruct (Ascii.eqb_spec "{" c) as [<-|]; [|done].
  by vm_compute in H.
Qed.

Lemma all_space_no_brace s : all_space s = true → contains "{" s = false.
Proof.
  induction s as [|c s IH]; [done|]. intros H.
  change (is_space c && all_space s = true) in H.
  apply andb_true_iff in H as [Hc Hs].
  change (Ascii.eqb "{" c || contains "{" s = false).
  by rewrite (is_space_not_brace c Hc), (IH Hs).
Qed.

End PyStrFacts.

(** Cursors at which the loop does not return are passed over. *)
Lemma extract_from_skip lines func_name pre rest :
  Forall (λ n, yields lines func_name n = false) pre →
  extract_from lines func_name (pre ++ rest)
  = extract_from lines func_name rest.
Proof.
  induction 1 as [|n pre Hn _ IH]; [done|].
  rewrite <- app_comm_cons. cbn [extract_from]. unfold yields in Hn.
  destruct (is_function_decl (kind n) && String.eqb (spelling n) func_name);
    [|done].
  destruct (extent_start_file n); [|done].
  cbn [is_not_None andb] in Hn. cbv zeta in Hn |- *. by rewrite Hn.
Qed.

Lemma passed_over_yields lines func_name n :
  passed_over lines func_name n → yields lines func_name n = false.
Proof.
  unfold passed_over, yields. fold (span lines n). cbv zeta.
  intros [H|[H|[H|[H|H]]]].
  - by destruct (kind n).
  - apply String.eqb_neq in H. rewrite H. by rewrite andb_false_r.
  - rewrite H. simpl. by rewrite andb_false_r.
  - rewrite andb_false_iff. right. rewrite andb_false_iff. left.
    unfold PyStr.find.
    destruct (PyStr.index_of "{" (span lines n)) as [i|] eqn:E; [|done].
    assert (PyStr.contains "{" (span lines n) = true)
      by (apply PyStrFacts.contains_index_of; rewrite E; eauto).
    congruence.
  - rewrite andb_false_iff. right. rewrite andb_false_iff. right.
    unfold PyStr.rfind.
    destruct (PyStr.rindex_of "}" (span lines n)) as [i|] eqn:E; [|done].
    assert (PyStr.contains "}" (span lines n) = true)
      by (apply PyStrFacts.contains_rindex_of; rewrite E; eauto).
    congruence.
Qed.

(** The text that the loop cuts out at a cursor whose lines read
    [P ++ D ++ Q], where the first opening and the last closing brace
    lie in [D]. *)
Lemma extract_from_own_lines lines func_name c rest (P D Q : string) :
  kind c = FUNCTION_DECL →
  spelling c = func_name →
  is_Some (extent_start_file c) →
  span lines c = P +:+ D +:+ Q →
  PyStr.contains "{" P = false →
  PyStr.contains "}" Q = false →
  PyStr.contains "{" D = true →
  PyStr.contains "}" D = true →
  extract_from lines func_name (c :: rest)
  = PyStr.strip
      (PyStr.slice D (PyStr.find "{" D + 1) (PyStr.rfind "}" D)).
Proof.
  intros Hk Hs [file Hf] HJ HP HQ HD1 HD2. unfold span in HJ. simpl.
  rewrite Hk, Hs, String.eqb_refl, Hf, HJ. simpl.
  apply PyStrFacts.contains_index_of in HD1 as [i Hi].
  apply PyStrFacts.contains_rindex_of in HD2 as [j Hj].
  pose proof (PyStrFacts.index_of_lt _ _ _ Hi) as Hil.
  pose proof (PyStrFacts.rindex_of_lt _ _ _ Hj) as Hjl.
  assert (Hfind : PyStr.find "{" (P +:+ D +:+ Q)
                  = Z.of_nat (String.length P) + Z.of_nat i).
  { unfold PyStr.find.
    rewrite (PyStrFacts.index_of_app_l _ _ _ HP).
    rewrite (PyStrFacts.index_of_app_r _ _ Q _ Hi). simpl. lia. }
  assert (Hrfind : PyStr.rfind "}" (P +:+ D +:+ Q)
                   = Z.of_nat (String.length P) + Z.of_nat j).
  { unfold PyStr.rfind.
    rewrite (PyStrFacts.rindex_of_app_l _ P (D +:+ Q) j).
    - lia.
    - by rewrite (PyStrFacts.rindex_of_app_r _ _ _ HQ). }
  rewrite Hfind, Hrfind.
  replace (Z.of_nat (String.length P) + Z.of_nat i =? -1) with false by lia.
  replace (Z.of_nat (String.length P) + Z.of_nat j =? -1) with false by lia.
  simpl. unfold PyStr.find, PyStr.rfind.
  rewrite Hi, Hj. f_equal.
  replace (Z.of_nat (String.length P) + Z.of_nat i + 1)
    with (Z.of_nat (String.length P) + (Z.of_nat i + 1)) by lia.
  apply PyStrFacts.slice_middle; lia.
Qed.

Lemma append_empty_r (s : string) : s +:+ EmptyString = s.
Proof.
  induction s as [|c s IH]; [done|].
  rewrite PyStrFacts.app_String. by rewrite IH.
Qed.

Lemma append_assoc_s (a b c : string) : (a +:+ b) +:+ c = a +:+ b +:+ c.
Proof.
  induction a as [|x a IH]; [done|].
  rewrite !PyStrFacts.app_String. by rewrite IH.
Qed.

Lemma contains_app c (p s : string) :
  PyStr.contains c (p +:+ s) = PyStr.contains c p || PyStr.contains c s.
Proof.
  induction p as [|d p IH]; [done|].
  rewrite PyStrFacts.app_String. simpl. rewrite IH. by rewrite orb_assoc.
Qed.

Lemma substring_prefix (b q : string) :
  substring 0 (String.length b) (b +:+ q) = b.
Proof.
  induction b as [|x b IH].
  - rewrite PyStrFacts.app_empty. apply PyStrFacts.substring_zero.
  - rewrite PyStrFacts.app_String. simpl. by rewrite IH.
Qed.

(** What stands between the braces of [{B}]. *)
Lemma slice_braces (B : string) :
  PyStr.slice ("{" +:+ B +:+ "}")
    (PyStr.find "{" ("{" +:+ B +:+ "}") + 1)
    (PyStr.rfind "}" ("{" +:+ B +:+ "}"))
  = B.
Proof.
  rewrite PyStrFacts.app_String, PyStrFacts.app_empty.
  assert (Hfind : PyStr.find "{" (String "{" (B +:+ "}")) = 0) by done.
  assert (Hrfind : PyStr.rfind "}" (String "{" (B +:+ "}"))
                   = Z.of_nat (S (String.length B))).
  { unfold PyStr.rfind. simpl.
    rewrite (PyStrFacts.rindex_of_app_l "}" B "}" 0 eq_refl).
    f_equal. lia. }
  rewrite Hfind, Hrfind. unfold PyStr.slice. cbv zeta.
  assert (Hlen : String.length (String "{" (B +:+ "}"))
                 = S (S (String.length B))).
  { simpl. rewrite PyStrFacts.length_app_string. simpl. lia. }
  rewrite Hlen.
  rewrite !PyStrFacts.slice_bound_id by lia.
  replace (Z.to_nat (0 + 1)) with 1%nat by lia.
  replace (Z.to_nat (Z.of_nat (S (String.length B)) - (0 + 1)))
    with (String.length B) by lia.
  simpl. apply substring_prefix.
Qed.

(** The body of a definition whose lines read [X{B}Q], with no opening
    brace in [X] and no closing brace in [Q]. *)
Lemma extract_from_body lines func_name c rest (X B Q : string) :
  kind c = FUNCTION_DECL →
  spelling c = func_name →
  is_Some (extent_start_file c) →
  span lines c = X +:+ "{" +:+ B +:+ "}" +:+ Q →
  PyStr.contains "{" X = false →
  PyStr.contains "}" Q = false →
  extract_from lines func_name (c :: rest) = PyStr.strip B.
Proof.
  intros Hk Hs Hf HJ HX HQ.
  rewrite (extract_from_own_lines lines func_name c rest
             X ("{" +:+ B +:+ "}") Q); try done.
  - by rewrite slice_braces.
  - rewrite HJ. f_equal. by rewrite !append_assoc_s.
  - rewrite !contains_app. simpl. by rewrite orb_true_r.
Qed.

(** C5, as the code has it.  (1) Let [c] be a top-level function
    declaration with the requested name that lies in the file read,
    such that every cursor before it is passed over: it is not a
    function declaration of that name with a file, or the lines of the
    file read at its line numbers hold no opening or no closing brace
    (a prototype on lines of its own).  Let the lines that [c] spans
    read [X{B}Q], where [X] has no opening brace, so that the brace
    after [X] opens the body, and [Q] has no closing brace, so that
    the brace before [Q] closes it.  Then the extractor returns the
    body [B], trimmed and otherwise verbatim.  (2) For
    [void f(int x) { return x+1; }] on a line of its own it returns
    [return x+1;], whatever white space the line starts with. *)
Theorem extractor_returns_trimmed_body :
  (∀ (cpp_dir : string → option CppFile) (filename func_name : string)
     (lines : list string) (pre rest : list Cursor) (c : Cursor)
     (X B Q : string),
     cpp_dir filename = Some (mkCppFile (pre ++ c :: rest) lines) →
     Forall (passed_over lines func_name) pre →
     kind c = FUNCTION_DECL →
     spelling c = func_name →
     extent_start_file c = Some filename →
     span lines c = X +:+ "{" +:+ B +:+ "}" +:+ Q →
     PyStr.contains "{" X = false →
     PyStr.contains "}" Q = false →
     extract_cpp_function_body cpp_dir filename func_name
       = Ok (PyStr.strip B))
  ∧ (∀ indent : string,
       all_space indent = true →
       extract_cpp_function_body
         (only_file
            (mkCppFile [mkCursor FUNCTION_DECL "f" (Some "f.cpp") 1 1]
                       [line (indent +:+ "void f(int x) { return x+1; }")]))
         "f.cpp" "f"
       = Ok "return x+1;").
Proof.
  split.
  - intros cpp_dir filename func_name lines pre rest c X B Q
      Hfile Hpre Hk Hs Hf HJ HX HQ.
    unfold extract_cpp_function_body. rewrite Hfile.
    cbn [file_lines tu_children]. f_equal.
    rewrite (extract_from_skip _ _ pre).
    + by apply (extract_from_body _ _ _ _ X B Q).
    + eapply Forall_impl; [exact Hpre|].
      intros n. apply passed_over_yields.
  - intros indent Hws.
    unfold extract_cpp_function_body, only_file.
    cbn [file_lines tu_children]. f_equal.
    rewrite (extract_from_body _ "f" _ []
               (indent +:+ "void f(int x) ") " return x+1; "
               (PyStr.chr PyStr.nl)); try done.
    + unfold span, PyStr.list_slice. simpl. unfold line.
      rewrite append_empty_r, !append_assoc_s. done.
    + rewrite contains_app.
      by rewrite (PyStrFacts.all_space_no_brace indent Hws).
Qed.

Lemma extractor_returns_trimmed_body_witness :
  extract_cpp_function_body (only_file indented_file) "ind.cpp" "g"
  = Ok (PyStr.strip
          (line EmptyString +:+ line "    int y = 1;" +:+
           line "    return y;" +:+ "  "))
  ∧ PyStr.strip
      (line EmptyString +:+ line "    int y = 1;" +:+
       line "    return y;" +:+ "  ")
    = line "int y = 1;" +:+ "    return y;".
Proof.
  split; [|by vm_compute].
  apply (proj1 extractor_returns_trimmed_body
           (only_file indented_file) "ind.cpp" "g" indented_lines
           [mkCursor FUNCTION_DECL "g" (Some "ind.cpp") 1 1] []
           (mkCursor FUNCTION_DECL "g" (Some "ind.cpp") 2 5)
           "  int g() "
           (line EmptyString +:+ line "    int y = 1;" +:+
            line "    return y;" +:+ "  ")
           (PyStr.chr PyStr.nl)).
  - reflexivity.
  - constructor; [|constructor].
    right. right. right. left. by vm_compute.
  - reflexivity.
  - reflexivity.
  - reflexivity.
  - by vm_compute.
  - reflexivity.
  - reflexivity.
Defined.

(** C5 as the claim states it fails when a declaration shares its last
    line with another one: the line reads [int f() {B} int g() ...]
    with the body [B] of [f], and the extractor, which works on whole
    lines, returns for [f] everything up to the last closing brace of
    the line. *)
Lemma extractor_whole_lines_counterexample :
  tu_children two_on_a_line =
    [mkCursor FUNCTION_DECL "f" (Some "two.cpp") 1 1;
     mkCursor FUNCTION_DECL "g" (Some "two.cpp") 1 1]
  ∧ PyStr.concat (file_lines two_on_a_line)
    = "int f() " +:+ "{" +:+ " return 1; " +:+ "}" +:+
      line " int g() { return 2; }"
  ∧ PyStr.strip " return 1; " = "return 1;"
  ∧ extract_cpp_function_body (only_file two_on_a_line) "two.cpp" "f"
    = Ok "return 1; } int g() { return 2;"
  ∧ extract_cpp_function_body (only_file two_on_a_line) "two.cpp" "f"
    ≠ Ok "return 1;".
Proof. split_and!; by vm_compute. Qed.

(** Why [X] must hold no opening brace: with a braced default argument
    the extractor starts at the brace of the argument. *)
Example braced_default_argument :
  PyStr.concat (file_lines braced_default)
  = "int f(int a = int{3}) " +:+ "{" +:+ " return a; " +:+ "}" +:+
    line EmptyString
  ∧ extract_cpp_function_body (only_file braced_default) "def.cpp" "f"
    = Ok "3}) { return a;".
Proof. split; by vm_compute. Qed.

(** Why the declaration must lie in the file read: the cursor of a
    prototype in an included header is taken at its line numbers in the
    file read. *)
Example header_prototype :
  extract_cpp_function_body
    (only_file
       (mkCppFile
          [mkCursor FUNCTION_DECL "f" (Some "f.h") 1 1;
           mkCursor FUNCTION_DECL "f" (Some "f.cpp") 2 2]
          [line "struct S { int a; };";
           line "int f() { return 1; }"]))
    "f.cpp" "f"
  = Ok "int a;".
Proof. by vm_compute. Qed.

(** ** Defaults and unassigned names *)

(** An element with text and no child elements is false. *)
Lemma truthy_leaf (t : string) (x : option string) :
  truthy (Some (Elem t x [])) = false.
Proof. reflexivity. Qed.

(** A [value] element without child elements is never read: the member
    is recorded with the value 0. *)
Lemma value_without_children_is_ignored name members member x st r st' :
  find "value" member = Some (Elem "value" x []) →
  load_member name members member st = (Done (Ok r), st') →
  ∃ m, r = members ++ [m] ∧ bm_value m = "0".
Proof.
  intros Hv H. unfold load_member in H.
  apply bind_ok in H as (m_name & s1 & _ & H).
  apply bind_ok in H as (m_type & s2 & _ & H).
  rewrite Hv, truthy_leaf, andb_false_r in H.
  apply bind_ok in H as (m_value & s3 & Hval & H). ok_inv Hval.
  apply bind_ok in H as ([] & s4 & _ & H). ok_inv H.
  by exists (mkBundleMember m_name m_type "0").
Qed.

(** C6, what the code does.  The descriptor of bundle [P] gives the
    primitive member [x] the value 5, as text of its [value] element.
    The member order is kept and [y] has no initializer, but [x] is
    initialized to 0: line 86 tests the truth value of the [value]
    element, which is false for an element without children. *)
Theorem bundle_P_default_dropped :
  find "value" (node "member"
                  [leaf "name" "x"; leaf "type" "int32"; leaf "value" "5"])
  = Some (leaf "value" "5")
  ∧ fst (run project_P) = Done (Ok tt)
  ∧ head (outputs (snd (run project_P))) =
    Some (Written "bundle.h"
      ["#pragma once"; "";
       "#include " +:+ quoted "common.h";
       "#include " +:+ quoted "global.h"; "";
       "typedef struct {";
       "    uint8 n = 0;";
       "} BundleC;"; "";
       "typedef struct {";
       "    int32 x = 0;";
       "    BundleC y;";
       "} P;"; ""]).
Proof. split_and!; by vm_compute. Qed.

(** C3, what the code does.  The declaration of a [storagenext] field
    follows the [value] of the last [storage] element: the same element
    is declared with the default 7 in [X] and without a default in [Y];
    and in [Z], processed first in a run, the read of [storage] raises
    [NameError] although the element has a value of its own. *)
Theorem storagenext_default_follows_storage :
  findall "storagenext" combine_X = findall "storagenext" combine_Y
  ∧ "StorageNext<int32> _storagenext_n = StorageNext<int32>(7);"
      ∈ member_lines combine_X
  ∧ "StorageNext<int32> _storagenext_n;" ∈ member_lines combine_Y
  ∧ fst (run (with_combines [("z.xml", Some combine_Z)]))
    = Done (Raise (NameError "storage")).
Proof.
  split_and!.
  - reflexivity.
  - apply list_elem_of_In. vm_compute. tauto.
  - apply list_elem_of_In. vm_compute. tauto.
  - by vm_compute.
Qed.

(** C9.  A run whose first request, or first service, has a [return]
    child and no [arg] child ends with the uncaught
    [NameError] for [arg_type]; nothing is written for the combine, and the
    last line printed is the one that announces it. *)
Theorem return_without_arg_raises_NameError :
  ∃ env_request env_service : Env,
    combine_dir env_request = [("r.xml", Some combine_R)]
    ∧ combine_dir env_service = [("s.xml", Some combine_S)]
    ∧ (∀ e, e ∈ findall "request" combine_R →
         findall "arg" e = [] ∧ findall "return" e ≠ [])
    ∧ (∀ e, e ∈ findall "service" combine_S →
         findall "arg" e = [] ∧ findall "return" e ≠ [])
    ∧ fst (run env_request) = Done (Raise (NameError "arg_type"))
    ∧ fst (run env_service) = Done (Raise (NameError "arg_type"))
    ∧ outputs (snd (run env_request)) = outputs (snd (run empty_project))
    ∧ outputs (snd (run env_service)) = outputs (snd (run empty_project))
    ∧ last (stdout (snd (run env_request)))
      = Some "Loading Combine R From combine/r.xml"
    ∧ last (stdout (snd (run env_service)))
      = Some "Loading Combine S From combine/s.xml".
Proof.
  exists (with_combines [("r.xml", Some combine_R)]),
         (with_combines [("s.xml", Some combine_S)]).
  split_and!; try by vm_compute.
  - intros e He. apply list_elem_of_In in He. vm_compute in He.
    destruct He as [<-|[]]. by vm_compute.
  - intros e He. apply list_elem_of_In in He. vm_compute in He.
    destruct He as [<-|[]]. by vm_compute.
Qed.

(** ** Root tag mismatch *)

Lemma grows_keeps {A} (m : M A) : keeps outputs m → grows m.
Proof.
  intros H st r st' Hrun. exists [].
  rewrite app_nil_r. by eapply keeps_run.
Qed.

Lemma grows_bind {A B} (m : M A) (k : A -> M B) :
  grows m → (∀ a, grows (k a)) → grows (bind m k).
Proof.
  intros Hm Hk st r st' H. unfold bind in H.
  destruct (m st) as [[[a|e|c]|] st1] eqn:E;
    destruct (Hm _ _ _ E) as [more1 H1].
  - destruct (Hk a _ _ _ H) as [more2 H2].
    exists (more1 ++ more2). by rewrite H2, H1, app_assoc.
  - inversion H; subst. eauto.
  - inversion H; subst. eauto.
  - inversion H; subst. eauto.
Qed.

Lemma grows_for_each {A} (l : list A) body :
  (∀ x, grows (body x)) → grows (for_each l body).
Proof.
  intros H. induction l as [|x l IH]; simpl.
  - apply grows_keeps, keeps_ret.
  - apply grows_bind; [apply H|by intros].
Qed.

Lemma grows_append (o : output) :
  grows (modify (λ s, set_outputs (outputs s ++ [o]) s)).
Proof. intros st r st' H. inversion H; subst. by exists [o]. Qed.

Lemma for_each_app {A} (l1 l2 : list A) body st :
  for_each (l1 ++ l2) body st = (for_each l1 body >> for_each l2 body) st.
Proof.
  revert st. induction l1 as [|x l1 IH]; intros st; simpl; [done|].
  unfold bind in IH |- *.
  destruct (body x st) as [[[[]|e|c]|] st1]; done.
Qed.

Lemma load_bundle_keeps_outputs entry : keeps outputs (load_bundle entry).
Proof. unfold load_bundle, load_member, print. keeps_steps. Qed.

Lemma check_dirs_keeps_outputs env : keeps outputs (check_dirs env).
Proof. unfold check_dirs, print. keeps_steps. Qed.

Lemma copy_headers_grows env : grows (copy_headers env).
Proof.
  unfold copy_headers, copy_or_fail, copy_file, make_dir.
  repeat first
    [ apply grows_append
    | apply grows_bind; [|intros]
    | apply grows_for_each; intros
    | apply grows_keeps; unfold print; keeps_steps; fail
    | match goal with
      | |- grows (match ?x with _ => _ end) => destruct x
      end ].
Qed.

Lemma process_combine_grows env entry : grows (process_combine env entry).
Proof.
  unfold process_combine, write_file.
  repeat first
    [ apply grows_append
    | apply grows_keeps;
      first [apply combine_body_keeps_outputs | unfold print; keeps_steps];
      fail
    | apply grows_bind; [|intros]
    | match goal with
      | |- grows (match ?x with _ => _ end) => destruct x
      end ].
Qed.

(** A successful bundle phase has written bundle.h. *)
Lemma bundle_phase_writes_bundle_h env st :
  bundle_phase env initial_state = (Done (Ok tt), st) →
  ∃ lines, Written "bundle.h" lines ∈ outputs st.
Proof.
  intros H. unfold bundle_phase in H.
  apply bind_ok in H as ([] & s1 & _ & H).
  apply bind_ok in H as (seq & s2 & _ & H).
  apply bind_ok in H as ([] & s3 & Hw & H).
  unfold write_bundle_h in Hw.
  apply bind_ok in Hw as (s & s' & Hg & Hw). ok_inv Hg.
  apply bind_ok in Hw as (lines & s' & Hl & Hw). ok_inv Hl. ok_inv Hw.
  apply copy_headers_grows in H as [more H].
  exists lines. rewrite H. simpl. rewrite !elem_of_app, elem_of_cons. auto.
Qed.

Lemma wrong_bundle_tag f root st :
  tag root ≠ "bundle" →
  ∃ st', load_bundle (f, Some root) st = (Done (SysExit 1), st')
         ∧ outputs st' = outputs st.
Proof.
  intros Htag. apply String.eqb_neq in Htag.
  unfold load_bundle. cbn [fst snd]. rewrite Htag.
  eexists. split; [reflexivity|done].
Qed.

Lemma wrong_combine_tag env f root st :
  tag root ≠ "combine" →
  ∃ st', process_combine env (f, Some root) st = (Done (SysExit 1), st')
         ∧ outputs st' = outputs st.
Proof.
  intros Htag. apply String.eqb_neq in Htag.
  unfold process_combine. cbn [fst snd]. rewrite Htag.
  eexists. split; [reflexivity|done].
Qed.

(** C8, as the code has it.  (1) When a bundle descriptor has the wrong
    root tag and the descriptors listed before it load, the run ends at
    once with [sys.exit(1)] and has written nothing.  (2) When a combine
    descriptor has the wrong root tag and everything before it has
    succeeded, the run also ends at once with [sys.exit(1)]; what was
    written before stays, bundle.h included. *)
Theorem root_tag_mismatch_aborts (env : Env) :
  (∀ pre f root post st,
     xml_files (bundle_dir env) = pre ++ (f, Some root) :: post →
     tag root ≠ "bundle" →
     (check_dirs env >> for_each pre load_bundle) initial_state
       = (Done (Ok tt), st) →
     ∃ st', run env = (Done (SysExit 1), st') ∧ outputs st' = [])
  ∧ (∀ pre f root post st,
       xml_files (combine_dir env) = pre ++ (f, Some root) :: post →
       tag root ≠ "combine" →
       (bundle_phase env >> for_each pre (process_combine env)) initial_state
         = (Done (Ok tt), st) →
       ∃ st', run env = (Done (SysExit 1), st')
              ∧ outputs st' = outputs st
              ∧ ∃ lines, Written "bundle.h" lines ∈ outputs st').
Proof.
  split.
  - intros pre f root post st Hfiles Htag H.
    apply bind_ok in H as ([] & s0 & Hc & Hpre).
    destruct (wrong_bundle_tag f root st Htag) as (st' & Hexit & Hout).
    exists st'. split.
    + unfold run, main, bundle_phase.
      do 2 apply bind_stop. unfold load_phase, load_bundles.
      rewrite (bind_run _ _ _ _ _ Hc).
      rewrite Hfiles, for_each_app. rewrite (bind_run _ _ _ _ _ Hpre).
      simpl. by apply bind_stop.
    + rewrite Hout.
      rewrite (keeps_run outputs _ _ _ _
                 (keeps_for_each _ _ _ load_bundle_keeps_outputs) Hpre).
      by rewrite (keeps_run outputs _ _ _ _ (check_dirs_keeps_outputs env) Hc).
  - intros pre f root post st Hfiles Htag H.
    apply bind_ok in H as ([] & s0 & Hb & Hpre).
    destruct (wrong_combine_tag env f root st Htag) as (st' & Hexit & Hout).
    exists st'. split_and!.
    + unfold run, main, combine_phase.
      rewrite (bind_run _ _ _ _ _ Hb). apply bind_stop.
      rewrite Hfiles, for_each_app. rewrite (bind_run _ _ _ _ _ Hpre).
      simpl. by apply bind_stop.
    + done.
    + destruct (bundle_phase_writes_bundle_h env s0 Hb) as [lines Hin].
      destruct (grows_for_each pre _ (process_combine_grows env) _ _ _ Hpre)
        as [more Hmore].
      exists lines. rewrite Hout, Hmore, elem_of_app. auto.
Qed.

Lemma root_tag_mismatch_aborts_witness :
  (∃ st', run misfiled_bundle_project = (Done (SysExit 1), st')
          ∧ outputs st' = [])
  ∧ (∃ st', run misfiled_project = (Done (SysExit 1), st')
            ∧ outputs st' =
                outputs (snd ((bundle_phase misfiled_project
                               >> for_each [core_entry]
                                    (process_combine misfiled_project))
                                initial_state))
            ∧ ∃ lines, Written "bundle.h" lines ∈ outputs st').
Proof.
  split.
  - apply (proj1 (root_tag_mismatch_aborts misfiled_bundle_project)
             [("c.xml", Some bundle_C)] "core.xml" combine_Core []
             (snd ((check_dirs misfiled_bundle_project
                    >> for_each [("c.xml", Some bundle_C)] load_bundle)
                     initial_state))).
    + reflexivity.
    + by vm_compute.
    + by vm_compute.
  - apply (proj2 (root_tag_mismatch_aborts misfiled_project)
             [core_entry] "c.xml" bundle_C []).
    + reflexivity.
    + by vm_compute.
    + by vm_compute.
Defined.

(** C8 as the claim states it fails for a combine descriptor: the run
    exits with code 1, and the output directory already holds bundle.h,
    the copied headers and the files of the combine processed before. *)
Lemma root_tag_mismatch_counterexample :
  xml_files (combine_dir misfiled_project)
  = [core_entry; ("c.xml", Some bundle_C)]
  ∧ tag bundle_C ≠ "combine"
  ∧ fst (run misfiled_project) = Done (SysExit 1)
  ∧ outputs (snd (run misfiled_project)) =
      [Written "bundle.h"
         ["#pragma once"; "";
          "#include " +:+ quoted "common.h";
          "#include " +:+ quoted "global.h"; ""];
       Copied "cpp/global.h" "global.h";
       Copied "common.h" "common.h";
       Copied "vulsimlib.h" "vulsimlib.h";
       MadeDir "lib";
       Written "Core.h"
         (header_lines "Core" "Combine Core" (fields after_Core));
       Written "Core.cpp" (cpp_lines "Core" (fields after_Core))]
  ∧ outputs (snd (run misfiled_project)) ≠ [].
Proof. split_and!; by vm_compute. Qed.

(** * Further properties of the resolver *)

(** The loop of lines 100-105 prints one warning per skipped
    dependency, in order. *)
Lemma build_stdout keys ds : ∀ acc st acc' st',
  fold_each ds (Resolver.add_depend keys) acc st = (Done (Ok acc'), st') →
  stdout st' = stdout st ++ map unknown_type_warning (unknown keys ds).
Proof.
  induction ds as [|[a b] ds IH]; intros acc st acc' st' H; simpl in H.
  - ok_inv H. by rewrite app_nil_r.
  - apply bind_ok in H as (acc1 & st1 & Hstep & H).
    apply IH in H. rewrite H. clear H IH.
    unfold Resolver.add_depend in Hstep. destruct acc as [g d].
    unfold unknown. destruct (in_keys a keys) eqn:Ha; simpl in Hstep.
    + apply in_keys_iff in Ha.
      rewrite filter_cons_False by (simpl; tauto).
      by ok_inv Hstep.
    + apply in_keys_false in Ha. rewrite filter_cons_True by done.
      ok_inv Hstep. simpl. by rewrite <- app_assoc.
Qed.

Lemma resolve_stdout st r st' :
  Resolver.resolve st = (Done (Ok r), st') →
  stdout st' =
    stdout st ++
    map unknown_type_warning
        (unknown (dict_keys (bundles st)) (bundle_depend_former st)).
Proof.
  intros H. unfold Resolver.resolve in H.
  apply bind_ok in H as (s & s0 & Hg & H). ok_inv Hg.
  apply bind_ok in H as ([g d] & s1 & Hb & H).
  apply build_stdout in Hb.
  apply bind_ok in H as (q & s2 & Hq & H). ok_inv Hq.
  inversion H; subst. done.
Qed.

(** X1.  After a successful load the [while] loop of Kahn's algorithm
    always ends, without a [KeyError], and whether or not there is a
    cycle: it names no bundle twice and no unknown name, every bundle it
    names comes after all the known bundles it embeds, and the bundles
    it names are exactly those whose in-degree it has brought to 0; no
    in-degree ends below 0. *)
Theorem resolve_returns_partial_order (env : Env) (st : State) :
  load_phase env initial_state = (Done (Ok tt), st) →
  ∃ seq d st',
    Resolver.resolve st = (Done (Ok (seq, d)), st')
    ∧ NoDup seq
    ∧ (∀ v, v ∈ seq → v ∈ dict_keys (bundles st))
    ∧ (∀ a b, depends st a b → b ∈ seq → before a b seq)
    ∧ (∀ v, v ∈ dict_keys (bundles st) → (v ∈ seq ↔ d !! v = Some 0))
    ∧ (∀ v, v ∈ dict_keys (bundles st) → ∃ n, d !! v = Some n ∧ 0 <= n).
Proof.
  intros Hload.
  destruct (load_phase_loaded env st Hload) as [Hwl _].
  destruct (resolve_spec st Hwl) as (seq & d & st1 & Hres & Hp & Hinv).
  pose proof (inv_nodup _ _ _ _ _ Hinv) as Hnd. rewrite app_nil_r in Hnd.
  exists seq, d, st1. split_and!; try done.
  - intros v Hv. apply (inv_keys _ _ _ _ _ Hinv). by rewrite app_nil_r.
  - apply (inv_order _ _ _ _ _ Hinv).
  - intros v Hv. rewrite (inv_deg _ _ _ _ _ Hinv v Hv).
    pose proof (inv_zero _ _ _ _ _ Hinv v Hv) as Hz.
    rewrite app_nil_r in Hz. rewrite Hz. split; [by intros ->|].
    by intros [= ->].
  - intros v Hv. exists (pending
      (known (dict_keys (bundles st)) (bundle_depend_former st)) seq v).
    split; [apply (inv_deg _ _ _ _ _ Hinv v Hv)|apply pending_nonneg].
Qed.

Lemma resolve_returns_partial_order_witness :
  ∃ seq d st',
    Resolver.resolve loaded_AB = (Done (Ok (seq, d)), st')
    ∧ NoDup seq
    ∧ (∀ v, v ∈ seq → v ∈ dict_keys (bundles loaded_AB))
    ∧ (∀ a b, depends loaded_AB a b → b ∈ seq → before a b seq)
    ∧ (∀ v, v ∈ dict_keys (bundles loaded_AB) →
         (v ∈ seq ↔ d !! v = Some 0))
    ∧ (∀ v, v ∈ dict_keys (bundles loaded_AB) →
         ∃ n, d !! v = Some n ∧ 0 <= n).
Proof.
  apply (resolve_returns_partial_order project_AB loaded_AB).
  reflexivity.
Defined.

(** X2.  After a successful load the loops of lines 97-116 print, after
    the banner of the stage, one warning for every dependency on a type
    that is neither primitive nor the name of a bundle, in the order of
    the declarations, and nothing else; they change nothing but
    [stdout]. *)
Theorem unknown_types_are_warned (env : Env) (st : State) :
  load_phase env initial_state = (Done (Ok tt), st) →
  ∃ r st',
    Resolver.resolve st = (Done (Ok r), st')
    ∧ st' = set_stdout
              (stdout st ++
               map unknown_type_warning
                   (unknown (dict_keys (bundles st))
                            (bundle_depend_former st))) st.
Proof.
  intros Hload.
  destruct (load_phase_loaded env st Hload) as [Hwl _].
  destruct (resolve_spec st Hwl) as (seq & d & st1 & Hres & [out ->] & _).
  exists (seq, d). eexists. split; [exact Hres|].
  apply resolve_stdout in Hres. simpl in Hres. by rewrite Hres.
Qed.

Lemma unknown_types_are_warned_witness :
  ∃ r st',
    Resolver.resolve loaded_Q = (Done (Ok r), st')
    ∧ st' = set_stdout
              (stdout loaded_Q ++
               map unknown_type_warning
                   (unknown (dict_keys (bundles loaded_Q))
                            (bundle_depend_former loaded_Q))) loaded_Q.
Proof.
  apply (unknown_types_are_warned project_Q loaded_Q). reflexivity.
Defined.

Example project_Q_warning :
  map unknown_type_warning
      (unknown (dict_keys (bundles loaded_Q)) (bundle_depend_former loaded_Q))
  = ["WARNING: Unknown Type String Ghost in Bundle Q"].
Proof. by vm_compute. Qed.

Lemma before_trans a b c l :
  NoDup l → before a b l → before b c l → before a c l.
Proof.
  intros Hnd (i & j & Hi & Hj & Hij) (j' & k & Hj' & Hk & Hjk).
  pose proof (NoDup_lookup _ _ _ _ Hnd Hj Hj') as <-.
  exists i, k. split_and!; [done..|lia].
Qed.

Lemma before_irrefl a l : NoDup l → ¬ before a a l.
Proof.
  intros Hnd (i & j & Hi & Hj & Hij).
  pose proof (NoDup_lookup _ _ _ _ Hnd Hi Hj). lia.
Qed.

(** X3.  After a successful load the resolver returns an emission order
    exactly when the recorded dependencies have no cycle, and it exits
    with code 1 exactly when they have one.  The recorded dependencies
    are the pairs appended at line 90 whose type is the name of a loaded
    bundle; they include those of a definition that a later descriptor
    of the same name has replaced.  When the descriptors declare
    pairwise different names, the recorded dependencies have no cycle
    exactly when no loaded bundle embeds itself, directly or through
    other bundles. *)
Theorem bundle_order_succeeds_iff_acyclic (env : Env) (st : State) :
  load_phase env initial_state = (Done (Ok tt), st) →
  ((∃ seq st', Resolver.bundle_order st = (Done (Ok seq), st'))
   ↔ acyclic st)
  ∧ ((∃ st', Resolver.bundle_order st = (Done (SysExit 1), st'))
     ↔ ¬ acyclic st)
  ∧ (NoDup (declared_names (xml_files (bundle_dir env))) →
     (acyclic st ↔ Irreflexive (tc (embeds st)))).
Proof.
  intros Hload.
  destruct (load_phase_loaded env st Hload) as [Hwl _].
  destruct (resolve_spec st Hwl) as (seq & d & st1 & Hres & Hp & Hinv).
  pose proof Hwl as [Hndk Hcl].
  pose proof (known_closed _ _ Hcl) as Hes.
  pose proof (inv_nodup _ _ _ _ _ Hinv) as Hnd. rewrite app_nil_r in Hnd.
  assert (Hok : (∃ seq st', Resolver.bundle_order st = (Done (Ok seq), st'))
                ↔ acyclic st).
  { split.
    - intros (seq' & st' & Hok).
      destruct (decide (length seq = length (dict_keys (bundles st))))
        as [Hlen|Hlen].
      + pose proof (proj1 (inv_length _ _ _ _ Hndk Hinv) Hlen) as Hall.
        assert (Htc : ∀ a b, tc (depends st) a b → before a b seq).
        { induction 1 as [a b H|a b c H _ IH].
          - apply (inv_order _ _ _ _ _ Hinv); [done|].
            apply Hall. by apply Hes in H as [_ ?].
          - eapply before_trans; [done| |exact IH].
            apply (inv_order _ _ _ _ _ Hinv); [done|].
            apply Hall. by apply Hes in H as [_ ?]. }
        intros x Hx. by apply (before_irrefl x seq Hnd), Htc.
      + rewrite (bundle_order_loop st seq d st1 _ Hres Hp Hlen
                   (inv_deg _ _ _ _ _ Hinv)) in Hok.
        discriminate.
    - intros Hacyc. exists seq, st1.
      eapply bundle_order_complete; [done..|].
      apply (inv_length _ _ _ _ Hndk Hinv). by eapply inv_complete. }
  split_and!.
  - exact Hok.
  - split.
    + intros [st' Hexit] Hacyc.
      apply Hok in Hacyc as (seq' & st'' & Hret).
      rewrite Hret in Hexit. discriminate.
    + intros Hcyc.
      destruct (decide (length seq = length (dict_keys (bundles st))))
        as [Hlen|Hlen].
      * destruct Hcyc. apply Hok. exists seq, st1.
        by eapply bundle_order_complete.
      * eexists.
        apply (bundle_order_loop st seq d st1 _ Hres Hp Hlen
                 (inv_deg _ _ _ _ _ Hinv)).
  - intros Hnames. split; intros Hirr x Hx; apply (Hirr x);
      (eapply tc_impl; [|exact Hx]); intros a b;
      by apply (depends_embeds env st Hload Hnames).
Qed.

Lemma bundle_order_succeeds_iff_acyclic_witness :
  ((∃ seq st', Resolver.bundle_order loaded_AB = (Done (Ok seq), st'))
   ↔ acyclic loaded_AB)
  ∧ ((∃ st', Resolver.bundle_order loaded_AB = (Done (SysExit 1), st'))
     ↔ ¬ acyclic loaded_AB)
  ∧ (NoDup (declared_names (xml_files (bundle_dir project_AB))) →
     (acyclic loaded_AB ↔ Irreflexive (tc (embeds loaded_AB)))).
Proof.
  apply (bundle_order_succeeds_iff_acyclic project_AB loaded_AB).
  reflexivity.
Defined.

(** The descriptors of [A] and [B] declare different names, the two
    bundles embed each other, and the resolver exits. *)
Example project_AB_exits :
  declared_names (xml_files (bundle_dir project_AB)) = ["A"; "B"]
  ∧ embeddings loaded_AB = [("B", "A"); ("A", "B")]
  ∧ fst (Resolver.bundle_order loaded_AB) = Done (SysExit 1).
Proof. split_and!; by vm_compute. Qed.



(** Without edges the loop empties the queue in order. *)
Lemma kahn_flat g q : ∀ fuel seq d,
  (∀ u, u ∈ q → g !! u = Some []) →
  (length q < fuel)%nat →
  Resolver.kahn fuel g q seq d = Done (Ok (seq ++ q, d)).
Proof.
  induction q as [|u q IH]; intros fuel seq d Hg Hfuel.
  - destruct fuel; simpl; by rewrite app_nil_r.
  - destruct fuel as [|fuel]; [simpl in Hfuel; lia|].
    simpl. unfold Resolver.at_key. rewrite (Hg u) by left. simpl.
    rewrite IH.
    + by rewrite <- app_assoc.
    + intros v Hv. apply Hg. by right.
    + simpl in Hfuel. lia.
Qed.

(** X5.  When the descriptors declare pairwise different bundle names
    and, after a successful load, no loaded bundle has a member whose
    type is the name of a loaded bundle, the emission order is the
    order of the descriptors in the listing. *)
Theorem independent_bundles_keep_listing_order (env : Env) (st : State) :
  load_phase env initial_state = (Done (Ok tt), st) →
  NoDup (declared_names (xml_files (bundle_dir env))) →
  (∀ a b, ¬ embeds st a b) →
  ∃ st', Resolver.bundle_order st
         = (Done (Ok (declared_names (xml_files (bundle_dir env)))), st').
Proof.
  intros Hload Hnames Hnone.
  destruct (load_phase_fresh env st Hload Hnames) as [_ <-].
  assert (Hnone' : ∀ a b, ¬ depends st a b).
  { intros a b Hab. apply (Hnone a b).
    by apply (depends_embeds env st Hload Hnames). }
  clear Hnone Hnames.
  destruct (load_phase_loaded env st Hload) as [[Hnd Hcl] _].
  set (keys := dict_keys (bundles st)) in *.
  assert (Hes : known keys (bundle_depend_former st) = []).
  { apply elem_of_nil_inv. intros [a b] Hab. by apply (Hnone' a b). }
  destruct (build_spec keys (bundle_depend_former st) []
              (Resolver.empty_graph keys) (Resolver.zero_indegree keys) st)
    as (g & d & st1 & Hbuild & Hg & Hd & Hp).
  { intros a. rewrite empty_graph_lookup. by destruct (in_keys a keys). }
  { intros a. rewrite zero_indegree_lookup. by destruct (in_keys a keys). }
  { intros a b Hab _. by apply (Hcl a b). }
  rewrite Hes in Hg, Hd. simpl in Hg, Hd.
  assert (Hres : Resolver.resolve st = (Done (Ok (keys, d)), st1)).
  { unfold Resolver.resolve.
    rewrite (bind_run _ _ _ _ _ (eq_refl : get st = (Done (Ok st), st))).
    fold keys. rewrite (bind_run _ _ _ _ _ Hbuild).
    unfold bind, lift.
    rewrite (select_spec _ d (λ _, 0) keys).
    - replace (List.filter (λ _ : string, 0 =? 0) keys) with keys.
      + rewrite kahn_flat; [done| |simpl; lia].
        intros u Hu. rewrite (Hg u).
        by apply in_keys_iff in Hu as ->.
      + clear. induction keys as [|k l IH]; simpl; [done|]. by f_equal.
    - intros k Hk. rewrite (Hd k). by apply in_keys_iff in Hk as ->. }
  exists st1. by eapply bundle_order_complete.
Qed.

Lemma independent_bundles_keep_listing_order_witness :
  ∃ st', Resolver.bundle_order loaded_flat
         = (Done (Ok (declared_names (xml_files (bundle_dir project_flat)))),
            st').
Proof.
  apply (independent_bundles_keep_listing_order project_flat loaded_flat).
  - reflexivity.
  - by apply (NoDup_two "D" "BundleC").
  - intros a b. unfold embeds.
    replace (embeddings _) with (@nil (string * string)) by (by vm_compute).
    apply not_elem_of_nil.
Defined.

(** A second descriptor of [A] changes the order although no loaded
    bundle has a composite member: the dependency of the replaced
    definition of [A] on [B] is still recorded. *)
Example replaced_definition_changes_order :
  declared_names (xml_files (bundle_dir project_reordered)) = ["A"; "B"; "A"]
  ∧ dict_keys (bundles (snd (load_phase project_reordered initial_state)))
    = ["A"; "B"]
  ∧ embeddings (snd (load_phase project_reordered initial_state)) = []
  ∧ fst (Resolver.bundle_order
           (snd (load_phase project_reordered initial_state)))
    = Done (Ok ["B"; "A"]).
Proof. split_and!; by vm_compute. Qed.

(** * The files of a run *)

Lemma dict_get_Some {V} k (d : list (string * V)) v :
  dict_get k d = Some v → (k, v) ∈ d.
Proof.
  induction d as [|[k' v'] d IH]; simpl; [done|].
  destruct (String.eqb k' k) eqn:E.
  - apply String.eqb_eq in E. subst. intros [= ->]. left.
  - intros H. right. by apply IH.
Qed.

Lemma dict_get_is_Some {V} k (d : list (string * V)) :
  k ∈ dict_keys d → is_Some (dict_get k d).
Proof.
  induction d as [|[k' v'] d IH]; simpl.
  - intros H. by apply elem_of_nil in H.
  - destruct (String.eqb k' k) eqn:E; [by eexists|].
    intros [->|H]%elem_of_cons; [|by apply IH].
    by rewrite String.eqb_refl in E.
Qed.

Lemma omap_Forall2 {A B} (f : A → outcome B) (l : list A) :
  (∀ x, x ∈ l → ∃ y, f x = Ok y) →
  ∃ ys, omap f l = Ok ys ∧ Forall2 (λ x y, f x = Ok y) l ys.
Proof.
  induction l as [|x l IH]; intros H; simpl.
  - exists []. split; [done|constructor].
  - destruct (H x) as [y Hy]; [left|].
    destruct IH as (ys & Hys & HF); [intros z Hz; apply H; by right|].
    exists (y :: ys). rewrite Hy, Hys. split; [done|by constructor].
Qed.

(** When [bundle_order] returns, it has printed at most, and what it
    returns holds every bundle once. *)
Lemma bundle_order_ok st seq st' :
  well_loaded st →
  Resolver.bundle_order st = (Done (Ok seq), st') →
  printed st st' ∧ NoDup seq ∧ seq ≡ₚ dict_keys (bundles st).
Proof.
  intros Hwl H.
  destruct (resolve_spec st Hwl) as (seq0 & d & st1 & Hres & Hp & Hinv).
  pose proof Hwl as [Hndk Hcl].
  pose proof (inv_nodup _ _ _ _ _ Hinv) as Hnd. rewrite app_nil_r in Hnd.
  destruct (decide (length seq0 = length (dict_keys (bundles st))))
    as [Hlen|Hlen].
  - rewrite (bundle_order_complete st seq0 d st1 Hres Hp Hlen) in H.
    injection H as <- <-. split_and!; [done..|].
    apply NoDup_Permutation; [done..|]. intros x. split.
    + intros Hx. apply (inv_keys _ _ _ _ _ Hinv). by rewrite app_nil_r.
    + by apply (proj1 (inv_length _ _ _ _ Hndk Hinv) Hlen).
  - rewrite (bundle_order_loop st seq0 d st1 _ Hres Hp Hlen
               (inv_deg _ _ _ _ _ Hinv)) in H.
    discriminate.
Qed.

(** X6.  After a successful load, with the emission order that the
    resolver returns, writing bundle.h cannot fail with a [KeyError]:
    the file holds the fixed first lines and then one struct for every
    loaded bundle, once, in the emission order, with the members the
    bundle was loaded with. *)
Theorem bundle_h_declares_every_bundle
    (env : Env) (st : State) (seq : list string) (st1 : State) :
  load_phase env initial_state = (Done (Ok tt), st) →
  Resolver.bundle_order st = (Done (Ok seq), st1) →
  ∃ structs,
    write_bundle_h seq st1 =
      (Done (Ok tt),
       set_outputs
         (outputs st1 ++
          [Written "bundle.h" (bundle_h_preamble ++ List.concat structs)])
         st1)
    ∧ seq ≡ₚ dict_keys (bundles st)
    ∧ Forall2 (λ b lines, ∃ ms, (b, ms) ∈ bundles st
                                ∧ lines = struct_lines b ms)
              seq structs.
Proof.
  intros Hload Hord.
  destruct (load_phase_loaded env st Hload) as [Hwl _].
  destruct (bundle_order_ok st seq st1 Hwl Hord) as (Hp & Hnd & Hperm).
  apply printed_bundles in Hp.
  destruct (omap_Forall2 (bundle_struct (bundles st)) seq)
    as (structs & Homap & HF).
  { intros b Hb. rewrite Hperm in Hb.
    destruct (dict_get_is_Some b (bundles st) Hb) as [ms Hms].
    unfold bundle_struct. rewrite Hms. by eexists. }
  exists structs. split_and!; [|done|].
  - unfold write_bundle_h, bind, get, lift, write_file, modify.
    rewrite Hp. unfold bundle_h_lines. by rewrite Homap.
  - eapply Forall2_impl; [exact HF|].
    intros b lines Hb. cbv beta in Hb. unfold bundle_struct in Hb.
    destruct (dict_get b (bundles st)) as [ms|] eqn:E; [|discriminate].
    exists ms. split; [by apply dict_get_Some|].
    by injection Hb as <-.
Qed.

Lemma bundle_h_declares_every_bundle_witness :
  ∃ structs,
    write_bundle_h ["BundleC"; "P"]
      (snd (Resolver.bundle_order (snd (load_phase project_P initial_state))))
    = (Done (Ok tt),
       set_outputs
         (outputs (snd (Resolver.bundle_order
                          (snd (load_phase project_P initial_state)))) ++
          [Written "bundle.h" (bundle_h_preamble ++ List.concat structs)])
         (snd (Resolver.bundle_order
                 (snd (load_phase project_P initial_state)))))
    ∧ ["BundleC"; "P"]
      ≡ₚ dict_keys (bundles (snd (load_phase project_P initial_state)))
    ∧ Forall2 (λ b lines,
                 ∃ ms, (b, ms) ∈ bundles (snd (load_phase project_P
                                                  initial_state))
                       ∧ lines = struct_lines b ms)
              ["BundleC"; "P"] structs.
Proof.
  apply (bundle_h_declares_every_bundle project_P
           (snd (load_phase project_P initial_state))).
  - reflexivity.
  - by vm_compute.
Defined.

Lemma load_phase_keeps_outputs env : keeps outputs (load_phase env).
Proof.
  unfold load_phase, load_bundles.
  apply keeps_bind; [apply check_dirs_keeps_outputs|intros].
  apply keeps_for_each. intros. apply load_bundle_keeps_outputs.
Qed.

Lemma bundle_order_keeps_outputs : keeps outputs Resolver.bundle_order.
Proof.
  unfold Resolver.bundle_order, Resolver.resolve, Resolver.add_depend, print.
  apply keeps_bind; [|intros [seq d]; keeps_steps].
  apply keeps_bind; [auto with keeps|intros s].
  apply keeps_bind; [keeps_steps|intros [g d]].
  apply keeps_bind; [auto with keeps|intros q]. by intros st.
Qed.

(** X7.  When loading the bundles or ordering them does not run to its
    end, whether by an exception, by [sys.exit] on a wrong root tag or
    on a dependency loop, the run ends there and nothing has been
    written or copied. *)
Theorem no_output_unless_bundles_resolve
    (env : Env) (r : status (list string)) (s1 : State) :
  (load_phase env >> Resolver.bundle_order) initial_state = (r, s1) →
  stopped r →
  snd (run env) = s1 ∧ stopped (fst (run env)) ∧ outputs s1 = [].
Proof.
  intros H Hstop. split_and!.
  - unfold run, main, bundle_phase. unfold bind in *.
    destruct (load_phase env initial_state) as [[[[]|e|c]|] s0];
      [destruct (Resolver.bundle_order s0) as [[[seq|e|c]|] s2]|..];
      inversion H; subst; try done.
    by destruct (Hstop seq).
  - unfold run, main, bundle_phase. unfold bind in *.
    destruct (load_phase env initial_state) as [[[[]|e|c]|] s0];
      [destruct (Resolver.bundle_order s0) as [[[seq|e|c]|] s2]|..];
      inversion H; subst; try (by intros a).
    by destruct (Hstop seq).
  - eapply (keeps_run outputs) in H; [exact H|].
    apply keeps_bind; [apply load_phase_keeps_outputs|intros].
    apply bundle_order_keeps_outputs.
Qed.

Lemma no_output_unless_bundles_resolve_witness :
  snd (run project_AB)
  = snd ((load_phase project_AB >> Resolver.bundle_order) initial_state)
  ∧ stopped (fst (run project_AB))
  ∧ outputs (snd ((load_phase project_AB >> Resolver.bundle_order)
                    initial_state)) = [].
Proof.
  apply (no_output_unless_bundles_resolve project_AB (Done (SysExit 1))).
  - by vm_compute.
  - by intros a.
Defined.

Lemma copy_lib_spec l : ∀ st st',
  for_each l
    (λ filename,
       copy_file ("lib/" +:+ filename) ("lib/" +:+ filename)
       >> print ("copy lib/" +:+ filename)) st = (Done (Ok tt), st') →
  outputs st' =
    outputs st ++ map (λ f, Copied ("lib/" +:+ f) ("lib/" +:+ f)) l
  ∧ warnings st' = warnings st.
Proof.
  induction l as [|f l IH]; intros st st' H; simpl in H.
  - ok_inv H. by rewrite app_nil_r.
  - apply bind_ok in H as ([] & s & Hb & H).
    apply IH in H as [-> ->]. ok_inv Hb. simpl.
    by rewrite <- app_assoc.
Qed.

Lemma copy_headers_ok env st st' :
  copy_headers env st = (Done (Ok tt), st') →
  ∃ listing,
    lib_listing env = Some listing
    ∧ outputs st' =
        outputs st ++
        [Copied "cpp/global.h" "global.h";
         Copied "common.h" "common.h";
         Copied "vulsimlib.h" "vulsimlib.h";
         MadeDir "lib"]
        ++ map (λ f, Copied ("lib/" +:+ f) ("lib/" +:+ f))
               (lib_headers listing)
    ∧ warnings st' = warnings st.
Proof.
  intros H. unfold copy_headers, copy_or_fail in H.
  apply bind_ok in H as ([] & s1 & H1 & H).
  destruct (has_global_h env); [|discriminate]. ok_inv H1.
  apply bind_ok in H as ([] & s2 & H2 & H).
  destruct (has_common_h env); [|discriminate]. ok_inv H2.
  apply bind_ok in H as ([] & s3 & H3 & H).
  destruct (has_vulsimlib_h env); [|discriminate]. ok_inv H3.
  apply bind_ok in H as ([] & s4 & H4 & H). ok_inv H4.
  destruct (lib_listing env) as [listing|]; [|discriminate].
  apply copy_lib_spec in H as [Ho Hw]. exists listing.
  split_and!; [done| |done].
  rewrite Ho. simpl. by rewrite <- !app_assoc.
Qed.

(** What a successful bundle phase has written. *)
Lemma bundle_phase_ok env s1 :
  bundle_phase env initial_state = (Done (Ok tt), s1) →
  ∃ st seq s0 lines listing,
    load_phase env initial_state = (Done (Ok tt), st)
    ∧ Resolver.bundle_order st = (Done (Ok seq), s0)
    ∧ bundle_h_lines (bundles s0) seq = Ok lines
    ∧ lib_listing env = Some listing
    ∧ outputs s1 = support_files lines listing
    ∧ warnings s1 = [].
Proof.
  intros H. unfold bundle_phase in H.
  apply bind_ok in H as ([] & st & Hload & H).
  apply bind_ok in H as (seq & s0 & Hord & H).
  apply bind_ok in H as ([] & s2 & Hw & H).
  unfold write_bundle_h in Hw.
  apply bind_ok in Hw as (s & s' & Hg & Hw). ok_inv Hg.
  apply bind_ok in Hw as (lines & s' & Hl & Hw). ok_inv Hl. ok_inv Hw.
  apply copy_headers_ok in H as (listing & Hlib & Ho & Hwarn).
  exists st, seq, s0, lines, listing. split_and!; try done.
  - rewrite Ho. simpl.
    rewrite (keeps_run outputs _ _ _ _ bundle_order_keeps_outputs Hord).
    by rewrite (keeps_run outputs _ _ _ _ (load_phase_keeps_outputs env) Hload).
  - rewrite Hwarn. simpl.
    destruct (load_phase_loaded env st Hload) as [Hwl _].
    destruct (bundle_order_ok st seq s0 Hwl Hord) as ([out ->] & _).
    simpl.
    assert (K : keeps warnings (load_phase env)).
    { unfold load_phase, load_bundles, check_dirs, load_bundle, load_member,
        print. keeps_steps. }
    by rewrite (keeps_run warnings _ _ _ _ K Hload).
Qed.

(** What a successful pass over the combine descriptors has written and
    recorded. *)
Lemma combine_loop_spec env l : ∀ st st',
  for_each l (process_combine env) st = (Done (Ok tt), st') →
  ∃ files wss,
    Forall2 combine_files l files
    ∧ Forall2 combine_warnings l wss
    ∧ outputs st' = outputs st ++ List.concat files
    ∧ warnings st' = warnings st ++ List.concat wss.
Proof.
  induction l as [|e l IH]; intros st st' H; simpl in H.
  - ok_inv H. exists [], []. rewrite !app_nil_r. by repeat constructor.
  - apply bind_ok in H as ([] & s & He & H).
    apply IH in H as (files & wss & HF & HW & -> & ->).
    destruct (snd e) as [root|] eqn:Hroot.
    2: { unfold process_combine in He. rewrite Hroot in He. discriminate. }
    apply (process_combine_ok env e root _ _ Hroot) in He
      as (cname & comment & s0 & s1 & _ & Hname & Hf & Hw0 & Hout0
          & Hbody & Hout & Hw).
    pose proof (keeps_run _ _ _ _ _ (combine_body_keeps_outputs _ _ _) Hbody)
      as Hout1.
    destruct (combine_body_lifecycle _ _ _ _ _ Hbody Hf) as (Hw1 & _ & _).
    exists ([Written (cname +:+ ".h") (header_lines cname comment (fields s1));
             Written (cname +:+ ".cpp") (cpp_lines cname (fields s1))]
            :: files),
           (duplicate_warnings cname root :: wss).
    split_and!.
    + constructor; [|done].
      by exists root, cname, (header_lines cname comment (fields s1)),
        (cpp_lines cname (fields s1)).
    + constructor; [|done]. by exists root, cname.
    + rewrite Hout, Hout1, Hout0. simpl. by rewrite <- !app_assoc.
    + rewrite Hw, Hw1, Hw0. unfold duplicate_warnings. simpl.
      by rewrite <- !app_assoc.
Qed.

Lemma report_loop ws : ∀ k st st',
  for_each (combine ws (seq k (length ws)))
    (λ wi, print ("WARN " +:+ pretty (snd wi) +:+ ": " +:+ fst wi)) st
  = (Done (Ok tt), st') →
  st' = set_stdout (stdout st ++ imap (λ i, warn_line (k + i)) ws) st.
Proof.
  induction ws as [|w ws IH]; intros k st st' H; simpl in H.
  - ok_inv H. rewrite app_nil_r. by destruct st.
  - apply bind_ok in H as ([] & s & Hp & H). ok_inv Hp.
    apply IH in H. rewrite H. simpl. rewrite <- app_assoc. simpl.
    rewrite Nat.add_0_r.
    replace (imap ((λ i, warn_line (k + i)) ∘ S) ws)
      with (imap (λ i, warn_line (S k + i)) ws); [by destruct st|].
    apply imap_ext. intros i x _. simpl. f_equal. lia.
Qed.

Lemma report_ok env st st' :
  report env st = (Done (Ok tt), st') →
  st' = set_stdout
          (stdout st ++ imap warn_line (warnings st)
           ++ ["Finished"; "Generated code in " +:+ output_dir env]) st.
Proof.
  intros H. unfold report in H.
  apply bind_ok in H as (s & s' & Hg & H). ok_inv Hg.
  apply bind_ok in H as ([] & s1 & Hl & H).
  apply report_loop in Hl. ok_inv H. rewrite Hl. simpl.
  rewrite <- !app_assoc. simpl. by destruct st.
Qed.

(** A successful run, taken apart. *)
Lemma run_ok env st :
  run env = (Done (Ok tt), st) →
  ∃ s1 s2,
    bundle_phase env initial_state = (Done (Ok tt), s1)
    ∧ for_each (xml_files (combine_dir env)) (process_combine env) s1
      = (Done (Ok tt), s2)
    ∧ report env s2 = (Done (Ok tt), st).
Proof.
  intros H. unfold run, main in H.
  apply bind_ok in H as ([] & s1 & H1 & H).
  apply bind_ok in H as ([] & s2 & H2 & H).
  by exists s1, s2.
Qed.

(** X8.  After a run that ends normally the output directory holds, in
    the order of writing: bundle.h, the three support headers, the
    directory [lib] with the [.h] and [.hpp] files of [lib], and then
    for every combine descriptor, in the order of the listing, the
    header and the source file named after the combine. *)
Theorem successful_run_outputs (env : Env) (st : State) :
  run env = (Done (Ok tt), st) →
  ∃ bundle_lines listing files,
    lib_listing env = Some listing
    ∧ Forall2 combine_files (xml_files (combine_dir env)) files
    ∧ outputs st = support_files bundle_lines listing ++ List.concat files.
Proof.
  intros H. apply run_ok in H as (s1 & s2 & Hb & Hc & Hr).
  apply bundle_phase_ok in Hb
    as (st0 & seq & s0 & lines & listing & _ & _ & _ & Hlib & Ho & _).
  apply combine_loop_spec in Hc as (files & wss & HF & _ & Hout & _).
  apply report_ok in Hr.
  exists lines, listing, files. split_and!; [done..|].
  rewrite Hr. simpl. by rewrite Hout, Ho.
Qed.

Lemma successful_run_outputs_witness :
  ∃ bundle_lines listing files,
    lib_listing (with_combines [core_entry]) = Some listing
    ∧ Forall2 combine_files
              (xml_files (combine_dir (with_combines [core_entry]))) files
    ∧ outputs (snd (run (with_combines [core_entry])))
      = support_files bundle_lines listing ++ List.concat files.
Proof.
  apply (successful_run_outputs (with_combines [core_entry])).
  by vm_compute.
Defined.

(** X9.  The run ends, when it ends normally, by printing the recorded
    warnings numbered from 0, then [Finished] and the output
    directory. *)
Theorem run_ends_with_numbered_warnings (env : Env) (st : State) :
  run env = (Done (Ok tt), st) →
  ∃ pre,
    stdout st =
      pre ++ imap warn_line (warnings st)
      ++ ["Finished"; "Generated code in " +:+ output_dir env].
Proof.
  intros H. apply run_ok in H as (s1 & s2 & _ & _ & Hr).
  apply report_ok in Hr. exists (stdout s2). by rewrite Hr.
Qed.

Lemma run_ends_with_numbered_warnings_witness :
  ∃ pre,
    stdout (snd (run (with_combines [core_entry]))) =
      pre ++ imap warn_line (warnings (snd (run (with_combines [core_entry]))))
      ++ ["Finished";
          "Generated code in " +:+ output_dir (with_combines [core_entry])].
Proof.
  apply (run_ends_with_numbered_warnings (with_combines [core_entry])).
  by vm_compute.
Defined.

Example Core_report :
  imap warn_line (warnings (snd (run (with_combines [core_entry])))) =
  ["WARN 0: Combine Core has multiple tick(), only the first one is used";
   "WARN 1: Combine Core has multiple applytick(), only the first one is used"].
Proof. by vm_compute. Qed.

(** X10.  The warnings of a run that ends normally are, for every
    combine descriptor in the order of the listing, the warning for
    several [tick] elements and then the warning for several
    [applytick] elements, when the combine has them; nothing else is
    ever recorded. *)
Theorem warnings_are_the_duplicate_lifecycles (env : Env) (st : State) :
  run env = (Done (Ok tt), st) →
  ∃ wss,
    Forall2 combine_warnings (xml_files (combine_dir env)) wss
    ∧ warnings st = List.concat wss.
Proof.
  intros H. apply run_ok in H as (s1 & s2 & Hb & Hc & Hr).
  apply bundle_phase_ok in Hb
    as (st0 & seq & s0 & lines & listing & _ & _ & _ & _ & _ & Hw).
  apply combine_loop_spec in Hc as (files & wss & _ & HW & _ & Hwarn).
  apply report_ok in Hr.
  exists wss. split; [done|]. rewrite Hr. simpl. by rewrite Hwarn, Hw.
Qed.

Lemma warnings_are_the_duplicate_lifecycles_witness :
  ∃ wss,
    Forall2 combine_warnings
            (xml_files (combine_dir (with_combines [core_entry]))) wss
    ∧ warnings (snd (run (with_combines [core_entry]))) = List.concat wss.
Proof.
  apply (warnings_are_the_duplicate_lifecycles (with_combines [core_entry])).
  by vm_compute.
Defined.

(** A computation that writes nothing unless it runs to its end. *)
Lemma all_or_nothing_keeps {A} (m : M A) :
  keeps outputs m → all_or_nothing m.
Proof. intros K st r st' H _. by eapply keeps_run. Qed.

Lemma all_or_nothing_bind {A B} (m : M A) (k : A → M B) :
  keeps outputs m → (∀ a, all_or_nothing (k a)) → all_or_nothing (bind m k).
Proof.
  intros K Hk st r st' H Hs. unfold bind in H.
  destruct (m st) as [[[a|e|c]|] s1] eqn:E;
    pose proof (keeps_run _ _ _ _ _ K E) as Ho.
  - rewrite <- Ho. by eapply Hk.
  - by inversion H; subst.
  - by inversion H; subst.
  - by inversion H; subst.
Qed.

Lemma process_combine_all_or_nothing env entry :
  all_or_nothing (process_combine env entry).
Proof.
  unfold process_combine.
  destruct (snd entry) as [root|];
    [|apply all_or_nothing_keeps; keeps_steps].
  destruct (negb (tag root =? "combine")%string);
    [apply all_or_nothing_keeps; unfold print; keeps_steps|].
  repeat (apply all_or_nothing_bind;
          [first [apply combine_body_keeps_outputs
                 |solve [unfold print; keeps_steps]]
          |intros]).
  intros s0 r st' H Hs. unfold bind, write_file, modify in H.
  inversion H; subst. by destruct (Hs tt).
Qed.

(** X11.  Nothing is written for a combine before all of it has been
    read.  A turn of the loop over the combine descriptors that stops
    at a step of lines 212-526 (a descriptor that does not parse, a
    wrong root tag, a missing element or text, an unassigned name, the
    failed assertion of line 386, a C++ file that cannot be read) has
    written nothing; a turn that gets past them writes exactly the
    header and then the source file of the combine.  Opening and
    writing the two files (lines 527-534) is taken to succeed: a
    failure there, which would leave the header without the source
    file, is not among the steps that can stop a turn here. *)
Theorem combine_writes_both_files_or_none
    (env : Env) (entry : string * option Element)
    (st : State) (r : status unit) (st' : State) :
  process_combine env entry st = (r, st') →
  (stopped r ∧ outputs st' = outputs st)
  ∨ (r = Done (Ok tt)
     ∧ ∃ files, combine_files entry files
                ∧ outputs st' = outputs st ++ files).
Proof.
  intros H.
  assert (Hstop : stopped r → stopped r ∧ outputs st' = outputs st).
  { intros Hs. split; [done|].
    by eapply (process_combine_all_or_nothing env entry). }
  destruct r as [[[]|e|c]|]; [|left; apply Hstop; by intros a..].
  right. split; [done|].
  destruct (snd entry) as [root|] eqn:Hroot.
  2: { unfold process_combine in H. rewrite Hroot in H. discriminate. }
  apply (process_combine_ok env entry root _ _ Hroot) in H
    as (cname & comment & s0 & s1 & _ & Hname & _ & _ & Hout0
        & Hbody & Hout & _).
  pose proof (keeps_run _ _ _ _ _ (combine_body_keeps_outputs _ _ _) Hbody)
    as Hout1.
  eexists. split.
  - by exists root, cname, (header_lines cname comment (fields s1)),
      (cpp_lines cname (fields s1)).
  - by rewrite Hout, Hout1, Hout0.
Qed.

Lemma combine_writes_both_files_or_none_witness :
  (stopped (fst (process_combine empty_project ("z.xml", Some combine_Z)
                   initial_state))
   ∧ outputs (snd (process_combine empty_project ("z.xml", Some combine_Z)
                     initial_state))
     = outputs initial_state)
  ∨ (fst (process_combine empty_project ("z.xml", Some combine_Z)
            initial_state) = Done (Ok tt)
     ∧ ∃ files,
         combine_files ("z.xml", Some combine_Z) files
         ∧ outputs (snd (process_combine empty_project
                           ("z.xml", Some combine_Z) initial_state))
           = outputs initial_state ++ files).
Proof.
  apply (combine_writes_both_files_or_none empty_project
           ("z.xml", Some combine_Z) initial_state).
  apply surjective_pairing.
Defined.

(** X12.  The directory checks come before everything else: when one of
    the four project directories is missing, or when the output
    directory is not empty, the run prints the message and exits with
    code 1, whatever the descriptors are; no descriptor is read and
    nothing is written. *)
Theorem bad_directories_stop_the_run (env : Env) :
  (proj_dirs_ok env = false →
   run env =
     (Done (SysExit 1), set_stdout ["Project Directory Error"] initial_state))
  ∧ (proj_dirs_ok env = true → output_listing env ≠ [] →
     run env =
       (Done (SysExit 1),
        set_stdout
          ["Output Directory " +:+ output_dir env +:+
           " is NOT EMPTY, Please Clear It"] initial_state)).
Proof.
  split.
  - intros Hd. unfold run, main, bundle_phase, load_phase, check_dirs.
    by rewrite Hd.
  - intros Hd Hl. unfold run, main, bundle_phase, load_phase, check_dirs.
    rewrite Hd. by destruct (output_listing env).
Qed.

Lemma bad_directories_stop_the_run_witness :
  run (mkEnv false "out" [] [("c.xml", None)] [] (λ _, None)
             true true true None)
  = (Done (SysExit 1), set_stdout ["Project Directory Error"] initial_state)
  ∧ run (mkEnv true "out" ["old.h"] [("c.xml", None)] [] (λ _, None)
               true true true None)
    = (Done (SysExit 1),
       set_stdout ["Output Directory out is NOT EMPTY, Please Clear It"]
                  initial_state).
Proof.
  split.
  - by apply (proj1 (bad_directories_stop_the_run
                       (mkEnv false "out" [] [("c.xml", None)] []
                              (λ _, None) true true true None))).
  - apply (proj2 (bad_directories_stop_the_run
                    (mkEnv true "out" ["old.h"] [("c.xml", None)] []
                           (λ _, None) true true true None))); done.
Defined.

(** * Further properties of the extractor *)

Lemma extract_from_none lines func_name nodes :
  Forall (λ n, yields lines func_name n = false) nodes →
  extract_from lines func_name nodes = EmptyString.
Proof.
  intros H. rewrite <- (app_nil_r nodes).
  by rewrite (extract_from_skip _ _ _ _ H).
Qed.

(** X13.  A [cppfunc] that names a function for which the file has no
    top-level definition with braces is not an error: the extractor
    returns the empty string, and the body is one empty line followed
    by the [code] lines. *)
Theorem undefined_function_gives_one_empty_line
    (cpp_dir : string → option CppFile) (owner cppfunc : Element)
    (file name : string) (f : CppFile) (codes : list string) :
  find "cppfunc" owner = Some cppfunc →
  text_strip (find "file" cppfunc) = Ok file →
  text_strip (find "name" cppfunc) = Ok name →
  cpp_dir file = Some f →
  Forall (λ n, yields (file_lines f) name n = false) (tu_children f) →
  omap (λ code, text_strip (Some code)) (findall "code" cppfunc) = Ok codes →
  extract_cpp_function_body cpp_dir file name = Ok EmptyString
  ∧ cppfunc_lines cpp_dir owner = Ok (EmptyString :: codes).
Proof.
  intros Hc Hfile Hname Hf Hno Hcodes.
  assert (He : extract_cpp_function_body cpp_dir file name = Ok EmptyString).
  { unfold extract_cpp_function_body. rewrite Hf.
    by rewrite (extract_from_none _ _ _ Hno). }
  split; [done|].
  unfold cppfunc_lines. rewrite Hc.
  destruct (find "file" cppfunc) as [e|] eqn:E; [|discriminate].
  rewrite Hfile, Hname. cbn [obind]. rewrite He. cbn [obind].
  by rewrite Hcodes.
Qed.

Lemma undefined_function_gives_one_empty_line_witness :
  extract_cpp_function_body (only_file indented_file) "ind.cpp" "absent"
  = Ok EmptyString
  ∧ cppfunc_lines (only_file indented_file) tick_missing
    = Ok [EmptyString; "x = 2;"].
Proof.
  apply (undefined_function_gives_one_empty_line
           (only_file indented_file) tick_missing
           (node "cppfunc"
              [leaf "file" "ind.cpp"; leaf "name" "absent";
               leaf "code" "x = 2;"])
           "ind.cpp" "absent" indented_file ["x = 2;"]).
  - reflexivity.
  - reflexivity.
  - reflexivity.
  - reflexivity.
  - repeat constructor.
  - reflexivity.
Defined.

Lemma rstrip_cons c r :
  PyStr.rstrip (String c r) =
  match PyStr.rstrip r with
  | EmptyString => if PyStr.is_space c then EmptyString else PyStr.chr c
  | r' => String c r'
  end.
Proof. reflexivity. Qed.

Lemma rstrip_idem s : PyStr.rstrip (PyStr.rstrip s) = PyStr.rstrip s.
Proof.
  induction s as [|c r IH]; [done|].
  rewrite rstrip_cons. destruct (PyStr.rstrip r) as [|c' r'] eqn:E.
  - destruct (PyStr.is_space c) eqn:Ec; [done|].
    unfold PyStr.chr. rewrite rstrip_cons. simpl. by rewrite Ec.
  - rewrite rstrip_cons, IH. done.
Qed.

Lemma lstrip_rstrip c r :
  PyStr.is_space c = false →
  PyStr.lstrip (PyStr.rstrip (String c r)) = PyStr.rstrip (String c r).
Proof.
  intros Hc. rewrite rstrip_cons, Hc.
  destruct (PyStr.rstrip r); simpl; by rewrite Hc.
Qed.

Lemma lstrip_head s :
  PyStr.lstrip s = EmptyString
  ∨ ∃ c r, PyStr.lstrip s = String c r ∧ PyStr.is_space c = false.
Proof.
  induction s as [|c r IH]; [by left|]. simpl.
  destruct (PyStr.is_space c) eqn:Ec; [done|]. right. by exists c, r.
Qed.

Lemma strip_idem s : PyStr.strip (PyStr.strip s) = PyStr.strip s.
Proof.
  unfold PyStr.strip.
  destruct (lstrip_head s) as [->|(c & r & -> & Hc)]; [done|].
  by rewrite (lstrip_rstrip _ _ Hc), rstrip_idem.
Qed.

Lemma extract_from_trimmed lines func_name nodes :
  PyStr.strip (extract_from lines func_name nodes)
  = extract_from lines func_name nodes.
Proof.
  induction nodes as [|n nodes IH]; [done|]. cbn [extract_from].
  destruct (is_function_decl (kind n) && String.eqb (spelling n) func_name);
    [|done].
  destruct (extent_start_file n); [|done]. cbv zeta.
  match goal with |- context [if ?b then _ else _] => destruct b end;
    [apply strip_idem|done].
Qed.

(** X14.  Whatever the file holds, what the extractor returns has no
    white space at its start or at its end: stripping it again changes
    nothing. *)
Theorem extractor_result_is_trimmed
    (cpp_dir : string → option CppFile) (filename func_name body : string) :
  extract_cpp_function_body cpp_dir filename func_name = Ok body →
  PyStr.strip body = body.
Proof.
  unfold extract_cpp_function_body.
  destruct (cpp_dir filename) as [f|]; [|discriminate].
  intros [= <-]. apply extract_from_trimmed.
Qed.

Lemma extractor_result_is_trimmed_witness :
  PyStr.strip (line "int y = 1;" +:+ "    return y;")
  = line "int y = 1;" +:+ "    return y;".
Proof.
  apply (extractor_result_is_trimmed (only_file indented_file) "ind.cpp" "g").
  by vm_compute.
Defined.

(** * Further properties of the combine passes *)

Lemma parse_args_spec l : ∀ sg0 st sg st',
  fold_each l parse_arg sg0 st = (Done (Ok sg), st') →
  ∃ args,
    Forall2 arg_of l args
    ∧ sg_arg sg = sg_arg sg0 ++ args
    ∧ sg_ret sg = sg_ret sg0
    ∧ arg_statements sg =
        arg_statements sg0
        ++ map (λ a, by_ref (a_type a) +:+ " " +:+ a_name a) args
    ∧ arg_names sg = arg_names sg0 ++ map a_name args
    ∧ (v_arg_type st', v_arg_name st') =
        match last args with
        | Some a => (Some (by_ref (a_type a)), Some (a_name a))
        | None => (v_arg_type st, v_arg_name st)
        end.
Proof.
  induction l as [|e l IH]; intros sg0 st sg st' H; simpl in H.
  - ok_inv H. exists []. rewrite !app_nil_r. by split_and!; [constructor|..].
  - apply bind_ok in H as (sg1 & s1 & He & H).
    apply IH in H as (args & HF & Ha & Hr & Hs & Hn & Hv).
    unfold parse_arg in He. cbv zeta in He. ok_inv He.
    simpl in *.
    exists (mkArgument a a1 :: args). split_and!.
    + by constructor.
    + by rewrite Ha, <- app_assoc.
    + done.
    + by rewrite Hs, <- app_assoc.
    + by rewrite Hn, <- app_assoc.
    + rewrite Hv. destruct args as [|b args]; [done|].
      rewrite last_cons_cons.
      destruct (last (b :: args)) eqn:E; [done|]. by apply last_None in E.
Qed.

Lemma parse_returns_spec l : ∀ sg0 st sg st',
  fold_each l parse_return sg0 st = (Done (Ok sg), st') →
  ∃ rets,
    Forall2 arg_of l rets
    ∧ st' = st
    ∧ sg_arg sg = sg_arg sg0
    ∧ arg_statements sg =
        arg_statements sg0
        ++ map (λ r, a_type r +:+ " * " +:+ a_name r) rets
    ∧ arg_names sg = arg_names sg0 ++ map a_name rets
    ∧ ∀ t n, v_arg_type st = Some t → v_arg_name st = Some n →
        sg_ret sg = sg_ret sg0 ++ map (λ _, mkArgument t n) rets.
Proof.
  induction l as [|e l IH]; intros sg0 st sg st' H; simpl in H.
  - ok_inv H. exists []. rewrite !app_nil_r.
    split_and!; try done.
    intros t n _ _. simpl. by rewrite app_nil_r.
  - apply bind_ok in H as (sg1 & s1 & He & H).
    apply IH in H as (rets & HF & -> & Ha & Hs & Hn & Hr).
    unfold parse_return in He. ok_inv He. simpl in *.
    exists (mkArgument a a0 :: rets). split_and!.
    + by constructor.
    + done.
    + done.
    + by rewrite Hs, <- app_assoc.
    + by rewrite Hn, <- app_assoc.
    + intros t n Ht Hn'. rewrite (Hr t n Ht Hn'). simpl.
      rewrite <- app_assoc. simpl. congruence.
Qed.

(** X15.  For a request or a service whose children are read without
    error, the parameter list has the [arg] elements first and then
    the [return] elements, each in document order: an argument of a
    primitive type is passed by value, any other by reference, and a
    returned value through a pointer.  The recorded [Function] has the
    arguments as declared; when there is an argument, every entry of
    its [ret] list is the last argument, as passed, and not the
    returned value (lines 285 and 320 append [arg_type] and
    [arg_name]). *)
Theorem signature_lists_args_then_returns
    (e : Element) (st : State) (sg : Signature) (st' : State) :
  parse_signature e st = (Done (Ok sg), st') →
  ∃ args rets : list Argument,
    Forall2 arg_of (findall "arg" e) args
    ∧ Forall2 arg_of (findall "return" e) rets
    ∧ sg_arg sg = args
    ∧ arg_statements sg =
        map (λ a, by_ref (a_type a) +:+ " " +:+ a_name a) args
        ++ map (λ r, a_type r +:+ " * " +:+ a_name r) rets
    ∧ arg_names sg = map a_name args ++ map a_name rets
    ∧ ∀ a, last args = Some a →
        sg_ret sg = map (λ _, mkArgument (by_ref (a_type a)) (a_name a)) rets.
Proof.
  intros H. unfold parse_signature in H.
  apply bind_ok in H as (sg1 & s1 & Hargs & Hrets).
  apply parse_args_spec in Hargs as (args & HFa & Ha & Hr & Hs & Hn & Hv).
  apply parse_returns_spec in Hrets
    as (rets & HFr & -> & Ha' & Hs' & Hn' & Hr').
  exists args, rets. split_and!; try done.
  - by rewrite Ha', Ha.
  - by rewrite Hs', Hs.
  - by rewrite Hn', Hn.
  - intros a Hlast. rewrite Hlast in Hv. injection Hv as Ht Hn2.
    by rewrite (Hr' _ _ Ht Hn2), Hr.
Qed.

Lemma signature_lists_args_then_returns_witness :
  ∃ args rets : list Argument,
    Forall2 arg_of (findall "arg" request_rw) args
    ∧ Forall2 arg_of (findall "return" request_rw) rets
    ∧ [mkArgument "BundleC" "addr"] = args
    ∧ ["BundleC & addr"; "int32 * data"] =
        map (λ a, by_ref (a_type a) +:+ " " +:+ a_name a) args
        ++ map (λ r, a_type r +:+ " * " +:+ a_name r) rets
    ∧ ["addr"; "data"] = map a_name args ++ map a_name rets
    ∧ ∀ a, last args = Some a →
        [mkArgument "BundleC &" "addr"]
        = map (λ _, mkArgument (by_ref (a_type a)) (a_name a)) rets.
Proof.
  apply (signature_lists_args_then_returns request_rw initial_state
           (mkSignature [mkArgument "BundleC" "addr"]
              [mkArgument "BundleC &" "addr"]
              ["BundleC & addr"; "int32 * data"]
              [("addr", EmptyString); ("data", EmptyString)]
              ["addr"; "data"])
           (snd (parse_signature request_rw initial_state))).
  by vm_compute.
Defined.











Example IO_constructor :
  match head (outputs (snd (process_combine empty_project io_entry
                              initial_state))) with
  | Some (Written path lines) => (path, firstn 10 (skipn 19 lines))
  | _ => (EmptyString, [])
  end
  = ("IO.h",
     ["    IO(ConstructorArguments & arg) {";
      "        this->_pipein_in = arg.pipein_in;";
      "        this->_pipeout_out = arg.pipeout_out;";
      "        this->_request_rw = arg.request_rw;";
      "        x = 1;";
      "        this->_external_stall = arg.external_stall;";
      "    }";
      "";
      "    ~IO() {";
      "    }"]).
Proof. by vm_compute. Qed.

(** X17.  A [storage] element whose [value] child has no child elements
    of its own is declared without that value, whatever its text is: a
    field of a primitive type is initialised to 0, a field of any other
    type has no initialiser (line 356 tests the truth value of the
    element). *)
Theorem storage_value_text_is_ignored
    (storage : Element) (name type comment : string) (x : option string)
    (st : State) :
  text_strip (find "name" storage) = Ok name →
  text_strip (find "type" storage) = Ok type →
  text_strip_or "comment" storage "" = Ok comment →
  find "value" storage = Some (Elem "value" x []) →
  ∃ st',
    do_storage storage st = (Done (Ok tt), st')
    ∧ fields st' member_field =
        fields st member_field ++
        ["/* " +:+ comment +:+ " */";
         if is_basic type then type +:+ " " +:+ name +:+ " = 0;"
         else type +:+ " " +:+ name +:+ ";"].
Proof.
  intros Hname Htype Hcomment Hvalue.
  unfold do_storage, bind, modify, lift, emit, print.
  rewrite Hname, Htype, Hcomment, Hvalue, truthy_leaf.
  destruct (is_basic type); (eexists; split; [reflexivity|]);
    unfold fields; simpl; by rewrite <- app_assoc.
Qed.

Lemma storage_value_text_is_ignored_witness :
  ∃ st',
    do_storage storage_v initial_state = (Done (Ok tt), st')
    ∧ fields st' member_field =
        fields initial_state member_field ++
        ["/* " +:+ EmptyString +:+ " */";
         if is_basic "int32" then "int32" +:+ " " +:+ "s" +:+ " = 0;"
         else "int32" +:+ " " +:+ "s" +:+ ";"].
Proof.
  apply (storage_value_text_is_ignored storage_v "s" "int32" EmptyString
           (Some "5") initial_state); reflexivity.
Defined.

(** * Further properties of the loader *)

Lemma load_members_full name ms : ∀ acc st acc' st',
  fold_each ms (load_member name) acc st = (Done (Ok acc'), st') →
  ∃ new,
    Forall2 member_of ms new
    ∧ acc' = acc ++ new
    ∧ st' = set_bundle_depend_former
              (bundle_depend_former st ++
               map (λ m, (bm_type m, name)) (List.filter composite new)) st.
Proof.
  induction ms as [|m ms IH]; intros acc st acc' st' H; simpl in H.
  - ok_inv H. exists []. rewrite !app_nil_r.
    split_and!; [constructor|done|by destruct st].
  - apply bind_ok in H as (acc1 & st1 & Hm & H).
    apply IH in H as (new & HF & -> & ->).
    unfold load_member in Hm. ok_inv Hm.
    pose (mem := mkBundleMember a a0 a1).
    assert (Hv : s = st
                 ∧ if is_basic a0 && truthy (find "value" m)
                   then text_strip (find "value" m) = Ok a1
                   else a1 = "0").
    { destruct (is_basic a0 && truthy (find "value" m)); by ok_inv Hrun. }
    destruct Hv as [-> Hv].
    exists (mem :: new). split_and!.
    + constructor; [|done]. by split_and!.
    + by rewrite <- app_assoc.
    + simpl List.filter. unfold composite at 2. simpl bm_type.
      destruct (is_basic a0); simpl in Hrun0 |- *.
      * by ok_inv Hrun0.
      * ok_inv Hrun0. simpl. by rewrite <- app_assoc.
Qed.

(** X18.  A bundle descriptor that loads records, under the bundle's
    name, one member per [member] element in document order; the
    default of a member is 0 unless its type is primitive and its
    [value] element has child elements.  A name that was loaded before
    keeps its place and gets the new members.  One dependency is
    appended for every member of a type that is not primitive, also
    when the name was loaded before: the dependencies of the replaced
    definition stay.  Nothing is written. *)
Theorem load_bundle_records_members
    (f : string) (root : Element) (st st' : State) :
  load_bundle (f, Some root) st = (Done (Ok tt), st') →
  ∃ name ms,
    tag root = "bundle"
    ∧ named root name
    ∧ Forall2 member_of (findall "member" root) ms
    ∧ bundles st' = dict_set name ms (bundles st)
    ∧ bundle_depend_former st' =
        bundle_depend_former st
        ++ map (λ m, (bm_type m, name)) (List.filter composite ms)
    ∧ stdout st' =
        stdout st ++ ["Loading Bundle " +:+ name +:+ " From bundle/" +:+ f]
    ∧ outputs st' = outputs st.
Proof.
  intros H. unfold load_bundle in H. cbn [fst snd] in H.
  destruct (tag root =? "bundle")%string eqn:Htag;
    unfold negb in H; cbv iota in H.
  2: { apply bind_ok in H as (? & ? & _ & H). discriminate. }
  apply String.eqb_eq in Htag.
  apply bind_ok in H as (name & s & Hname & H). ok_inv Hname.
  apply bind_ok in H as ([] & s & Hp & H). ok_inv Hp.
  apply bind_ok in H as (ms & s & Hms & H). ok_inv H.
  apply load_members_full in Hms as (new & HF & -> & ->).
  exists name, new. by split_and!.
Qed.

Lemma load_bundle_records_members_witness :
  ∃ name ms,
    tag bundle_P = "bundle"
    ∧ named bundle_P name
    ∧ Forall2 member_of (findall "member" bundle_P) ms
    ∧ bundles (snd (load_bundle ("p.xml", Some bundle_P) initial_state))
      = dict_set name ms (bundles initial_state)
    ∧ bundle_depend_former
        (snd (load_bundle ("p.xml", Some bundle_P) initial_state))
      = bundle_depend_former initial_state
        ++ map (λ m, (bm_type m, name)) (List.filter composite ms)
    ∧ stdout (snd (load_bundle ("p.xml", Some bundle_P) initial_state))
      = stdout initial_state
        ++ ["Loading Bundle " +:+ name +:+ " From bundle/" +:+ "p.xml"]
    ∧ outputs (snd (load_bundle ("p.xml", Some bundle_P) initial_state))
      = outputs initial_state.
Proof.
  apply (load_bundle_records_members "p.xml" bundle_P initial_state).
  by vm_compute.
Defined.
